(** * Accounting core of the TigerBeetle TypeScript port

    A shallow embedding of [src/types.ts], [src/validation.ts], [src/id.ts]
    and of the batch loops of [src/database/mysql-database.ts] (with the
    trigger of [schemas/mysql/schema.sql]), followed by the properties
    established about them.

    Conventions of the embedding:
    - a JavaScript [bigint] is a [Z]; a [number] holding an integer is a [Z]
      as well, and the 32-bit bitwise operators are written out with their
      [ToInt32] conversion;
    - the 16-byte [ArrayBuffer] of the id generator is a [list byte], read and
      written little-endian through [DataView]-like accessors;
    - the SQL tables are finite maps keyed by their primary key. *)

From Stdlib Require Import ZArith Lia List Bool Sorted.
From coqutil Require Import Byte Word.LittleEndianList Z.bitblast.
From stdpp Require Import base option gmap sorting.

Local Open Scope Z_scope.

(** ** [src/types.ts] *)

Module AccountFlags.
Definition none : Z := 0.
Definition linked : Z := Z.shiftl 1 0.
Definition debits_must_not_exceed_credits : Z := Z.shiftl 1 1.
Definition credits_must_not_exceed_debits : Z := Z.shiftl 1 2.
Definition history : Z := Z.shiftl 1 3.
Definition imported : Z := Z.shiftl 1 4.
Definition closed : Z := Z.shiftl 1 5.
End AccountFlags.

Module TransferFlags.
Definition none : Z := 0.
Definition linked : Z := Z.shiftl 1 0.
Definition pending : Z := Z.shiftl 1 1.
Definition post_pending_transfer : Z := Z.shiftl 1 2.
Definition void_pending_transfer : Z := Z.shiftl 1 3.
Definition balancing_debit : Z := Z.shiftl 1 4.
Definition balancing_credit : Z := Z.shiftl 1 5.
Definition closing_debit : Z := Z.shiftl 1 6.
Definition closing_credit : Z := Z.shiftl 1 7.
Definition imported : Z := Z.shiftl 1 8.
End TransferFlags.

Record Account : Type := mkAccount {
  a_id : Z;
  a_debits_pending : Z;
  a_debits_posted : Z;
  a_credits_pending : Z;
  a_credits_posted : Z;
  a_user_data_128 : Z;
  a_user_data_64 : Z;
  a_user_data_32 : Z;
  a_reserved : Z;
  a_ledger : Z;
  a_code : Z;
  a_flags : Z;
  a_timestamp : Z
}.

Record Transfer : Type := mkTransfer {
  t_id : Z;
  t_debit_account_id : Z;
  t_credit_account_id : Z;
  t_amount : Z;
  t_pending_id : Z;
  t_user_data_128 : Z;
  t_user_data_64 : Z;
  t_user_data_32 : Z;
  t_timeout : Z;
  t_ledger : Z;
  t_code : Z;
  t_flags : Z;
  t_timestamp : Z
}.

Module CreateAccountError.
Inductive t : Set :=
  | ok
  | linked_event_failed
  | linked_event_chain_open
  | imported_event_expected
  | imported_event_not_expected
  | timestamp_must_be_zero
  | imported_event_timestamp_out_of_range
  | imported_event_timestamp_must_not_advance
  | reserved_field
  | reserved_flag
  | id_must_not_be_zero
  | id_must_not_be_int_max
  | exists_with_different_flags
  | exists_with_different_user_data_128
  | exists_with_different_user_data_64
  | exists_with_different_user_data_32
  | exists_with_different_ledger
  | exists_with_different_code
  | exists_
  | flags_are_mutually_exclusive
  | debits_pending_must_be_zero
  | debits_posted_must_be_zero
  | credits_pending_must_be_zero
  | credits_posted_must_be_zero
  | ledger_must_not_be_zero
  | code_must_not_be_zero
  | imported_event_timestamp_must_not_regress.
End CreateAccountError.

Module CreateTransferError.
Inductive t : Set :=
  | ok
  | linked_event_failed
  | linked_event_chain_open
  | imported_event_expected
  | imported_event_not_expected
  | timestamp_must_be_zero
  | imported_event_timestamp_out_of_range
  | imported_event_timestamp_must_not_advance
  | reserved_flag
  | id_must_not_be_zero
  | id_must_not_be_int_max
  | exists_with_different_flags
  | exists_with_different_pending_id
  | exists_with_different_timeout
  | exists_with_different_debit_account_id
  | exists_with_different_credit_account_id
  | exists_with_different_amount
  | exists_with_different_user_data_128
  | exists_with_different_user_data_64
  | exists_with_different_user_data_32
  | exists_with_different_ledger
  | exists_with_different_code
  | exists_
  | id_already_failed
  | flags_are_mutually_exclusive
  | debit_account_id_must_not_be_zero
  | debit_account_id_must_not_be_int_max
  | credit_account_id_must_not_be_zero
  | credit_account_id_must_not_be_int_max
  | accounts_must_be_different
  | pending_id_must_be_zero
  | pending_id_must_not_be_zero
  | pending_id_must_not_be_int_max
  | pending_id_must_be_different
  | timeout_reserved_for_pending_transfer
  | closing_transfer_must_be_pending
  | ledger_must_not_be_zero
  | code_must_not_be_zero
  | debit_account_not_found
  | credit_account_not_found
  | accounts_must_have_the_same_ledger
  | transfer_must_have_the_same_ledger_as_accounts
  | pending_transfer_not_found
  | pending_transfer_not_pending
  | pending_transfer_has_different_debit_account_id
  | pending_transfer_has_different_credit_account_id
  | pending_transfer_has_different_ledger
  | pending_transfer_has_different_code
  | exceeds_pending_transfer_amount
  | pending_transfer_has_different_amount
  | pending_transfer_already_posted
  | pending_transfer_already_voided
  | pending_transfer_expired
  | imported_event_timestamp_must_not_regress
  | imported_event_timestamp_must_postdate_debit_account
  | imported_event_timestamp_must_postdate_credit_account
  | imported_event_timeout_must_be_zero
  | debit_account_already_closed
  | credit_account_already_closed
  | overflows_debits_pending
  | overflows_credits_pending
  | overflows_debits_posted
  | overflows_credits_posted
  | overflows_debits
  | overflows_credits
  | overflows_timeout
  | exceeds_credits
  | exceeds_debits.
End CreateTransferError.

(** [CreateAccountsError] and [CreateTransfersError]: an index and a result. *)
Record CreateAccountsError : Type := mkAccountsError {
  ae_index : nat;
  ae_result : CreateAccountError.t
}.

Record CreateTransfersError : Type := mkTransfersError {
  te_index : nat;
  te_result : CreateTransferError.t
}.

Record AccountBalance : Type := mkAccountBalance {
  ab_account_id : Z;
  ab_debits_pending : Z;
  ab_debits_posted : Z;
  ab_credits_pending : Z;
  ab_credits_posted : Z;
  ab_timestamp : Z
}.

Definition amount_max : Z := 2 ^ 128 - 1.

Module TransferPendingStatus.
Inductive t : Set := none | pending | posted | voided | expired.
End TransferPendingStatus.

(** ** JavaScript's 32-bit bitwise operators on integer-valued numbers *)

Definition ToInt32 (x : Z) : Z := (x + 2 ^ 31) mod 2 ^ 32 - 2 ^ 31.

(** [a & b] *)
Definition js_and (a b : Z) : Z := Z.land (ToInt32 a) (ToInt32 b).

(** [~a] *)
Definition js_not (a : Z) : Z := Z.lnot (ToInt32 a).

(** [a | b] *)
Definition js_or (a b : Z) : Z := Z.lor (ToInt32 a) (ToInt32 b).

(** Truthiness of a number in a condition. *)
Definition truthy (x : Z) : bool := negb (x =? 0).

(** ** [src/validation.ts] *)

Definition validateAccount (account : Account) : CreateAccountError.t :=
  if a_id account =? 0 then CreateAccountError.id_must_not_be_zero
  else if a_id account >=? 2 ^ 128 - 1 then CreateAccountError.id_must_not_be_int_max
  else if negb (a_timestamp account =? 0) then CreateAccountError.timestamp_must_be_zero
  else if negb (a_reserved account =? 0) then CreateAccountError.reserved_field
  else if a_ledger account =? 0 then CreateAccountError.ledger_must_not_be_zero
  else if a_code account =? 0 then CreateAccountError.code_must_not_be_zero
  else if negb (a_debits_pending account =? 0) then CreateAccountError.debits_pending_must_be_zero
  else if negb (a_debits_posted account =? 0) then CreateAccountError.debits_posted_must_be_zero
  else if negb (a_credits_pending account =? 0) then CreateAccountError.credits_pending_must_be_zero
  else if negb (a_credits_posted account =? 0) then CreateAccountError.credits_posted_must_be_zero
  else
    let flags := a_flags account in
    let validFlagsMask :=
      js_or (js_or (js_or (js_or (js_or
        AccountFlags.linked
        AccountFlags.debits_must_not_exceed_credits)
        AccountFlags.credits_must_not_exceed_debits)
        AccountFlags.history)
        AccountFlags.imported)
        AccountFlags.closed in
    if negb (js_and flags (js_not validFlagsMask) =? 0) then CreateAccountError.reserved_flag
    else if truthy (js_and flags AccountFlags.debits_must_not_exceed_credits)
            && truthy (js_and flags AccountFlags.credits_must_not_exceed_debits)
    then CreateAccountError.flags_are_mutually_exclusive
    else CreateAccountError.ok.

Definition validateAccountExists (existing new_account : Account) : CreateAccountError.t :=
  if negb (a_flags existing =? a_flags new_account) then CreateAccountError.exists_with_different_flags
  else if negb (a_user_data_128 existing =? a_user_data_128 new_account)
  then CreateAccountError.exists_with_different_user_data_128
  else if negb (a_user_data_64 existing =? a_user_data_64 new_account)
  then CreateAccountError.exists_with_different_user_data_64
  else if negb (a_user_data_32 existing =? a_user_data_32 new_account)
  then CreateAccountError.exists_with_different_user_data_32
  else if negb (a_ledger existing =? a_ledger new_account)
  then CreateAccountError.exists_with_different_ledger
  else if negb (a_code existing =? a_code new_account)
  then CreateAccountError.exists_with_different_code
  else CreateAccountError.exists_.

Definition validateTransfer (transfer : Transfer) : CreateTransferError.t :=
  if t_id transfer =? 0 then CreateTransferError.id_must_not_be_zero
  else if t_id transfer >=? 2 ^ 128 - 1 then CreateTransferError.id_must_not_be_int_max
  else if negb (t_timestamp transfer =? 0) then CreateTransferError.timestamp_must_be_zero
  else if t_debit_account_id transfer =? 0
  then CreateTransferError.debit_account_id_must_not_be_zero
  else if t_debit_account_id transfer >=? 2 ^ 128 - 1
  then CreateTransferError.debit_account_id_must_not_be_int_max
  else if t_credit_account_id transfer =? 0
  then CreateTransferError.credit_account_id_must_not_be_zero
  else if t_credit_account_id transfer >=? 2 ^ 128 - 1
  then CreateTransferError.credit_account_id_must_not_be_int_max
  else if t_debit_account_id transfer =? t_credit_account_id transfer
  then CreateTransferError.accounts_must_be_different
  else if t_amount transfer =? 0 then CreateTransferError.exists_
  else if t_amount transfer >? amount_max then CreateTransferError.overflows_debits
  else if t_ledger transfer =? 0 then CreateTransferError.ledger_must_not_be_zero
  else if t_code transfer =? 0 then CreateTransferError.code_must_not_be_zero
  else
    let flags := t_flags transfer in
    let validFlagsMask :=
      js_or (js_or (js_or (js_or (js_or (js_or (js_or (js_or
        TransferFlags.linked
        TransferFlags.pending)
        TransferFlags.post_pending_transfer)
        TransferFlags.void_pending_transfer)
        TransferFlags.balancing_debit)
        TransferFlags.balancing_credit)
        TransferFlags.closing_debit)
        TransferFlags.closing_credit)
        TransferFlags.imported in
    if negb (js_and flags (js_not validFlagsMask) =? 0) then CreateTransferError.reserved_flag
    else
      let pendingFlags :=
        js_or (js_or TransferFlags.pending TransferFlags.post_pending_transfer)
              TransferFlags.void_pending_transfer in
      let pendingFlagsSet := js_and flags pendingFlags in
      if negb (pendingFlagsSet =? 0)
         && negb (js_and pendingFlagsSet (pendingFlagsSet - 1) =? 0)
      then CreateTransferError.flags_are_mutually_exclusive
      else
        let balancingFlags := js_or TransferFlags.balancing_debit TransferFlags.balancing_credit in
        if js_and flags balancingFlags =? balancingFlags
        then CreateTransferError.flags_are_mutually_exclusive
        else
          let closingFlags := js_or TransferFlags.closing_debit TransferFlags.closing_credit in
          if js_and flags closingFlags =? closingFlags
          then CreateTransferError.flags_are_mutually_exclusive
          else
            let pending_id_error : option CreateTransferError.t :=
              if truthy (js_and flags TransferFlags.pending) then
                if negb (t_pending_id transfer =? 0)
                then Some CreateTransferError.pending_id_must_be_zero else None
              else if truthy (js_and flags
                        (js_or TransferFlags.post_pending_transfer
                               TransferFlags.void_pending_transfer)) then
                if t_pending_id transfer =? 0
                then Some CreateTransferError.pending_id_must_not_be_zero
                else if t_pending_id transfer >=? 2 ^ 128 - 1
                then Some CreateTransferError.pending_id_must_not_be_int_max
                else if t_pending_id transfer =? t_id transfer
                then Some CreateTransferError.pending_id_must_be_different
                else None
              else
                if negb (t_pending_id transfer =? 0)
                then Some CreateTransferError.pending_id_must_be_zero else None in
            match pending_id_error with
            | Some e => e
            | None =>
              if truthy (js_and flags TransferFlags.pending) then
                if (t_timeout transfer >? 0) && (t_timeout transfer >? 2 ^ 32 - 1)
                then CreateTransferError.overflows_timeout
                else CreateTransferError.ok
              else
                if negb (t_timeout transfer =? 0)
                then CreateTransferError.timeout_reserved_for_pending_transfer
                else CreateTransferError.ok
            end.

Definition validateTransferExists (existing new_transfer : Transfer) : CreateTransferError.t :=
  if negb (t_flags existing =? t_flags new_transfer)
  then CreateTransferError.exists_with_different_flags
  else if negb (t_debit_account_id existing =? t_debit_account_id new_transfer)
  then CreateTransferError.exists_with_different_debit_account_id
  else if negb (t_credit_account_id existing =? t_credit_account_id new_transfer)
  then CreateTransferError.exists_with_different_credit_account_id
  else if negb (t_amount existing =? t_amount new_transfer)
  then CreateTransferError.exists_with_different_amount
  else if negb (t_pending_id existing =? t_pending_id new_transfer)
  then CreateTransferError.exists_with_different_pending_id
  else if negb (t_user_data_128 existing =? t_user_data_128 new_transfer)
  then CreateTransferError.exists_with_different_user_data_128
  else if negb (t_user_data_64 existing =? t_user_data_64 new_transfer)
  then CreateTransferError.exists_with_different_user_data_64
  else if negb (t_user_data_32 existing =? t_user_data_32 new_transfer)
  then CreateTransferError.exists_with_different_user_data_32
  else if negb (t_timeout existing =? t_timeout new_transfer)
  then CreateTransferError.exists_with_different_timeout
  else if negb (t_ledger existing =? t_ledger new_transfer)
  then CreateTransferError.exists_with_different_ledger
  else if negb (t_code existing =? t_code new_transfer)
  then CreateTransferError.exists_with_different_code
  else CreateTransferError.exists_.

Definition canDebitAccount (account : Account) (amount : Z) : bool :=
  if truthy (js_and (a_flags account) AccountFlags.debits_must_not_exceed_credits) then
    let newDebits := a_debits_posted account + amount in
    newDebits <=? a_credits_posted account
  else true.

Definition canCreditAccount (account : Account) (amount : Z) : bool :=
  if truthy (js_and (a_flags account) AccountFlags.credits_must_not_exceed_debits) then
    let newCredits := a_credits_posted account + amount in
    newCredits <=? a_debits_posted account
  else true.

(** The optional arguments are options; [None] is the caller's [undefined]
    (or the [null] passed for a missing account). *)
Definition validateTransferAccounts (transfer : Transfer)
    (debitAccount creditAccount : option Account)
    (pendingTransfer : option Transfer)
    (pendingStatus : option TransferPendingStatus.t) : CreateTransferError.t :=
  match debitAccount with
  | None => CreateTransferError.debit_account_not_found
  | Some debitAccount =>
  match creditAccount with
  | None => CreateTransferError.credit_account_not_found
  | Some creditAccount =>
    if negb (a_ledger debitAccount =? a_ledger creditAccount)
    then CreateTransferError.accounts_must_have_the_same_ledger
    else if negb (t_ledger transfer =? a_ledger debitAccount)
    then CreateTransferError.transfer_must_have_the_same_ledger_as_accounts
    else if truthy (js_and (a_flags debitAccount) AccountFlags.closed)
    then CreateTransferError.debit_account_already_closed
    else if truthy (js_and (a_flags creditAccount) AccountFlags.closed)
    then CreateTransferError.credit_account_already_closed
    else
      let pending_error : option CreateTransferError.t :=
        if truthy (js_and (t_flags transfer)
                     (js_or TransferFlags.post_pending_transfer
                            TransferFlags.void_pending_transfer)) then
          match pendingTransfer with
          | None => Some CreateTransferError.pending_transfer_not_found
          | Some pendingTransfer =>
            match pendingStatus with
            | Some TransferPendingStatus.pending =>
              if negb (t_debit_account_id pendingTransfer =? t_debit_account_id transfer)
              then Some CreateTransferError.pending_transfer_has_different_debit_account_id
              else if negb (t_credit_account_id pendingTransfer =? t_credit_account_id transfer)
              then Some CreateTransferError.pending_transfer_has_different_credit_account_id
              else if negb (t_ledger pendingTransfer =? t_ledger transfer)
              then Some CreateTransferError.pending_transfer_has_different_ledger
              else if negb (t_code pendingTransfer =? t_code transfer)
              then Some CreateTransferError.pending_transfer_has_different_code
              else if truthy (js_and (t_flags transfer) TransferFlags.post_pending_transfer) then
                if t_amount transfer >? t_amount pendingTransfer
                then Some CreateTransferError.exceeds_pending_transfer_amount
                else None
              else if truthy (js_and (t_flags transfer) TransferFlags.void_pending_transfer) then
                if negb (t_amount transfer =? t_amount pendingTransfer)
                then Some CreateTransferError.pending_transfer_has_different_amount
                else None
              else None
            | _ => Some CreateTransferError.pending_transfer_not_pending
            end
          end
        else None in
      match pending_error with
      | Some e => e
      | None =>
        if negb (canDebitAccount debitAccount (t_amount transfer))
        then CreateTransferError.exceeds_credits
        else if negb (canCreditAccount creditAccount (t_amount transfer))
        then CreateTransferError.exceeds_debits
        else CreateTransferError.ok
      end
  end
  end.

(** [null] is [None]. *)
Definition wouldOverflowAccount (account : Account) (debitAmount creditAmount : Z)
    : option CreateTransferError.t :=
  let maxU128 := 2 ^ 128 - 1 in
  if a_debits_posted account + debitAmount >? maxU128
  then Some CreateTransferError.overflows_debits_posted
  else if a_credits_posted account + creditAmount >? maxU128
  then Some CreateTransferError.overflows_credits_posted
  else if a_debits_posted account + a_debits_pending account + debitAmount >? maxU128
  then Some CreateTransferError.overflows_debits
  else if a_credits_posted account + a_credits_pending account + creditAmount >? maxU128
  then Some CreateTransferError.overflows_credits
  else None.

(** ** [src/id.ts] *)

(** *** [DataView] and [Uint8Array] accessors, little-endian

    A write converts its argument to the unsigned width (the value modulo
    [2 ^ (8 * n)]); every offset used by the code lies inside the 16 bytes. *)

Definition getUint (n : nat) (buf : list byte) (offset : nat) : Z :=
  le_combine (firstn n (skipn offset buf)).

Definition setUint (n : nat) (buf : list byte) (offset : nat) (value : Z) : list byte :=
  firstn offset buf ++ le_split n value ++ skipn (offset + n) buf.

Definition getUint16 := getUint 2.
Definition getUint32 := getUint 4.
Definition getBigUint64 := getUint 8.
Definition setUint16 := setUint 2.
Definition setUint32 := setUint 4.
Definition setBigUint64 := setUint 8.

(** [idArray[i]] and [idArray[i] = v]. *)
Definition getByte (buf : list byte) (i : nat) : Z := getUint 1 buf i.
Definition setByte (buf : list byte) (i : nat) (v : Z) : list byte := setUint 1 buf i v.

(** [new ArrayBuffer(16)] *)
Definition newBuffer : list byte := repeat Byte.x00 16.

(** The module-level state: [idLastTimestamp] and the bytes of [idBuffer]. *)
Record IdState : Type := mkIdState {
  idLastTimestamp : Z;
  idArray : list byte
}.

Definition id_initial : IdState := mkIdState 0 newBuffer.

(** One pass of the body of the carry loop at [offset]. *)
Definition increment_chunk (buf : list byte) (offset : nat) (carry : Z) : list byte * Z :=
  let chunkSize := Nat.min 4 (10 - offset) in
  if (chunkSize =? 4)%nat then
    let value := getUint32 buf offset + carry in
    let buf := setUint32 buf offset (js_and value 0xFFFFFFFF) in
    (buf, if value >? 0xFFFFFFFF then 1 else 0)
  else
    let value :=
      fold_left (fun value i => Z.lor value (Z.shiftl (getByte buf (offset + i)) (Z.of_nat i * 8)))
                (seq 0 chunkSize) 0 in
    let value := value + carry in
    let buf :=
      fold_left (fun buf i =>
                   setByte buf (offset + i) (Z.land (Z.shiftr value (Z.of_nat i * 8)) 0xFF))
                (seq 0 chunkSize) buf in
    (buf, Z.shiftr value (Z.of_nat chunkSize * 8)).

(** [for (let offset = 0; offset < 10 && carry; offset += 4)]: the offsets
    visited are 0, 4 and 8, and the loop leaves as soon as [carry] is 0. *)
Fixpoint increment_loop (offsets : list nat) (buf : list byte) (carry : Z) : list byte * Z :=
  match offsets with
  | [] => (buf, carry)
  | offset :: rest =>
    if truthy carry then
      let '(buf, carry) := increment_chunk buf offset carry in
      increment_loop rest buf carry
    else (buf, carry)
  end.

(** [id()]. [now] is the reading of [Date.now()], [rnd] the 80 bits that
    [crypto.getRandomValues] delivers (consumed only when the millisecond
    advances). The result is [None] when the call throws; the state is the
    one the module is left in either way. *)
Definition id (st : IdState) (now rnd : Z) : IdState * option Z :=
  let '(timestamp, last, buf) :=
    if now <=? idLastTimestamp st
    then (idLastTimestamp st, idLastTimestamp st, idArray st)
    else (now, now, setUint 10 (idArray st) 0 rnd) in
  let '(buf, carry) := increment_loop [0; 4; 8]%nat buf 1 in
  if truthy carry then (mkIdState last buf, None)
  else
    let timestampBig := timestamp in
    let timestampLo := Z.land timestampBig 0xFFFF in
    let timestampHi := Z.land (Z.shiftr timestampBig 16) 0xFFFFFFFF in
    let buf := setUint16 buf 10 timestampLo in
    let buf := setUint32 buf 12 timestampHi in
    let lo := getBigUint64 buf 0 in
    let hi := getBigUint64 buf 8 in
    (mkIdState last buf, Some (Z.lor (Z.shiftl hi 64) lo)).

(** A sequence of calls, each with its clock reading and entropy. *)
Fixpoint id_calls (st : IdState) (inputs : list (Z * Z)) : list (option Z) :=
  match inputs with
  | [] => []
  | (now, rnd) :: rest =>
    let '(st', r) := id st now rnd in
    r :: id_calls st' rest
  end.

Definition parseId (id : Z) : Z * Z :=
  let lo := Z.land id (Z.shiftl 1 64 - 1) in
  let hi := Z.shiftr id 64 in
  let view := newBuffer in
  let view := setBigUint64 view 0 lo in
  let view := setBigUint64 view 8 hi in
  let timestampLo := getUint16 view 10 in
  let timestampHi := getUint32 view 12 in
  let timestampBig := Z.lor timestampLo (Z.shiftl timestampHi 16) in
  let timestamp := timestampBig in
  let randomLo := getBigUint64 view 0 in
  let randomHi := getUint16 view 8 in
  let random := Z.lor randomLo (Z.shiftl randomHi 64) in
  (timestamp, Z.land random (Z.shiftl 1 80 - 1)).

Definition createId (timestamp random : Z) : Z :=
  let view := newBuffer in
  let randomMasked := Z.land random (Z.shiftl 1 80 - 1) in
  let randomLo := Z.land randomMasked (Z.shiftl 1 64 - 1) in
  let randomHi := Z.shiftr randomMasked 64 in
  let view := setBigUint64 view 0 randomLo in
  let view := setUint16 view 8 randomHi in
  let timestampBig := timestamp in
  let timestampLo := Z.land timestampBig 0xFFFF in
  let timestampHi := Z.land (Z.shiftr timestampBig 16) 0xFFFFFFFF in
  let view := setUint16 view 10 timestampLo in
  let view := setUint32 view 12 timestampHi in
  let lo := getBigUint64 view 0 in
  let hi := getBigUint64 view 8 in
  Z.lor (Z.shiftl hi 64) lo.

Definition isValidId (id : Z) : bool := (id >? 0) && (id <? 2 ^ 128 - 1).

(** ** [src/database/mysql-database.ts] and [schemas/mysql/schema.sql]

    The tables [accounts], [transfers], [pending_transfers] and
    [account_balances], each a finite map on its primary key. Column values
    are taken inside the declared column domains, so every statement the
    loop issues succeeds and the enclosing transaction commits. The loop of
    [src/database/turso-database.ts] takes the same decisions in the same
    order; it differs only in how the rows of [pending_transfers] are
    written. *)

Record PendingTransferRow : Type := mkPendingTransferRow {
  pt_status : TransferPendingStatus.t;
  pt_expires_at : Z;
  pt_timestamp : Z
}.

Record Store : Type := mkStore {
  accounts : gmap Z Account;
  transfers : gmap Z Transfer;
  pending_transfers : gmap Z PendingTransferRow;
  account_balances : gmap (Z * Z) AccountBalance
}.

Definition empty_store : Store := mkStore ∅ ∅ ∅ ∅.

Definition lookupAccount (db : Store) (id : Z) : option Account := accounts db !! id.
Definition lookupTransfer (db : Store) (id : Z) : option Transfer := transfers db !! id.

(** [SELECT status FROM pending_transfers WHERE id = ?] *)
Definition lookupPendingStatus (db : Store) (id : Z) : option TransferPendingStatus.t :=
  pt_status <$> pending_transfers db !! id.

(** [UPDATE accounts SET ... WHERE id = ?] *)
Definition update_account (f : Account -> Account) (id : Z) (db : Store) : Store :=
  mkStore (alter f id (accounts db)) (transfers db) (pending_transfers db)
          (account_balances db).

Definition add_debits_pending (x : Z) (a : Account) : Account :=
  mkAccount (a_id a) (a_debits_pending a + x) (a_debits_posted a) (a_credits_pending a)
    (a_credits_posted a) (a_user_data_128 a) (a_user_data_64 a) (a_user_data_32 a)
    (a_reserved a) (a_ledger a) (a_code a) (a_flags a) (a_timestamp a).

Definition add_debits_posted (x : Z) (a : Account) : Account :=
  mkAccount (a_id a) (a_debits_pending a) (a_debits_posted a + x) (a_credits_pending a)
    (a_credits_posted a) (a_user_data_128 a) (a_user_data_64 a) (a_user_data_32 a)
    (a_reserved a) (a_ledger a) (a_code a) (a_flags a) (a_timestamp a).

Definition add_credits_pending (x : Z) (a : Account) : Account :=
  mkAccount (a_id a) (a_debits_pending a) (a_debits_posted a) (a_credits_pending a + x)
    (a_credits_posted a) (a_user_data_128 a) (a_user_data_64 a) (a_user_data_32 a)
    (a_reserved a) (a_ledger a) (a_code a) (a_flags a) (a_timestamp a).

Definition add_credits_posted (x : Z) (a : Account) : Account :=
  mkAccount (a_id a) (a_debits_pending a) (a_debits_posted a) (a_credits_pending a)
    (a_credits_posted a + x) (a_user_data_128 a) (a_user_data_64 a) (a_user_data_32 a)
    (a_reserved a) (a_ledger a) (a_code a) (a_flags a) (a_timestamp a).

Definition set_account_timestamp (ts : Z) (a : Account) : Account :=
  mkAccount (a_id a) (a_debits_pending a) (a_debits_posted a) (a_credits_pending a)
    (a_credits_posted a) (a_user_data_128 a) (a_user_data_64 a) (a_user_data_32 a)
    (a_reserved a) (a_ledger a) (a_code a) (a_flags a) ts.

Definition set_amount (x : Z) (t : Transfer) : Transfer :=
  mkTransfer (t_id t) (t_debit_account_id t) (t_credit_account_id t) x (t_pending_id t)
    (t_user_data_128 t) (t_user_data_64 t) (t_user_data_32 t) (t_timeout t) (t_ledger t)
    (t_code t) (t_flags t) (t_timestamp t).

Definition set_transfer_timestamp (ts : Z) (t : Transfer) : Transfer :=
  mkTransfer (t_id t) (t_debit_account_id t) (t_credit_account_id t) (t_amount t)
    (t_pending_id t) (t_user_data_128 t) (t_user_data_64 t) (t_user_data_32 t) (t_timeout t)
    (t_ledger t) (t_code t) (t_flags t) ts.

(** [recordAccountBalance]: the upsert of a snapshot of the current row. *)
Definition recordAccountBalance (accountId timestamp : Z) (db : Store) : Store :=
  match lookupAccount db accountId with
  | None => db
  | Some account =>
    mkStore (accounts db) (transfers db) (pending_transfers db)
      (<[(accountId, timestamp) :=
           mkAccountBalance accountId (a_debits_pending account) (a_debits_posted account)
             (a_credits_pending account) (a_credits_posted account) timestamp]>
         (account_balances db))
  end.

Definition has_history (account : option Account) : bool :=
  match account with
  | Some a => truthy (js_and (a_flags a) AccountFlags.history)
  | None => false
  end.

Definition updateAccountBalances (transfer : Transfer) (db : Store) : Store :=
  let debitAccount := lookupAccount db (t_debit_account_id transfer) in
  let creditAccount := lookupAccount db (t_credit_account_id transfer) in
  let amount := t_amount transfer in
  let debit := t_debit_account_id transfer in
  let credit := t_credit_account_id transfer in
  let db :=
    if truthy (js_and (t_flags transfer) TransferFlags.pending) then
      update_account (add_credits_pending amount) credit
        (update_account (add_debits_pending amount) debit db)
    else if truthy (js_and (t_flags transfer) TransferFlags.post_pending_transfer) then
      update_account (fun a => add_credits_posted amount (add_credits_pending (- amount) a)) credit
        (update_account (fun a => add_debits_posted amount (add_debits_pending (- amount) a))
           debit db)
    else if truthy (js_and (t_flags transfer) TransferFlags.void_pending_transfer) then
      update_account (add_credits_pending (- amount)) credit
        (update_account (add_debits_pending (- amount)) debit db)
    else
      update_account (add_credits_posted amount) credit
        (update_account (add_debits_posted amount) debit db) in
  let db :=
    if has_history debitAccount
    then recordAccountBalance debit (t_timestamp transfer) db else db in
  if has_history creditAccount
  then recordAccountBalance credit (t_timestamp transfer) db else db.

(** [INSERT INTO transfers], followed by the trigger [transfer_pending_insert]
    that maintains [pending_transfers]. *)
Definition insert_transfer (transfer : Transfer) (db : Store) : Store :=
  let new := transfer in
  let pt := pending_transfers db in
  let pt :=
    if Z.land (t_flags new) 2 =? 2 then
      <[t_id new :=
          mkPendingTransferRow TransferPendingStatus.pending
            (if t_timeout new >? 0 then t_timestamp new + t_timeout new * 1000000000 else 0)
            (t_timestamp new)]> pt
    else pt in
  let pt :=
    if (Z.land (t_flags new) 4 =? 4) && (t_pending_id new >? 0) then
      alter (fun r => mkPendingTransferRow TransferPendingStatus.posted (pt_expires_at r)
                         (t_timestamp new))
            (t_pending_id new) pt
    else pt in
  let pt :=
    if (Z.land (t_flags new) 8 =? 8) && (t_pending_id new >? 0) then
      alter (fun r => mkPendingTransferRow TransferPendingStatus.voided (pt_expires_at r)
                         (t_timestamp new))
            (t_pending_id new) pt
    else pt in
  mkStore (accounts db) (<[t_id new := new]> (transfers db)) pt (account_balances db).

Definition getMaxDebitAmount (account : Account) : Z :=
  if truthy (js_and (a_flags account) AccountFlags.debits_must_not_exceed_credits) then
    let availableBalance := a_credits_posted account - a_debits_posted account in
    if availableBalance >? 0 then availableBalance else 0
  else 2 ^ 63 - 1.

Definition getMaxCreditAmount (account : Account) : Z :=
  if truthy (js_and (a_flags account) AccountFlags.credits_must_not_exceed_debits) then
    let availableBalance := a_debits_posted account - a_credits_posted account in
    if availableBalance >? 0 then availableBalance else 0
  else 2 ^ 63 - 1.

Definition calculateBalancingAmount (transfer : Transfer)
    (debitAccount creditAccount : Account) : Z :=
  if truthy (js_and (t_flags transfer) TransferFlags.balancing_debit) then
    let maxDebitAmount := getMaxDebitAmount debitAccount in
    if maxDebitAmount <? t_amount transfer then maxDebitAmount else t_amount transfer
  else if truthy (js_and (t_flags transfer) TransferFlags.balancing_credit) then
    let maxCreditAmount := getMaxCreditAmount creditAccount in
    if maxCreditAmount <? t_amount transfer then maxCreditAmount else t_amount transfer
  else t_amount transfer.

(** The variables a batch loop carries from one element to the next. *)
Record Loop (E : Type) : Type := mkLoop {
  l_db : Store;
  l_errors : list E;
  l_lastTimestamp : Z
}.
Arguments mkLoop {E}.
Arguments l_db {E}.
Arguments l_errors {E}.
Arguments l_lastTimestamp {E}.

(** [errors.push(e); continue] *)
Definition push {E : Type} (e : E) (st : Loop E) : Loop E :=
  mkLoop (l_db st) (l_errors st ++ [e]) (l_lastTimestamp st).

(** [BigInt(Date.now()) * 1_000_000n], moved past [lastTimestamp]. *)
Definition next_timestamp (now lastTimestamp : Z) : Z :=
  let currentTime := now * 1000000 in
  if currentTime <=? lastTimestamp then lastTimestamp + 1 else currentTime.

Definition account_ok (e : CreateAccountError.t) : bool :=
  match e with CreateAccountError.ok => true | _ => false end.

Definition transfer_ok (e : CreateTransferError.t) : bool :=
  match e with CreateTransferError.ok => true | _ => false end.

(** [pendingStatus || undefined]: the status 0 ([none]) is falsy. *)
Definition or_undefined (s : option TransferPendingStatus.t)
    : option TransferPendingStatus.t :=
  match s with
  | Some TransferPendingStatus.none => None
  | _ => s
  end.

(** The body of the loop of [createAccounts] for the element at index [i];
    [now] is the reading of [Date.now()] taken if the element is inserted.
    The lookup runs in the same transaction as the insert, so the insert
    never meets a duplicate key. *)
Definition createAccounts_step (now : Z) (i : nat) (st : Loop CreateAccountsError)
    (account : Account) : Loop CreateAccountsError :=
  let validationError := validateAccount account in
  if negb (account_ok validationError) then push (mkAccountsError i validationError) st
  else
    match lookupAccount (l_db st) (a_id account) with
    | Some existingAccount =>
      push (mkAccountsError i (validateAccountExists existingAccount account)) st
    | None =>
      let currentTime := next_timestamp now (l_lastTimestamp st) in
      let db := l_db st in
      mkLoop
        (mkStore (<[a_id account := set_account_timestamp currentTime account]> (accounts db))
                 (transfers db) (pending_transfers db) (account_balances db))
        (l_errors st) currentTime
    end.

(** The body of the loop of [createTransfers] for the element at index [i]. *)
Definition createTransfers_step (now : Z) (i : nat) (st : Loop CreateTransfersError)
    (transfer : Transfer) : Loop CreateTransfersError :=
  let db := l_db st in
  let validationError := validateTransfer transfer in
  if negb (transfer_ok validationError) then push (mkTransfersError i validationError) st
  else
    match lookupTransfer db (t_id transfer) with
    | Some existingTransfer =>
      push (mkTransfersError i (validateTransferExists existingTransfer transfer)) st
    | None =>
      let debitAccount := lookupAccount db (t_debit_account_id transfer) in
      let creditAccount := lookupAccount db (t_credit_account_id transfer) in
      let '(pendingTransfer, pendingStatus) :=
        if truthy (js_and (t_flags transfer)
                     (js_or TransferFlags.post_pending_transfer
                            TransferFlags.void_pending_transfer)) then
          match lookupTransfer db (t_pending_id transfer) with
          | Some p => (Some p, lookupPendingStatus db (t_pending_id transfer))
          | None => (None, None)
          end
        else (None, None) in
      (* [None]: the element is skipped by [continue] *)
      let clamped : option Transfer :=
        if truthy (js_and (t_flags transfer)
                     (js_or TransferFlags.balancing_debit TransferFlags.balancing_credit)) then
          match debitAccount, creditAccount with
          | Some d, Some c =>
            let clampedAmount := calculateBalancingAmount transfer d c in
            if clampedAmount =? 0 then None else Some (set_amount clampedAmount transfer)
          | _, _ => Some transfer
          end
        else Some transfer in
      match clamped with
      | None => st
      | Some transfer =>
        let accountValidationError :=
          validateTransferAccounts transfer debitAccount creditAccount
            pendingTransfer (or_undefined pendingStatus) in
        if negb (transfer_ok accountValidationError)
        then push (mkTransfersError i accountValidationError) st
        else
          match debitAccount, creditAccount with
          | Some debitAccount, Some creditAccount =>
            let debitAmount :=
              if truthy (js_and (t_flags transfer) TransferFlags.pending)
              then 0 else t_amount transfer in
            let creditAmount := debitAmount in
            let pendingDebitAmount :=
              if truthy (js_and (t_flags transfer) TransferFlags.pending)
              then t_amount transfer else 0 in
            let pendingCreditAmount := pendingDebitAmount in
            match wouldOverflowAccount debitAccount debitAmount 0 with
            | Some debitOverflow => push (mkTransfersError i debitOverflow) st
            | None =>
              match wouldOverflowAccount creditAccount 0 creditAmount with
              | Some creditOverflow => push (mkTransfersError i creditOverflow) st
              | None =>
                let currentTime := next_timestamp now (l_lastTimestamp st) in
                let transfer := set_transfer_timestamp currentTime transfer in
                mkLoop (updateAccountBalances transfer (insert_transfer transfer db))
                       (l_errors st) currentTime
              end
            end
          | _, _ => st (* not reached: a missing account is reported just above *)
          end
      end
    end.

(** The loop over the batch; [clock i] is what [Date.now()] reads while
    the element at index [i] is processed. *)
Fixpoint batch_loop {A E : Type} (step : Z -> nat -> Loop E -> A -> Loop E)
    (clock : nat -> Z) (i : nat) (batch : list A) (st : Loop E) : Loop E :=
  match batch with
  | [] => st
  | x :: rest => batch_loop step clock (S i) rest (step (clock i) i st x)
  end.

Definition createAccounts (clock : nat -> Z) (db : Store) (accounts : list Account)
    : Store * list CreateAccountsError :=
  let st := batch_loop createAccounts_step clock 0%nat accounts (mkLoop db [] 0) in
  (l_db st, l_errors st).

Definition createTransfers (clock : nat -> Z) (db : Store) (transfers : list Transfer)
    : Store * list CreateTransfersError :=
  let st := batch_loop createTransfers_step clock 0%nat transfers (mkLoop db [] 0) in
  (l_db st, l_errors st).

(** *** Lookups of several ids *)

(** The order of [ORDER BY id] on the rows of a table. *)
Definition by_id {A : Type} (row1 row2 : Z * A) : Prop := fst row1 <= fst row2.

#[global] Instance by_id_dec {A : Type} : RelDecision (@by_id A) :=
  fun row1 row2 => decide (fst row1 <= fst row2).

(** [SELECT * FROM table WHERE id IN (ids) ORDER BY id]: the rows whose
    primary key is one of [ids], in the numeric order of the key. *)
Definition select_by_ids {A : Type} (table : gmap Z A) (ids : list Z) : list A :=
  snd <$> merge_sort by_id (filter (fun row => fst row ∈ ids) (map_to_list table)).

(** [lookupAccounts]: an empty request is answered without a query. *)
Definition lookupAccounts (db : Store) (ids : list Z) : list Account :=
  match ids with
  | [] => []
  | _ => select_by_ids (accounts db) ids
  end.

(** [lookupTransfers], the same query on [transfers]. *)
Definition lookupTransfers (db : Store) (ids : list Z) : list Transfer :=
  match ids with
  | [] => []
  | _ => select_by_ids (transfers db) ids
  end.

(** ** Definitions used to state the properties *)

(** Reading a rule table: the error attached to the first rule that is
    violated, [ok] when none is. *)
Definition first_violated {A E : Type} (rules : list ((A -> bool) * E)) (ok : E) (x : A) : E :=
  match find (fun rule => fst rule x) rules with
  | Some rule => snd rule
  | None => ok
  end.

Definition account_valid_flags_mask : Z :=
  js_or (js_or (js_or (js_or (js_or
    AccountFlags.linked
    AccountFlags.debits_must_not_exceed_credits)
    AccountFlags.credits_must_not_exceed_debits)
    AccountFlags.history)
    AccountFlags.imported)
    AccountFlags.closed.

Definition transfer_valid_flags_mask : Z :=
  js_or (js_or (js_or (js_or (js_or (js_or (js_or (js_or
    TransferFlags.linked
    TransferFlags.pending)
    TransferFlags.post_pending_transfer)
    TransferFlags.void_pending_transfer)
    TransferFlags.balancing_debit)
    TransferFlags.balancing_credit)
    TransferFlags.closing_debit)
    TransferFlags.closing_credit)
    TransferFlags.imported.

(** The order of the rules of [validateAccount]: id, timestamp, reserved
    field, ledger, code, balances, flag validity, flag exclusion. *)
Definition account_rule_order : list ((Account -> bool) * CreateAccountError.t) :=
  [ (fun a => a_id a =? 0, CreateAccountError.id_must_not_be_zero);
    (fun a => a_id a >=? 2 ^ 128 - 1, CreateAccountError.id_must_not_be_int_max);
    (fun a => negb (a_timestamp a =? 0), CreateAccountError.timestamp_must_be_zero);
    (fun a => negb (a_reserved a =? 0), CreateAccountError.reserved_field);
    (fun a => a_ledger a =? 0, CreateAccountError.ledger_must_not_be_zero);
    (fun a => a_code a =? 0, CreateAccountError.code_must_not_be_zero);
    (fun a => negb (a_debits_pending a =? 0), CreateAccountError.debits_pending_must_be_zero);
    (fun a => negb (a_debits_posted a =? 0), CreateAccountError.debits_posted_must_be_zero);
    (fun a => negb (a_credits_pending a =? 0), CreateAccountError.credits_pending_must_be_zero);
    (fun a => negb (a_credits_posted a =? 0), CreateAccountError.credits_posted_must_be_zero);
    (fun a => negb (js_and (a_flags a) (js_not account_valid_flags_mask) =? 0),
     CreateAccountError.reserved_flag);
    (fun a => truthy (js_and (a_flags a) AccountFlags.debits_must_not_exceed_credits)
              && truthy (js_and (a_flags a) AccountFlags.credits_must_not_exceed_debits),
     CreateAccountError.flags_are_mutually_exclusive) ].

Definition is_pending (t : Transfer) : bool :=
  truthy (js_and (t_flags t) TransferFlags.pending).

Definition is_post_or_void (t : Transfer) : bool :=
  truthy (js_and (t_flags t)
            (js_or TransferFlags.post_pending_transfer TransferFlags.void_pending_transfer)).

Definition is_balancing (t : Transfer) : bool :=
  truthy (js_and (t_flags t)
            (js_or TransferFlags.balancing_debit TransferFlags.balancing_credit)).

Definition pending_flags_set (t : Transfer) : Z :=
  js_and (t_flags t)
    (js_or (js_or TransferFlags.pending TransferFlags.post_pending_transfer)
           TransferFlags.void_pending_transfer).

(** The order of the rules of [validateTransfer] as the code has them: id,
    timestamp, the two account ids, accounts differ, amount, ledger, code,
    flag validity, flag exclusion, pending id, timeout. *)
Definition transfer_rule_order : list ((Transfer -> bool) * CreateTransferError.t) :=
  [ (fun t => t_id t =? 0, CreateTransferError.id_must_not_be_zero);
    (fun t => t_id t >=? 2 ^ 128 - 1, CreateTransferError.id_must_not_be_int_max);
    (fun t => negb (t_timestamp t =? 0), CreateTransferError.timestamp_must_be_zero);
    (fun t => t_debit_account_id t =? 0, CreateTransferError.debit_account_id_must_not_be_zero);
    (fun t => t_debit_account_id t >=? 2 ^ 128 - 1,
     CreateTransferError.debit_account_id_must_not_be_int_max);
    (fun t => t_credit_account_id t =? 0, CreateTransferError.credit_account_id_must_not_be_zero);
    (fun t => t_credit_account_id t >=? 2 ^ 128 - 1,
     CreateTransferError.credit_account_id_must_not_be_int_max);
    (fun t => t_debit_account_id t =? t_credit_account_id t,
     CreateTransferError.accounts_must_be_different);
    (fun t => t_amount t =? 0, CreateTransferError.exists_);
    (fun t => t_amount t >? amount_max, CreateTransferError.overflows_debits);
    (fun t => t_ledger t =? 0, CreateTransferError.ledger_must_not_be_zero);
    (fun t => t_code t =? 0, CreateTransferError.code_must_not_be_zero);
    (fun t => negb (js_and (t_flags t) (js_not transfer_valid_flags_mask) =? 0),
     CreateTransferError.reserved_flag);
    (fun t => negb (pending_flags_set t =? 0)
              && negb (js_and (pending_flags_set t) (pending_flags_set t - 1) =? 0),
     CreateTransferError.flags_are_mutually_exclusive);
    (fun t => js_and (t_flags t)
                (js_or TransferFlags.balancing_debit TransferFlags.balancing_credit)
              =? js_or TransferFlags.balancing_debit TransferFlags.balancing_credit,
     CreateTransferError.flags_are_mutually_exclusive);
    (fun t => js_and (t_flags t)
                (js_or TransferFlags.closing_debit TransferFlags.closing_credit)
              =? js_or TransferFlags.closing_debit TransferFlags.closing_credit,
     CreateTransferError.flags_are_mutually_exclusive);
    (fun t => is_pending t && negb (t_pending_id t =? 0),
     CreateTransferError.pending_id_must_be_zero);
    (fun t => negb (is_pending t) && is_post_or_void t && (t_pending_id t =? 0),
     CreateTransferError.pending_id_must_not_be_zero);
    (fun t => negb (is_pending t) && is_post_or_void t && (t_pending_id t >=? 2 ^ 128 - 1),
     CreateTransferError.pending_id_must_not_be_int_max);
    (fun t => negb (is_pending t) && is_post_or_void t && (t_pending_id t =? t_id t),
     CreateTransferError.pending_id_must_be_different);
    (fun t => negb (is_pending t) && negb (is_post_or_void t) && negb (t_pending_id t =? 0),
     CreateTransferError.pending_id_must_be_zero);
    (fun t => is_pending t && (t_timeout t >? 0) && (t_timeout t >? 2 ^ 32 - 1),
     CreateTransferError.overflows_timeout);
    (fun t => negb (is_pending t) && negb (t_timeout t =? 0),
     CreateTransferError.timeout_reserved_for_pending_transfer) ].

(** Reading a field list: the error attached to the first field on which
    the stored and the new record differ, [same] when none does. *)
Definition first_difference {A E : Type} (fields : list ((A -> Z) * E)) (same : E)
    (existing new : A) : E :=
  first_violated
    (map (fun field => (fun x : A => negb (fst field existing =? fst field x), snd field)) fields)
    same new.

Definition account_field_order : list ((Account -> Z) * CreateAccountError.t) :=
  [ (a_flags, CreateAccountError.exists_with_different_flags);
    (a_user_data_128, CreateAccountError.exists_with_different_user_data_128);
    (a_user_data_64, CreateAccountError.exists_with_different_user_data_64);
    (a_user_data_32, CreateAccountError.exists_with_different_user_data_32);
    (a_ledger, CreateAccountError.exists_with_different_ledger);
    (a_code, CreateAccountError.exists_with_different_code) ].

(** The field order of the specification for transfers: the six fields
    shared with accounts, then the five fields proper to transfers. *)
Definition spec_transfer_field_order : list ((Transfer -> Z) * CreateTransferError.t) :=
  [ (t_flags, CreateTransferError.exists_with_different_flags);
    (t_user_data_128, CreateTransferError.exists_with_different_user_data_128);
    (t_user_data_64, CreateTransferError.exists_with_different_user_data_64);
    (t_user_data_32, CreateTransferError.exists_with_different_user_data_32);
    (t_ledger, CreateTransferError.exists_with_different_ledger);
    (t_code, CreateTransferError.exists_with_different_code);
    (t_debit_account_id, CreateTransferError.exists_with_different_debit_account_id);
    (t_credit_account_id, CreateTransferError.exists_with_different_credit_account_id);
    (t_amount, CreateTransferError.exists_with_different_amount);
    (t_pending_id, CreateTransferError.exists_with_different_pending_id);
    (t_timeout, CreateTransferError.exists_with_different_timeout) ].

(** The field order [validateTransferExists] follows. *)
Definition transfer_field_order : list ((Transfer -> Z) * CreateTransferError.t) :=
  [ (t_flags, CreateTransferError.exists_with_different_flags);
    (t_debit_account_id, CreateTransferError.exists_with_different_debit_account_id);
    (t_credit_account_id, CreateTransferError.exists_with_different_credit_account_id);
    (t_amount, CreateTransferError.exists_with_different_amount);
    (t_pending_id, CreateTransferError.exists_with_different_pending_id);
    (t_user_data_128, CreateTransferError.exists_with_different_user_data_128);
    (t_user_data_64, CreateTransferError.exists_with_different_user_data_64);
    (t_user_data_32, CreateTransferError.exists_with_different_user_data_32);
    (t_timeout, CreateTransferError.exists_with_different_timeout);
    (t_ledger, CreateTransferError.exists_with_different_ledger);
    (t_code, CreateTransferError.exists_with_different_code) ].

(** The loop variables of [createTransfers] on reaching the element that
    follows the elements [pre]. *)
Definition transfers_state_after (clock : nat -> Z) (db : Store) (pre : list Transfer)
    : Loop CreateTransfersError :=
  batch_loop createTransfers_step clock 0%nat pre (mkLoop db [] 0).

Definition accounts_state_after (clock : nat -> Z) (db : Store) (pre : list Account)
    : Loop CreateAccountsError :=
  batch_loop createAccounts_step clock 0%nat pre (mkLoop db [] 0).

(** The four running totals of an account of the store. *)
Definition balances (db : Store) (id : Z) : option (Z * Z * Z * Z) :=
  (fun a => (a_debits_pending a, a_debits_posted a, a_credits_pending a, a_credits_posted a))
    <$> lookupAccount db id.

(** Errors that no validation function and no check of the loop produces. *)
Definition unused_error (e : CreateTransferError.t) : bool :=
  match e with
  | CreateTransferError.linked_event_failed
  | CreateTransferError.linked_event_chain_open
  | CreateTransferError.overflows_debits_pending
  | CreateTransferError.overflows_credits_pending => true
  | _ => false
  end.

(** What [updateAccountBalances] applies to the row of the debit account. *)
Definition debit_update (t : Transfer) : Account -> Account :=
  if truthy (js_and (t_flags t) TransferFlags.pending) then
    add_debits_pending (t_amount t)
  else if truthy (js_and (t_flags t) TransferFlags.post_pending_transfer) then
    fun a => add_debits_posted (t_amount t) (add_debits_pending (- t_amount t) a)
  else if truthy (js_and (t_flags t) TransferFlags.void_pending_transfer) then
    add_debits_pending (- t_amount t)
  else add_debits_posted (t_amount t).

(** What [updateAccountBalances] applies to the row of the credit account. *)
Definition credit_update (t : Transfer) : Account -> Account :=
  if truthy (js_and (t_flags t) TransferFlags.pending) then
    add_credits_pending (t_amount t)
  else if truthy (js_and (t_flags t) TransferFlags.post_pending_transfer) then
    fun a => add_credits_posted (t_amount t) (add_credits_pending (- t_amount t) a)
  else if truthy (js_and (t_flags t) TransferFlags.void_pending_transfer) then
    add_credits_pending (- t_amount t)
  else add_credits_posted (t_amount t).

(** The pending transfer and its status as the loop body loads them. *)
Definition pending_lookup (db : Store) (t : Transfer)
    : option Transfer * option TransferPendingStatus.t :=
  if is_post_or_void t then
    match lookupTransfer db (t_pending_id t) with
    | Some p => (Some p, lookupPendingStatus db (t_pending_id t))
    | None => (None, None)
    end
  else (None, None).

(** The part of the loop body that follows the resolution of the amount,
    for a transfer whose two accounts [d] and [c] were found. *)
Definition process_resolved (now : Z) (i : nat) (st : Loop CreateTransfersError)
    (t : Transfer) (d c : Account) : Loop CreateTransfersError :=
  let '(p, s) := pending_lookup (l_db st) t in
  let e := validateTransferAccounts t (Some d) (Some c) p (or_undefined s) in
  if negb (transfer_ok e) then push (mkTransfersError i e) st
  else
    let amount := if is_pending t then 0 else t_amount t in
    match wouldOverflowAccount d amount 0 with
    | Some e => push (mkTransfersError i e) st
    | None =>
      match wouldOverflowAccount c 0 amount with
      | Some e => push (mkTransfersError i e) st
      | None =>
        let ts := next_timestamp now (l_lastTimestamp st) in
        let t' := set_transfer_timestamp ts t in
        mkLoop (updateAccountBalances t' (insert_transfer t' (l_db st))) (l_errors st) ts
      end
    end.

(** The capacity a balancing debit is clamped to. *)
Definition debit_capacity (d : Account) : Z :=
  if truthy (js_and (a_flags d) AccountFlags.debits_must_not_exceed_credits)
  then Z.max 0 (a_credits_posted d - a_debits_posted d)
  else 2 ^ 63 - 1.

(** The capacity a balancing credit is clamped to. *)
Definition credit_capacity (c : Account) : Z :=
  if truthy (js_and (a_flags c) AccountFlags.credits_must_not_exceed_debits)
  then Z.max 0 (a_debits_posted c - a_credits_posted c)
  else 2 ^ 63 - 1.

(** *** Definitions for the properties of the stores and of the generator *)

(** The row under which the loop of [createTransfers] stores a transfer it
    accepts: the amount is the resolved one and the timestamp is assigned. *)
Definition accepted_row (now : Z) (st : Loop CreateTransfersError) (t : Transfer)
    (d c : Account) : Transfer :=
  set_transfer_timestamp (next_timestamp now (l_lastTimestamp st))
    (set_amount (calculateBalancingAmount t d c) t).

(** Where the result of a rejected transfer comes from, in the order in
    which the loop of [createTransfers] reaches the checks. *)
Definition rejection (st : Loop CreateTransfersError) (t : Transfer)
    (e : CreateTransferError.t) : Prop :=
  let db := l_db st in
  e = validateTransfer t \/
  (validateTransfer t = CreateTransferError.ok /\
   ((exists x, lookupTransfer db (t_id t) = Some x /\ e = validateTransferExists x t) \/
    (lookupTransfer db (t_id t) = None /\
     match lookupAccount db (t_debit_account_id t),
           lookupAccount db (t_credit_account_id t) with
     | None, _ => e = CreateTransferError.debit_account_not_found
     | Some _, None => e = CreateTransferError.credit_account_not_found
     | Some d, Some c =>
       let amount := calculateBalancingAmount t d c in
       let checked := if is_pending t then 0 else amount in
       amount <> 0 /\
       (e = validateTransferAccounts (set_amount amount t) (Some d) (Some c)
              (fst (pending_lookup db t)) (or_undefined (snd (pending_lookup db t))) \/
        wouldOverflowAccount d checked 0 = Some e \/
        wouldOverflowAccount c 0 checked = Some e)
     end))).

(** Two rows of [accounts] that differ in the four running totals only. *)
Definition same_account_identity (a a' : Account) : Prop :=
  a_id a' = a_id a /\ a_user_data_128 a' = a_user_data_128 a /\
  a_user_data_64 a' = a_user_data_64 a /\ a_user_data_32 a' = a_user_data_32 a /\
  a_reserved a' = a_reserved a /\ a_ledger a' = a_ledger a /\ a_code a' = a_code a /\
  a_flags a' = a_flags a /\ a_timestamp a' = a_timestamp a.

(** The limits an account's flags put on its posted totals. *)
Definition balance_limits_hold (a : Account) : Prop :=
  (truthy (js_and (a_flags a) AccountFlags.debits_must_not_exceed_credits) = true ->
   a_debits_posted a <= a_credits_posted a) /\
  (truthy (js_and (a_flags a) AccountFlags.credits_must_not_exceed_debits) = true ->
   a_credits_posted a <= a_debits_posted a).

(** The sum of one column over all rows of [accounts]. *)
Definition total (column : Account -> Z) (db : Store) : Z :=
  map_fold (fun _ a sum => column a + sum) 0 (accounts db).

(** The same account before and after, or no account in both. *)
Definition account_kept (o o' : option Account) : Prop :=
  match o, o' with
  | Some a, Some a' => same_account_identity a a'
  | None, None => True
  | _, _ => False
  end.

(** The rows added since [orig] carry distinct timestamps, all of them
    positive and none beyond the last timestamp. *)
Definition fresh_timestamps (orig : Store) (st : Loop CreateTransfersError) : Prop :=
  0 <= l_lastTimestamp st /\
  (forall id x, lookupTransfer orig id = None -> lookupTransfer (l_db st) id = Some x ->
     0 < t_timestamp x <= l_lastTimestamp st) /\
  (forall id1 id2 x1 x2, id1 <> id2 ->
     lookupTransfer orig id1 = None -> lookupTransfer orig id2 = None ->
     lookupTransfer (l_db st) id1 = Some x1 -> lookupTransfer (l_db st) id2 = Some x2 ->
     t_timestamp x1 <> t_timestamp x2).

(** A row added since [orig]: what it is and which accounts it refers to. *)
Definition stored_row_ok (P : Transfer -> Prop) (db : Store) (id : Z) (x : Transfer) : Prop :=
  (exists t, P t /\ validateTransfer t = CreateTransferError.ok /\ t_id t = id /\
     x = set_transfer_timestamp (t_timestamp x) (set_amount (t_amount x) t) /\
     t_amount x <> 0 /\ t_amount x <= t_amount t /\
     (is_balancing t = false -> t_amount x = t_amount t)) /\
  exists d c,
    lookupAccount db (t_debit_account_id x) = Some d /\
    lookupAccount db (t_credit_account_id x) = Some c /\
    a_ledger d = t_ledger x /\ a_ledger c = t_ledger x /\
    truthy (js_and (a_flags d) AccountFlags.closed) = false /\
    truthy (js_and (a_flags c) AccountFlags.closed) = false.

(** What one pass keeps once the transfer [P] of the store is no longer
    pending. *)
Definition resolved_for_good (orig : Store) (P : Z) (db : Store) : Prop :=
  is_Some (lookupTransfer db P) /\
  lookupPendingStatus db P = lookupPendingStatus orig P /\
  forall id x, lookupTransfer orig id = None -> lookupTransfer db id = Some x ->
    is_post_or_void x = true -> t_pending_id x <> P.

(** The snapshot [recordAccountBalance] writes for the row [a]. *)
Definition snapshot (accountId timestamp : Z) (a : Account) : AccountBalance :=
  mkAccountBalance accountId (a_debits_pending a) (a_debits_posted a)
    (a_credits_pending a) (a_credits_posted a) timestamp.

(** The two results that report a limit on an account. *)
Definition limit_error (e : CreateTransferError.t) : bool :=
  match e with
  | CreateTransferError.exceeds_credits | CreateTransferError.exceeds_debits => true
  | _ => false
  end.

(** The accounts added since [orig] carry distinct timestamps, none beyond
    the last timestamp. *)
Definition fresh_account_timestamps (orig : Store) (st : Loop CreateAccountsError) : Prop :=
  0 <= l_lastTimestamp st /\
  (forall id x, lookupAccount orig id = None -> lookupAccount (l_db st) id = Some x ->
     0 < a_timestamp x <= l_lastTimestamp st) /\
  (forall id1 id2 x1 x2, id1 <> id2 ->
     lookupAccount orig id1 = None -> lookupAccount orig id2 = None ->
     lookupAccount (l_db st) id1 = Some x1 -> lookupAccount (l_db st) id2 = Some x2 ->
     a_timestamp x1 <> a_timestamp x2).

(** The 80-bit counter held in bytes 0 to 9 of the buffer of the
    generator. *)
Definition id_counter (st : IdState) : Z := getUint 10 (idArray st) 0.

(** *** Definitions for the properties of the linked flag *)

(** The transfer [t] with its flags replaced. *)
Definition set_flags (flags : Z) (t : Transfer) : Transfer :=
  mkTransfer (t_id t) (t_debit_account_id t) (t_credit_account_id t) (t_amount t)
    (t_pending_id t) (t_user_data_128 t) (t_user_data_64 t) (t_user_data_32 t) (t_timeout t)
    (t_ledger t) (t_code t) flags (t_timestamp t).

(** Two flag words that differ at most in the [linked] bit. *)
Definition same_but_linked (flags flags' : Z) : Prop :=
  Z.lor flags TransferFlags.linked = Z.lor flags' TransferFlags.linked.

(** Two outcomes of a pass that differ at most in the flags stored with
    the transfer [id], which are [flags'] in the second. *)
Definition same_but_stored_flags (flags' id : Z) (s s' : Loop CreateTransfersError) : Prop :=
  l_errors s' = l_errors s /\
  l_lastTimestamp s' = l_lastTimestamp s /\
  accounts (l_db s') = accounts (l_db s) /\
  pending_transfers (l_db s') = pending_transfers (l_db s) /\
  account_balances (l_db s') = account_balances (l_db s) /\
  transfers (l_db s') = alter (set_flags flags') id (transfers (l_db s)).

(** The checks a pass of the loop of [createTransfers] makes on a transfer
    before it stores it, all passed, with [d] and [c] the two accounts. *)
Definition passes_own_checks (st : Loop CreateTransfersError) (t : Transfer)
    (d c : Account) : Prop :=
  let db := l_db st in
  let amount := calculateBalancingAmount t d c in
  let checked := if is_pending t then 0 else amount in
  validateTransfer t = CreateTransferError.ok /\
  lookupTransfer db (t_id t) = None /\
  lookupAccount db (t_debit_account_id t) = Some d /\
  lookupAccount db (t_credit_account_id t) = Some c /\
  amount <> 0 /\
  validateTransferAccounts (set_amount amount t) (Some d) (Some c)
    (fst (pending_lookup db t)) (or_undefined (snd (pending_lookup db t)))
  = CreateTransferError.ok /\
  wouldOverflowAccount d checked 0 = None /\
  wouldOverflowAccount c 0 checked = None.

(** ** Properties *)

(** *** Field validation *)

Ltac destruct_cond c :=
  lazymatch c with
  | negb ?x => destruct_cond x
  | andb ?x _ => destruct_cond x
  | _ => destruct c eqn:?
  end.

(** Case analysis on every condition met along an [if] cascade. *)
Ltac case_ifs :=
  repeat (match goal with
          | |- context [if ?c then _ else _] => destruct_cond c
          end; cbn [negb andb] in *).

Lemma validateAccount_rule_order (a : Account) :
  validateAccount a = first_violated account_rule_order CreateAccountError.ok a.
Proof.
  cbv [validateAccount first_violated account_rule_order find fst snd
       account_valid_flags_mask].
  case_ifs; reflexivity.
Qed.

Lemma validateTransfer_rule_order (t : Transfer) :
  validateTransfer t = first_violated transfer_rule_order CreateTransferError.ok t.
Proof.
  cbv [validateTransfer first_violated transfer_rule_order find fst snd
       transfer_valid_flags_mask is_pending is_post_or_void pending_flags_set].
  case_ifs; try reflexivity; congruence.
Qed.

Lemma validateTransfer_unused (t : Transfer) : unused_error (validateTransfer t) = false.
Proof. unfold validateTransfer. case_ifs; reflexivity. Qed.

Lemma validateTransferExists_unused (e n : Transfer) :
  unused_error (validateTransferExists e n) = false.
Proof. unfold validateTransferExists. case_ifs; reflexivity. Qed.

Lemma validateTransferAccounts_unused t d c p s :
  unused_error (validateTransferAccounts t d c p s) = false.
Proof.
  unfold validateTransferAccounts.
  destruct d as [d|]; [|reflexivity]. destruct c as [c|]; [|reflexivity].
  destruct p as [p|]; destruct s as [[]|]; case_ifs; reflexivity.
Qed.

Lemma wouldOverflowAccount_unused a x y e :
  wouldOverflowAccount a x y = Some e -> unused_error e = false.
Proof.
  unfold wouldOverflowAccount. case_ifs; intros H; inversion H; reflexivity.
Qed.

(** Once [validateTransferAccounts] answers [ok] both accounts are there:
    the loop body never dereferences a missing account. *)
Lemma validateTransferAccounts_ok_accounts t d c p s :
  validateTransferAccounts t d c p s = CreateTransferError.ok ->
  is_Some d /\ is_Some c.
Proof.
  unfold validateTransferAccounts.
  destruct d as [d|]; [|discriminate]. destruct c as [c|]; [|discriminate].
  intros _. split; eexists; reflexivity.
Qed.

Lemma transfer_ok_true e : transfer_ok e = true <-> e = CreateTransferError.ok.
Proof. destruct e; simpl; split; intros H; try reflexivity; discriminate. Qed.

Lemma account_ok_true e : account_ok e = true <-> e = CreateAccountError.ok.
Proof. destruct e; simpl; split; intros H; try reflexivity; discriminate. Qed.

(** *** The batch loops *)

Lemma batch_loop_app {A E : Type} (step : Z -> nat -> Loop E -> A -> Loop E) clock
    (l1 l2 : list A) : forall i st,
  batch_loop step clock i (l1 ++ l2) st
  = batch_loop step clock (i + length l1)%nat l2 (batch_loop step clock i l1 st).
Proof.
  induction l1 as [|x l1 IH]; intros i st; simpl.
  - f_equal. lia.
  - rewrite IH. f_equal. lia.
Qed.

(** What a step of [createTransfers] can do to the list of errors: leave
    it, or append one entry for the index at hand. *)
Lemma createTransfers_step_errors now i st t :
  l_errors (createTransfers_step now i st t) = l_errors st \/
  exists e, l_errors (createTransfers_step now i st t) = l_errors st ++ [mkTransfersError i e]
            /\ unused_error e = false.
Proof.
  unfold createTransfers_step.
  destruct (transfer_ok (validateTransfer t)) eqn:Hv; cbn [negb].
  2:{ right. eexists. split; [reflexivity | apply validateTransfer_unused]. }
  destruct (lookupTransfer (l_db st) (t_id t)) as [ex|] eqn:Hex.
  { right. eexists. split; [reflexivity | apply validateTransferExists_unused]. }
  match goal with |- context [let '(_, _) := ?x in _] => destruct x as [p s] end.
  match goal with |- context [match ?x with Some _ => _ | None => st end] =>
    destruct x as [t'|] end; [|left; reflexivity].
  destruct (transfer_ok (validateTransferAccounts _ _ _ _ _)) eqn:Hva; cbn [negb].
  2:{ right. eexists. split; [reflexivity | apply validateTransferAccounts_unused]. }
  destruct (lookupAccount (l_db st) (t_debit_account_id t)) as [d|]; [|left; reflexivity].
  destruct (lookupAccount (l_db st) (t_credit_account_id t)) as [c|]; [|left; reflexivity].
  destruct (wouldOverflowAccount d _ 0) as [e1|] eqn:H1.
  { right. eexists. split; [reflexivity | eapply wouldOverflowAccount_unused; eassumption]. }
  destruct (wouldOverflowAccount c 0 _) as [e2|] eqn:H2.
  { right. eexists. split; [reflexivity | eapply wouldOverflowAccount_unused; eassumption]. }
  left. reflexivity.
Qed.

Lemma createTransfers_loop_errors clock (batch : list Transfer) : forall i st,
  exists suffix,
    l_errors (batch_loop createTransfers_step clock i batch st) = l_errors st ++ suffix
    /\ Forall (fun e => (i <= te_index e)%nat /\ unused_error (te_result e) = false) suffix.
Proof.
  induction batch as [|t batch IH]; intros i st; simpl.
  - exists []. split; [symmetry; apply app_nil_r | constructor].
  - destruct (IH (S i) (createTransfers_step (clock i) i st t)) as (suf & Heq & Hall).
    assert (Hall' : Forall (fun e => (i <= te_index e)%nat
                                     /\ unused_error (te_result e) = false) suf).
    { eapply Forall_impl; [exact Hall|]. simpl. intros e [? ?]. split; [lia|assumption]. }
    destruct (createTransfers_step_errors (clock i) i st t) as [H | (e & H & Hu)].
    + exists suf. rewrite Heq, H. split; [reflexivity | exact Hall'].
    + exists (mkTransfersError i e :: suf). rewrite Heq, H, <- app_assoc. simpl.
      split; [reflexivity|]. constructor; [simpl; split; [lia | exact Hu] | exact Hall'].
Qed.

(** The entry a rejected element gets is part of the result of the batch,
    whatever follows it. *)
Lemma createTransfers_reports clock db (pre post : list Transfer) t e :
  let st := transfers_state_after clock db pre in
  createTransfers_step (clock (length pre)) (length pre) st t
    = push (mkTransfersError (length pre) e) st ->
  In (mkTransfersError (length pre) e) (snd (createTransfers clock db (pre ++ t :: post))).
Proof.
  intros st Hstep. unfold createTransfers. cbn [snd].
  rewrite batch_loop_app. cbn [batch_loop Nat.add].
  fold (transfers_state_after clock db pre). fold st. rewrite Hstep.
  destruct (createTransfers_loop_errors clock post (S (length pre))
              (push (mkTransfersError (length pre) e) st)) as (suf & Heq & _).
  rewrite Heq. unfold push; cbn [l_errors].
  apply in_or_app. left. apply in_or_app. right. left. reflexivity.
Qed.

(** Comparisons decided by the code, as propositions for [lia]. *)
Ltac bools_to_props :=
  rewrite ?Z.geb_leb, ?Z.gtb_ltb in *;
  repeat match goal with
         | H : (_ =? _) = true |- _ => apply Z.eqb_eq in H
         | H : (_ =? _) = false |- _ => apply Z.eqb_neq in H
         | H : (_ <=? _) = true |- _ => apply Z.leb_le in H
         | H : (_ <=? _) = false |- _ => apply Z.leb_gt in H
         | H : (_ <? _) = true |- _ => apply Z.ltb_lt in H
         | H : (_ <? _) = false |- _ => apply Z.ltb_ge in H
         end.

Lemma createTransfers_step_invalid now i st t :
  validateTransfer t <> CreateTransferError.ok ->
  createTransfers_step now i st t = push (mkTransfersError i (validateTransfer t)) st.
Proof.
  intros H. unfold createTransfers_step.
  destruct (transfer_ok (validateTransfer t)) eqn:Hv; [|reflexivity].
  apply transfer_ok_true in Hv. contradiction.
Qed.

Lemma createTransfers_step_exists now i st t existing :
  validateTransfer t = CreateTransferError.ok ->
  lookupTransfer (l_db st) (t_id t) = Some existing ->
  createTransfers_step now i st t
  = push (mkTransfersError i (validateTransferExists existing t)) st.
Proof.
  intros Hv Hex. unfold createTransfers_step. rewrite Hv, Hex. reflexivity.
Qed.

Lemma createAccounts_step_exists now i st a existing :
  validateAccount a = CreateAccountError.ok ->
  lookupAccount (l_db st) (a_id a) = Some existing ->
  createAccounts_step now i st a
  = push (mkAccountsError i (validateAccountExists existing a)) st.
Proof.
  intros Hv Hex. unfold createAccounts_step. rewrite Hv, Hex. reflexivity.
Qed.

(** *** Zero amounts *)

Lemma validateTransfer_zero_amount (t : Transfer) :
  t_id t <> 0 -> t_id t < 2 ^ 128 - 1 -> t_timestamp t = 0 ->
  t_debit_account_id t <> 0 -> t_debit_account_id t < 2 ^ 128 - 1 ->
  t_credit_account_id t <> 0 -> t_credit_account_id t < 2 ^ 128 - 1 ->
  t_debit_account_id t <> t_credit_account_id t ->
  t_amount t = 0 ->
  validateTransfer t = CreateTransferError.exists_.
Proof.
  intros Hid Hidmax Hts Hd Hdmax Hc Hcmax Hdc Ham.
  unfold validateTransfer.
  rewrite (proj2 (Z.eqb_neq _ _) Hid), (proj2 (Z.eqb_neq _ _) Hd),
    (proj2 (Z.eqb_neq _ _) Hc), (proj2 (Z.eqb_neq _ _) Hdc),
    (proj2 (Z.eqb_eq _ _) Hts), (proj2 (Z.eqb_eq _ _) Ham).
  rewrite !Z.geb_leb.
  rewrite (proj2 (Z.leb_gt _ _) Hidmax), (proj2 (Z.leb_gt _ _) Hdmax),
    (proj2 (Z.leb_gt _ _) Hcmax).
  reflexivity.
Qed.

(** C9. A transfer of amount 0 that passes the checks on its id, its
    timestamp, its two account ids and their being different is rejected by
    [validateTransfer] with the generic [exists] result; [createTransfers]
    reports that result at the index of the transfer, wherever it stands in
    the batch, and leaves the loop variables otherwise as they were. *)
Theorem zero_amount_rejected_as_exists (t : Transfer) :
  t_id t <> 0 -> t_id t < 2 ^ 128 - 1 -> t_timestamp t = 0 ->
  t_debit_account_id t <> 0 -> t_debit_account_id t < 2 ^ 128 - 1 ->
  t_credit_account_id t <> 0 -> t_credit_account_id t < 2 ^ 128 - 1 ->
  t_debit_account_id t <> t_credit_account_id t ->
  t_amount t = 0 ->
  validateTransfer t = CreateTransferError.exists_ /\
  forall clock db (pre post : list Transfer),
    let st := transfers_state_after clock db pre in
    let entry := mkTransfersError (length pre) CreateTransferError.exists_ in
    createTransfers_step (clock (length pre)) (length pre) st t = push entry st
    /\ In entry (snd (createTransfers clock db (pre ++ t :: post))).
Proof.
  intros Hid Hidmax Hts Hd Hdmax Hc Hcmax Hdc Ham.
  pose proof (validateTransfer_zero_amount t Hid Hidmax Hts Hd Hdmax Hc Hcmax Hdc Ham) as Hv.
  split; [exact Hv|].
  intros clock db pre post st entry.
  assert (Hstep : createTransfers_step (clock (length pre)) (length pre) st t = push entry st).
  { rewrite createTransfers_step_invalid; rewrite Hv; [reflexivity | discriminate]. }
  split; [exact Hstep|].
  apply createTransfers_reports. exact Hstep.
Qed.

Lemma zero_amount_rejected_as_exists_witness :
  let t := mkTransfer 7 1 2 0 0 0 0 0 0 1 1 0 0 in
  validateTransfer t = CreateTransferError.exists_ /\
  snd (createTransfers (fun _ => 5) empty_store [t])
  = [mkTransfersError 0 CreateTransferError.exists_].
Proof.
  intros t.
  pose proof (zero_amount_rejected_as_exists t) as H.
  split.
  - apply H; vm_compute; first [reflexivity | discriminate].
  - vm_compute. reflexivity.
Defined.

(** *** Priority of the validation rules *)

(** C5, as stated, fails for transfers: with equal debit and credit
    accounts and ledger 0, the relational rule is the one reported. *)
Lemma validation_priority_counterexample :
  let t := mkTransfer 1 5 5 10 0 0 0 0 0 0 1 0 0 in
  t_debit_account_id t = t_credit_account_id t /\ t_ledger t = 0 /\
  validateTransfer t = CreateTransferError.accounts_must_be_different /\
  validateTransfer t <> CreateTransferError.ledger_must_not_be_zero.
Proof. vm_compute. repeat split; discriminate. Qed.

Lemma validateTransfer_same_accounts (t : Transfer) :
  t_debit_account_id t = t_credit_account_id t ->
  In (validateTransfer t)
     [ CreateTransferError.id_must_not_be_zero;
       CreateTransferError.id_must_not_be_int_max;
       CreateTransferError.timestamp_must_be_zero;
       CreateTransferError.debit_account_id_must_not_be_zero;
       CreateTransferError.debit_account_id_must_not_be_int_max;
       CreateTransferError.accounts_must_be_different ].
Proof.
  intros Hdc. unfold validateTransfer. rewrite <- Hdc.
  destruct (t_id t =? 0); [simpl; tauto|].
  destruct (t_id t >=? 2 ^ 128 - 1); [simpl; tauto|].
  destruct (t_timestamp t =? 0); cbn [negb]; [|simpl; tauto].
  destruct (t_debit_account_id t =? 0); [simpl; tauto|].
  destruct (t_debit_account_id t >=? 2 ^ 128 - 1); [simpl; tauto|].
  rewrite Z.eqb_refl. simpl; tauto.
Qed.

(** C5 (amended). [validateAccount] returns the first violated rule in the
    order id zero, id reserved-max, timestamp, reserved field, ledger zero,
    code zero, the four balance fields, flag validity, flag exclusion.
    [validateTransfer] returns the first violated rule in the order id zero,
    id reserved-max, timestamp, debit account id (zero, reserved-max), credit
    account id (zero, reserved-max), accounts must be different, amount
    (zero, above the maximum), ledger zero, code zero, flag validity, flag
    exclusion, pending id, timeout. So an account with id 0 and ledger 0 gets
    [id_must_not_be_zero], and a transfer whose debit and credit account are
    the same and whose ledger is 0 never gets the ledger-zero rule: it gets
    [accounts_must_be_different] once its id, timestamp and debit account id
    are in order. *)
Theorem validation_priority_order :
  (forall a : Account,
     validateAccount a = first_violated account_rule_order CreateAccountError.ok a) /\
  (forall t : Transfer,
     validateTransfer t = first_violated transfer_rule_order CreateTransferError.ok t) /\
  (forall a : Account,
     a_id a = 0 -> a_ledger a = 0 ->
     validateAccount a = CreateAccountError.id_must_not_be_zero) /\
  (forall t : Transfer,
     t_debit_account_id t = t_credit_account_id t -> t_ledger t = 0 ->
     validateTransfer t <> CreateTransferError.ledger_must_not_be_zero /\
     (t_id t <> 0 -> t_id t < 2 ^ 128 - 1 -> t_timestamp t = 0 ->
      t_debit_account_id t <> 0 -> t_debit_account_id t < 2 ^ 128 - 1 ->
      validateTransfer t = CreateTransferError.accounts_must_be_different)).
Proof.
  split; [exact validateAccount_rule_order|].
  split; [exact validateTransfer_rule_order|].
  split.
  - intros a Hid _. unfold validateAccount. rewrite Hid. reflexivity.
  - intros t Hdc _. split.
    + pose proof (validateTransfer_same_accounts t Hdc) as Hin. simpl in Hin.
      intros Heq. rewrite Heq in Hin.
      repeat (destruct Hin as [Hin|Hin]; [discriminate|]). exact Hin.
    + intros Hid Hidmax Hts Hd Hdmax. unfold validateTransfer. rewrite <- Hdc.
      rewrite (proj2 (Z.eqb_neq _ _) Hid), (proj2 (Z.eqb_neq _ _) Hd),
        (proj2 (Z.eqb_eq _ _) Hts), !Z.geb_leb,
        (proj2 (Z.leb_gt _ _) Hidmax), (proj2 (Z.leb_gt _ _) Hdmax), Z.eqb_refl.
      reflexivity.
Qed.

Lemma validation_priority_order_witness :
  validateAccount (mkAccount 0 0 0 0 0 0 0 0 0 0 1 0 0)
  = CreateAccountError.id_must_not_be_zero /\
  validateTransfer (mkTransfer 1 5 5 10 0 0 0 0 0 0 1 0 0)
  = CreateTransferError.accounts_must_be_different.
Proof.
  destruct validation_priority_order as (_ & _ & Ha & Ht).
  split.
  - apply Ha; reflexivity.
  - apply Ht; vm_compute; first [reflexivity | discriminate].
Defined.

(** *** Existence reconciliation *)

(** C6, as stated, fails for transfers: when the stored and the new
    transfer differ both in [user_data_128] and in [debit_account_id], the
    field order of the claim yields the former, the code the latter. *)
Lemma existence_order_counterexample :
  let existing := mkTransfer 1 2 3 10 0 7 0 0 0 1 1 0 0 in
  let new := mkTransfer 1 4 3 10 0 8 0 0 0 1 1 0 0 in
  first_difference spec_transfer_field_order CreateTransferError.exists_ existing new
  = CreateTransferError.exists_with_different_user_data_128 /\
  validateTransferExists existing new
  = CreateTransferError.exists_with_different_debit_account_id /\
  validateTransferExists existing new
  <> first_difference spec_transfer_field_order CreateTransferError.exists_ existing new.
Proof. vm_compute. repeat split; discriminate. Qed.

Lemma validateAccountExists_field_order (existing new : Account) :
  validateAccountExists existing new
  = first_difference account_field_order CreateAccountError.exists_ existing new.
Proof.
  cbv [validateAccountExists first_difference first_violated account_field_order
       map find fst snd].
  case_ifs; reflexivity.
Qed.

Lemma validateTransferExists_field_order (existing new : Transfer) :
  validateTransferExists existing new
  = first_difference transfer_field_order CreateTransferError.exists_ existing new.
Proof.
  cbv [validateTransferExists first_difference first_violated transfer_field_order
       map find fst snd].
  case_ifs; reflexivity.
Qed.

Lemma validateAccountExists_timestamp ts (a : Account) :
  validateAccountExists (set_account_timestamp ts a) a = CreateAccountError.exists_.
Proof.
  unfold validateAccountExists, set_account_timestamp. cbn.
  rewrite !Z.eqb_refl. reflexivity.
Qed.

(** C6 (amended). For a create request whose id denotes a stored record,
    accounts are compared in the order flags, user-data-128, user-data-64,
    user-data-32, ledger, code, and transfers in the order flags,
    debit_account_id, credit_account_id, amount, pending_id, user-data-128,
    user-data-64, user-data-32, timeout, ledger, code; the result is the
    [exists_with_different_<field>] of the first field that differs and the
    generic [exists] when none does. The loop then only appends that result at
    the index of the element: the store is left as it was. Creating the same
    valid account a second time yields [exists] and the same store. *)
Theorem existence_reconciliation :
  (forall existing new : Account,
     validateAccountExists existing new
     = first_difference account_field_order CreateAccountError.exists_ existing new) /\
  (forall existing new : Transfer,
     validateTransferExists existing new
     = first_difference transfer_field_order CreateTransferError.exists_ existing new) /\
  (forall now i st (a existing : Account),
     validateAccount a = CreateAccountError.ok ->
     lookupAccount (l_db st) (a_id a) = Some existing ->
     createAccounts_step now i st a
     = mkLoop (l_db st)
              (l_errors st ++ [mkAccountsError i (validateAccountExists existing a)])
              (l_lastTimestamp st)) /\
  (forall now i st (t existing : Transfer),
     validateTransfer t = CreateTransferError.ok ->
     lookupTransfer (l_db st) (t_id t) = Some existing ->
     createTransfers_step now i st t
     = mkLoop (l_db st)
              (l_errors st ++ [mkTransfersError i (validateTransferExists existing t)])
              (l_lastTimestamp st)) /\
  (forall clock clock' db (a : Account),
     validateAccount a = CreateAccountError.ok ->
     lookupAccount db (a_id a) = None ->
     let db' := fst (createAccounts clock db [a]) in
     snd (createAccounts clock db [a]) = [] /\
     createAccounts clock' db' [a] = (db', [mkAccountsError 0 CreateAccountError.exists_])).
Proof.
  split; [exact validateAccountExists_field_order|].
  split; [exact validateTransferExists_field_order|].
  split; [intros; apply createAccounts_step_exists; assumption|].
  split; [intros; apply createTransfers_step_exists; assumption|].
  intros clock clock' db a Hv Hnew db'.
  assert (Hfirst : createAccounts clock db [a]
                   = (mkStore (<[a_id a := set_account_timestamp
                                             (next_timestamp (clock 0%nat) 0) a]> (accounts db))
                              (transfers db) (pending_transfers db) (account_balances db),
                      [])).
  { unfold createAccounts. cbn [batch_loop]. unfold createAccounts_step.
    cbn [l_db l_errors l_lastTimestamp]. rewrite Hv, Hnew. reflexivity. }
  subst db'. rewrite Hfirst. cbn [fst snd]. split; [reflexivity|].
  unfold createAccounts. cbn [batch_loop]. unfold createAccounts_step.
  cbn [l_db l_errors l_lastTimestamp]. rewrite Hv.
  unfold lookupAccount. cbn [accounts]. rewrite !lookup_insert_eq.
  rewrite !validateAccountExists_timestamp.
  cbn [negb account_ok push l_db l_errors app]. reflexivity.
Qed.

Lemma existence_reconciliation_witness :
  let a := mkAccount 9 0 0 0 0 0 0 0 0 1 1 0 0 in
  let db' := fst (createAccounts (fun _ => 1) empty_store [a]) in
  createAccounts (fun _ => 2) db' [a]
  = (db', [mkAccountsError 0 CreateAccountError.exists_]).
Proof.
  intros a db'.
  destruct existence_reconciliation as (_ & _ & _ & _ & H).
  apply (H (fun _ => 1) (fun _ => 2) empty_store a); reflexivity.
Defined.

(** *** What a validated transfer satisfies *)

Lemma first_violated_ok {A E : Type} (rules : list ((A -> bool) * E)) (ok : E) (x : A) :
  Forall (fun rule => snd rule <> ok) rules ->
  first_violated rules ok x = ok ->
  Forall (fun rule => fst rule x = false) rules.
Proof.
  unfold first_violated. induction rules as [|r rules IH]; intros Hne Hok.
  - constructor.
  - inversion Hne as [|? ? Hr Hrest]; subst. cbn [find] in Hok.
    destruct (fst r x) eqn:Hfx.
    + contradiction.
    + constructor; [exact Hfx | apply IH; assumption].
Qed.

Lemma validateTransfer_ok_rules (t : Transfer) :
  validateTransfer t = CreateTransferError.ok ->
  Forall (fun rule => fst rule t = false) transfer_rule_order.
Proof.
  intros H. apply (first_violated_ok _ CreateTransferError.ok).
  - unfold transfer_rule_order. repeat constructor; discriminate.
  - rewrite <- validateTransfer_rule_order. exact H.
Qed.

Ltac split_rules H :=
  unfold transfer_rule_order in H;
  repeat match type of H with
         | Forall _ (_ :: _) =>
           let H1 := fresh "Hrule" in
           let H2 := fresh "Hrules" in
           inversion H as [|? ? H1 H2]; subst; clear H; rename H2 into H;
           cbn [fst] in H1
         end;
  clear H.

Lemma validateTransfer_ok_distinct (t : Transfer) :
  validateTransfer t = CreateTransferError.ok ->
  t_debit_account_id t <> t_credit_account_id t.
Proof.
  intros H. pose proof (validateTransfer_ok_rules t H) as HF. split_rules HF.
  bools_to_props. assumption.
Qed.

Lemma validateTransfer_ok_amount (t : Transfer) :
  validateTransfer t = CreateTransferError.ok ->
  t_amount t <> 0 /\ t_amount t <= amount_max.
Proof.
  intros H. pose proof (validateTransfer_ok_rules t H) as HF. split_rules HF.
  bools_to_props. split; assumption.
Qed.

(** Only the amount of a transfer decides the amount rules; a validated
    transfer stays valid when its amount is replaced by another admissible
    one. *)
Lemma validateTransfer_set_amount (t : Transfer) x :
  validateTransfer t = CreateTransferError.ok ->
  x <> 0 -> x <= amount_max ->
  validateTransfer (set_amount x t) = CreateTransferError.ok.
Proof.
  intros H Hx0 Hxmax. pose proof (validateTransfer_ok_rules t H) as HF. split_rules HF.
  rewrite validateTransfer_rule_order.
  cbv [first_violated transfer_rule_order find fst snd is_pending is_post_or_void
       pending_flags_set set_amount t_id t_timestamp t_debit_account_id
       t_credit_account_id t_amount t_ledger t_code t_flags t_pending_id t_timeout] in *.
  destruct t as [tid td tc ta tp u128 u64 u32 tt tl tcode tf tts].
  repeat match goal with H : _ = false |- _ => rewrite H; clear H end.
  rewrite (proj2 (Z.eqb_neq _ _) Hx0), Z.gtb_ltb, (proj2 (Z.ltb_ge _ _) Hxmax).
  reflexivity.
Qed.

(** *** Flag masks *)

Lemma truthy_lor a b : truthy (Z.lor a b) = truthy a || truthy b.
Proof.
  unfold truthy.
  destruct (a =? 0) eqn:Ha; destruct (b =? 0) eqn:Hb; bools_to_props; cbn [negb orb].
  - subst. reflexivity.
  - subst. rewrite Z.lor_0_l. apply negb_true_iff, Z.eqb_neq. assumption.
  - subst. rewrite Z.lor_0_r. apply negb_true_iff, Z.eqb_neq. assumption.
  - apply negb_true_iff, Z.eqb_neq. intros H. apply Z.lor_eq_0_iff in H. tauto.
Qed.

Lemma is_post_or_void_split (t : Transfer) :
  is_post_or_void t
  = truthy (js_and (t_flags t) TransferFlags.post_pending_transfer)
    || truthy (js_and (t_flags t) TransferFlags.void_pending_transfer).
Proof.
  unfold is_post_or_void, js_and.
  change (ToInt32 (js_or TransferFlags.post_pending_transfer
                         TransferFlags.void_pending_transfer))
    with (Z.lor (ToInt32 TransferFlags.post_pending_transfer)
                (ToInt32 TransferFlags.void_pending_transfer)).
  rewrite Z.land_lor_distr_r. apply truthy_lor.
Qed.

Lemma is_balancing_split (t : Transfer) :
  is_balancing t
  = truthy (js_and (t_flags t) TransferFlags.balancing_debit)
    || truthy (js_and (t_flags t) TransferFlags.balancing_credit).
Proof.
  unfold is_balancing, js_and.
  change (ToInt32 (js_or TransferFlags.balancing_debit TransferFlags.balancing_credit))
    with (Z.lor (ToInt32 TransferFlags.balancing_debit)
                (ToInt32 TransferFlags.balancing_credit)).
  rewrite Z.land_lor_distr_r. apply truthy_lor.
Qed.

Lemma land_low4 x m : Z.land 15 m = m -> Z.land x m = Z.land (x mod 16) m.
Proof.
  intros Hm. change 16 with (2 ^ 4). rewrite <- Z.land_ones by lia.
  change (Z.ones 4) with 15. rewrite <- Z.land_assoc, Hm. reflexivity.
Qed.

(** The three two-phase flags exclude one another in a validated transfer. *)
Lemma validateTransfer_ok_pending_exclusive (t : Transfer) :
  validateTransfer t = CreateTransferError.ok ->
  is_pending t = true -> is_post_or_void t = false.
Proof.
  intros H. pose proof (validateTransfer_ok_rules t H) as HF. split_rules HF.
  clear - Hrule12.
  unfold is_pending, is_post_or_void, pending_flags_set, js_and in *.
  set (x := ToInt32 (t_flags t)) in *.
  change (ToInt32 TransferFlags.pending) with 2.
  change (ToInt32 (js_or TransferFlags.post_pending_transfer
                         TransferFlags.void_pending_transfer)) with 12.
  change (ToInt32 (js_or (js_or TransferFlags.pending TransferFlags.post_pending_transfer)
                         TransferFlags.void_pending_transfer)) with 14 in Hrule12.
  rewrite (land_low4 x 2), (land_low4 x 12) by reflexivity.
  rewrite (land_low4 x 14) in Hrule12 by reflexivity.
  assert (Hv : 0 <= x mod 16 < 16) by (apply Z.mod_pos_bound; lia).
  set (v := x mod 16) in *. clearbody v. clear x.
  assert (Hcases : v = 0 \/ v = 1 \/ v = 2 \/ v = 3 \/ v = 4 \/ v = 5 \/ v = 6 \/ v = 7 \/
                   v = 8 \/ v = 9 \/ v = 10 \/ v = 11 \/ v = 12 \/ v = 13 \/ v = 14 \/ v = 15)
    by lia.
  repeat (destruct Hcases as [Hc|Hcases]; [subst v; revert Hrule12; vm_compute; congruence|]).
  subst v; revert Hrule12; vm_compute; congruence.
Qed.

(** *** Effect of an accepted transfer on the accounts *)

Lemma recordAccountBalance_accounts id ts db :
  accounts (recordAccountBalance id ts db) = accounts db.
Proof. unfold recordAccountBalance. destruct (lookupAccount db id); reflexivity. Qed.

Lemma recordAccountBalance_transfers id ts db :
  transfers (recordAccountBalance id ts db) = transfers db.
Proof. unfold recordAccountBalance. destruct (lookupAccount db id); reflexivity. Qed.

Lemma updateAccountBalances_accounts t db :
  accounts (updateAccountBalances t db)
  = alter (credit_update t) (t_credit_account_id t)
      (alter (debit_update t) (t_debit_account_id t) (accounts db)).
Proof.
  unfold updateAccountBalances, debit_update, credit_update. cbv zeta.
  repeat match goal with
         | |- context [if has_history ?a then _ else _] => destruct (has_history a)
         end;
    rewrite ?recordAccountBalance_accounts;
    case_ifs; reflexivity.
Qed.

Lemma updateAccountBalances_transfers t db :
  transfers (updateAccountBalances t db) = transfers db.
Proof.
  unfold updateAccountBalances. cbv zeta.
  repeat match goal with
         | |- context [if has_history ?a then _ else _] => destruct (has_history a)
         end;
    rewrite ?recordAccountBalance_transfers;
    case_ifs; reflexivity.
Qed.

Lemma insert_transfer_accounts t db : accounts (insert_transfer t db) = accounts db.
Proof. reflexivity. Qed.

Lemma insert_transfer_transfers t db :
  transfers (insert_transfer t db) = <[t_id t := t]> (transfers db).
Proof. reflexivity. Qed.

(** The rows of the two accounts once a transfer is applied. *)
Lemma applied_debit_account t db d :
  t_debit_account_id t <> t_credit_account_id t ->
  lookupAccount db (t_debit_account_id t) = Some d ->
  lookupAccount (updateAccountBalances t (insert_transfer t db)) (t_debit_account_id t)
  = Some (debit_update t d).
Proof.
  intros Hne Hd. unfold lookupAccount in *.
  rewrite updateAccountBalances_accounts, insert_transfer_accounts.
  rewrite lookup_alter_ne by congruence. rewrite lookup_alter_eq, Hd. reflexivity.
Qed.

Lemma applied_credit_account t db c :
  lookupAccount db (t_credit_account_id t) = Some c ->
  lookupAccount (updateAccountBalances t (insert_transfer t db)) (t_credit_account_id t)
  = Some (credit_update t (if decide (t_debit_account_id t = t_credit_account_id t)
                           then debit_update t c else c)).
Proof.
  intros Hc. unfold lookupAccount in *.
  rewrite updateAccountBalances_accounts, insert_transfer_accounts.
  rewrite lookup_alter_eq.
  destruct (decide (t_debit_account_id t = t_credit_account_id t)) as [Heq|Hne].
  - rewrite Heq, lookup_alter_eq, Hc. reflexivity.
  - rewrite lookup_alter_ne by congruence. rewrite Hc. reflexivity.
Qed.

(** *** The loop body once the amount is resolved *)

Lemma set_amount_same (t : Transfer) : set_amount (t_amount t) t = t.
Proof. destruct t; reflexivity. Qed.

Lemma calculateBalancingAmount_not_balancing t d c :
  is_balancing t = false -> calculateBalancingAmount t d c = t_amount t.
Proof.
  rewrite is_balancing_split. intros H. apply orb_false_iff in H as [H1 H2].
  unfold calculateBalancingAmount. rewrite H1, H2. reflexivity.
Qed.

(** A new, validated transfer whose accounts exist and whose amount the
    balancing step leaves as it is goes through [process_resolved]. *)
Lemma createTransfers_step_resolved now i st t d c :
  validateTransfer t = CreateTransferError.ok ->
  lookupTransfer (l_db st) (t_id t) = None ->
  lookupAccount (l_db st) (t_debit_account_id t) = Some d ->
  lookupAccount (l_db st) (t_credit_account_id t) = Some c ->
  calculateBalancingAmount t d c = t_amount t ->
  createTransfers_step now i st t = process_resolved now i st t d c.
Proof.
  intros Hv Hnew Hd Hc Hcl.
  pose proof (validateTransfer_ok_amount t Hv) as [Hnz _].
  unfold createTransfers_step, process_resolved, pending_lookup, is_post_or_void, is_pending.
  rewrite Hv, Hnew, Hd, Hc. cbn [negb transfer_ok]. rewrite Hcl.
  rewrite (proj2 (Z.eqb_neq _ _) Hnz), set_amount_same.
  match goal with
  | |- context [if truthy ?b then Some t else Some t] =>
    replace (if truthy b then Some t else Some t) with (Some t) by (destruct (truthy b); reflexivity)
  end.
  reflexivity.
Qed.

(** *** Balancing transfers *)

Lemma getMaxDebitAmount_capacity d : getMaxDebitAmount d = debit_capacity d.
Proof.
  unfold getMaxDebitAmount, debit_capacity. case_ifs; bools_to_props; lia.
Qed.

Lemma getMaxCreditAmount_capacity c : getMaxCreditAmount c = credit_capacity c.
Proof.
  unfold getMaxCreditAmount, credit_capacity. case_ifs; bools_to_props; lia.
Qed.

Lemma calculateBalancingAmount_debit t d c :
  truthy (js_and (t_flags t) TransferFlags.balancing_debit) = true ->
  calculateBalancingAmount t d c = Z.min (t_amount t) (debit_capacity d).
Proof.
  intros H. unfold calculateBalancingAmount. rewrite H, getMaxDebitAmount_capacity.
  case_ifs; bools_to_props; lia.
Qed.

Lemma calculateBalancingAmount_credit t d c :
  truthy (js_and (t_flags t) TransferFlags.balancing_debit) = false ->
  truthy (js_and (t_flags t) TransferFlags.balancing_credit) = true ->
  calculateBalancingAmount t d c = Z.min (t_amount t) (credit_capacity c).
Proof.
  intros H1 H2. unfold calculateBalancingAmount. rewrite H1, H2, getMaxCreditAmount_capacity.
  case_ifs; bools_to_props; lia.
Qed.

Lemma calculateBalancingAmount_le t d c : calculateBalancingAmount t d c <= t_amount t.
Proof.
  unfold calculateBalancingAmount. case_ifs; bools_to_props; lia.
Qed.

(** Resolving an amount that is already resolved changes nothing. *)
Lemma calculateBalancingAmount_idempotent t d c :
  calculateBalancingAmount (set_amount (calculateBalancingAmount t d c) t) d c
  = calculateBalancingAmount t d c.
Proof.
  unfold calculateBalancingAmount, set_amount. cbn [t_flags t_amount].
  case_ifs; bools_to_props; lia.
Qed.

Lemma createTransfers_step_balancing_zero now i st t d c :
  validateTransfer t = CreateTransferError.ok ->
  lookupTransfer (l_db st) (t_id t) = None ->
  lookupAccount (l_db st) (t_debit_account_id t) = Some d ->
  lookupAccount (l_db st) (t_credit_account_id t) = Some c ->
  is_balancing t = true ->
  calculateBalancingAmount t d c = 0 ->
  createTransfers_step now i st t = st.
Proof.
  intros Hv Hnew Hd Hc Hb Hz. unfold is_balancing in Hb.
  unfold createTransfers_step.
  rewrite Hv, Hnew, Hd, Hc, Hb, Hz. cbn [negb transfer_ok Z.eqb].
  match goal with |- context [let '(_, _) := ?x in _] => destruct x end.
  reflexivity.
Qed.

Lemma createTransfers_step_balancing now i st t d c :
  validateTransfer t = CreateTransferError.ok ->
  lookupTransfer (l_db st) (t_id t) = None ->
  lookupAccount (l_db st) (t_debit_account_id t) = Some d ->
  lookupAccount (l_db st) (t_credit_account_id t) = Some c ->
  calculateBalancingAmount t d c <> 0 ->
  createTransfers_step now i st t
  = process_resolved now i st (set_amount (calculateBalancingAmount t d c) t) d c.
Proof.
  intros Hv Hnew Hd Hc Hnz.
  unfold createTransfers_step, process_resolved, pending_lookup, is_post_or_void, is_pending.
  rewrite Hv, Hnew, Hd, Hc. cbn [negb transfer_ok].
  change (t_flags (set_amount (calculateBalancingAmount t d c) t)) with (t_flags t).
  change (t_pending_id (set_amount (calculateBalancingAmount t d c) t)) with (t_pending_id t).
  destruct (truthy (js_and (t_flags t)
              (js_or TransferFlags.balancing_debit TransferFlags.balancing_credit))) eqn:Hb.
  - rewrite (proj2 (Z.eqb_neq _ _) Hnz). reflexivity.
  - rewrite (calculateBalancingAmount_not_balancing t d c Hb), set_amount_same. reflexivity.
Qed.

(** C1, as stated, fails on an account without a balance constraint: the
    amount of a balancing debit is still clamped, to [2 ^ 63 - 1]. *)
Lemma balancing_unbounded_counterexample :
  let clock := fun _ : nat => 1700000000000 in
  let db := fst (createAccounts clock empty_store
                   [mkAccount 1 0 0 0 0 0 0 0 0 1 1 AccountFlags.none 0;
                    mkAccount 2 0 0 0 0 0 0 0 0 1 1 AccountFlags.none 0]) in
  let t := mkTransfer 10 1 2 (2 ^ 63 + 5) 0 0 0 0 0 1 1 TransferFlags.balancing_debit 0 in
  let result := createTransfers clock db [t] in
  a_flags <$> lookupAccount db 1 = Some 0 /\
  snd result = [] /\
  t_amount <$> lookupTransfer (fst result) 10 = Some (2 ^ 63 - 1) /\
  t_amount <$> lookupTransfer (fst result) 10 <> Some (t_amount t).
Proof. vm_compute. repeat split; discriminate. Qed.

(** C1 (amended). A balancing debit (symmetrically a balancing credit) that
    passes [validateTransfer], whose id is not stored and whose two accounts
    exist has its amount replaced by the minimum of the requested amount and
    the capacity, which is [max(0, credits_posted - debits_posted)] of the
    debit account when that account has [debits_must_not_exceed_credits] and
    [2 ^ 63 - 1] when it has not (for a balancing credit:
    [max(0, debits_posted - credits_posted)] of the credit account when it has
    [credits_must_not_exceed_debits], [2 ^ 63 - 1] otherwise). When the
    resolved amount is 0 the element is skipped: no error entry and no change
    of any loop variable. Otherwise the element is processed with the resolved
    amount. A balancing debit of 2000 against an account with the flag and
    1000 posted credits resolves to 1000, and in the scenario of the
    specification it is accepted and posts exactly 1000. An element that
    fails [validateTransfer], or whose id is stored, is answered by that check
    and no amount is resolved for it: the balancing debit of the scenario,
    submitted again, is reported with [exists_with_different_amount], since
    the stored amount is the resolved one. *)
Theorem balancing_amount_resolution :
  (forall t d c,
     truthy (js_and (t_flags t) TransferFlags.balancing_debit) = true ->
     calculateBalancingAmount t d c = Z.min (t_amount t) (debit_capacity d)) /\
  (forall t d c,
     truthy (js_and (t_flags t) TransferFlags.balancing_debit) = false ->
     truthy (js_and (t_flags t) TransferFlags.balancing_credit) = true ->
     calculateBalancingAmount t d c = Z.min (t_amount t) (credit_capacity c)) /\
  (forall now i st t d c,
     validateTransfer t = CreateTransferError.ok ->
     lookupTransfer (l_db st) (t_id t) = None ->
     lookupAccount (l_db st) (t_debit_account_id t) = Some d ->
     lookupAccount (l_db st) (t_credit_account_id t) = Some c ->
     is_balancing t = true ->
     let resolved := calculateBalancingAmount t d c in
     (resolved = 0 -> createTransfers_step now i st t = st) /\
     (resolved <> 0 ->
      createTransfers_step now i st t
      = process_resolved now i st (set_amount resolved t) d c)) /\
  (forall t d c,
     truthy (js_and (t_flags t) TransferFlags.balancing_debit) = true ->
     truthy (js_and (a_flags d) AccountFlags.debits_must_not_exceed_credits) = true ->
     a_credits_posted d - a_debits_posted d = 1000 ->
     t_amount t = 2000 ->
     calculateBalancingAmount t d c = 1000) /\
  (let clock := fun _ : nat => 1700000000000 in
   let db := fst (createAccounts clock empty_store
                    [mkAccount 401 0 0 0 0 0 0 0 0 1 1
                       AccountFlags.debits_must_not_exceed_credits 0;
                     mkAccount 402 0 0 0 0 0 0 0 0 1 1 AccountFlags.none 0]) in
   let seeded := createTransfers clock db
                   [mkTransfer 4001 402 401 1000 0 0 0 0 0 1 1 TransferFlags.none 0] in
   let result := createTransfers clock (fst seeded)
                   [mkTransfer 401 401 402 2000 0 0 0 0 0 1 1
                      TransferFlags.balancing_debit 0] in
   snd seeded = [] /\ snd result = [] /\
   t_amount <$> lookupTransfer (fst result) 401 = Some 1000 /\
   balances (fst result) 401 = Some (0, 1000, 0, 1000) /\
   balances (fst result) 402 = Some (0, 1000, 0, 1000)) /\
  (forall now i st t,
     validateTransfer t <> CreateTransferError.ok ->
     createTransfers_step now i st t = push (mkTransfersError i (validateTransfer t)) st) /\
  (forall now i st t existing,
     validateTransfer t = CreateTransferError.ok ->
     lookupTransfer (l_db st) (t_id t) = Some existing ->
     createTransfers_step now i st t
     = push (mkTransfersError i (validateTransferExists existing t)) st) /\
  (let clock := fun _ : nat => 1700000000000 in
   let db := fst (createAccounts clock empty_store
                    [mkAccount 401 0 0 0 0 0 0 0 0 1 1
                       AccountFlags.debits_must_not_exceed_credits 0;
                     mkAccount 402 0 0 0 0 0 0 0 0 1 1 AccountFlags.none 0]) in
   let seeded := createTransfers clock db
                   [mkTransfer 4001 402 401 1000 0 0 0 0 0 1 1 TransferFlags.none 0] in
   let request := mkTransfer 401 401 402 2000 0 0 0 0 0 1 1
                    TransferFlags.balancing_debit 0 in
   let result := createTransfers clock (fst seeded) [request] in
   let again := createTransfers clock (fst result) [request] in
   snd again = [mkTransfersError 0 CreateTransferError.exists_with_different_amount] /\
   fst again = fst result).
Proof.
  split; [exact calculateBalancingAmount_debit|].
  split; [exact calculateBalancingAmount_credit|].
  split.
  { intros now i st t d c Hv Hnew Hd Hc Hb resolved. split.
    - intros Hz. eapply createTransfers_step_balancing_zero; eassumption.
    - intros Hnz. apply createTransfers_step_balancing; assumption. }
  split.
  { intros t d c Hb Hf Hcap Ham.
    rewrite (calculateBalancingAmount_debit t d c Hb).
    unfold debit_capacity. rewrite Hf, Hcap, Ham. reflexivity. }
  split; [vm_compute; repeat split; reflexivity|].
  split; [exact createTransfers_step_invalid|].
  split; [exact createTransfers_step_exists|].
  vm_compute. split; reflexivity.
Qed.

Lemma balancing_amount_resolution_witness :
  let d := mkAccount 401 0 0 0 1000 0 0 0 0 1 1
             AccountFlags.debits_must_not_exceed_credits 0 in
  let c := mkAccount 402 0 1000 0 0 0 0 0 0 1 1 AccountFlags.none 0 in
  let t := mkTransfer 401 401 402 2000 0 0 0 0 0 1 1 TransferFlags.balancing_debit 0 in
  let st := mkLoop (mkStore {[ 401 := d; 402 := c ]} ∅ ∅ ∅) [] 0 in
  calculateBalancingAmount t d c = 1000 /\
  createTransfers_step 5 0 st t = process_resolved 5 0 st (set_amount 1000 t) d c.
Proof.
  intros d c t st.
  destruct balancing_amount_resolution as (_ & _ & Hstep & Hscen & _).
  split.
  - apply Hscen; reflexivity.
  - apply (Hstep 5 0%nat st t d c); try reflexivity. vm_compute. discriminate.
Defined.

(** *** Overflow *)

Lemma wouldOverflowAccount_None a x y :
  wouldOverflowAccount a x y = None <->
  a_debits_posted a + x <= 2 ^ 128 - 1 /\
  a_credits_posted a + y <= 2 ^ 128 - 1 /\
  a_debits_posted a + a_debits_pending a + x <= 2 ^ 128 - 1 /\
  a_credits_posted a + a_credits_pending a + y <= 2 ^ 128 - 1.
Proof.
  unfold wouldOverflowAccount. cbv zeta.
  case_ifs; bools_to_props; split; intros H; try discriminate; try reflexivity; lia.
Qed.

Lemma wouldOverflowAccount_debits_posted a x y :
  wouldOverflowAccount a x y = Some CreateTransferError.overflows_debits_posted <->
  2 ^ 128 - 1 < a_debits_posted a + x.
Proof.
  unfold wouldOverflowAccount. cbv zeta.
  case_ifs; bools_to_props; split; intros H; try discriminate; try reflexivity; lia.
Qed.

Lemma pending_lookup_plain db t : is_post_or_void t = false -> pending_lookup db t = (None, None).
Proof. intros H. unfold pending_lookup. rewrite H. reflexivity. Qed.

Lemma balances_lookup db id a :
  lookupAccount db id = Some a ->
  balances db id
  = Some (a_debits_pending a, a_debits_posted a, a_credits_pending a, a_credits_posted a).
Proof. intros H. unfold balances. rewrite H. reflexivity. Qed.


Lemma process_resolved_rejected now i st t d c p s e :
  pending_lookup (l_db st) t = (p, s) ->
  validateTransferAccounts t (Some d) (Some c) p (or_undefined s) = e ->
  e <> CreateTransferError.ok ->
  process_resolved now i st t d c = push (mkTransfersError i e) st.
Proof.
  intros Hp He Hne. unfold process_resolved. rewrite Hp, He.
  destruct (transfer_ok e) eqn:Hok; [|reflexivity].
  apply transfer_ok_true in Hok. contradiction.
Qed.

Lemma process_resolved_accepted now i st t d c p s :
  pending_lookup (l_db st) t = (p, s) ->
  validateTransferAccounts t (Some d) (Some c) p (or_undefined s) = CreateTransferError.ok ->
  wouldOverflowAccount d (if is_pending t then 0 else t_amount t) 0 = None ->
  wouldOverflowAccount c 0 (if is_pending t then 0 else t_amount t) = None ->
  process_resolved now i st t d c
  = let ts := next_timestamp now (l_lastTimestamp st) in
    let t' := set_transfer_timestamp ts t in
    mkLoop (updateAccountBalances t' (insert_transfer t' (l_db st))) (l_errors st) ts.
Proof.
  intros Hp He Hod Hoc. unfold process_resolved. rewrite Hp, He. cbn [negb transfer_ok].
  cbv zeta. rewrite Hod, Hoc. reflexivity.
Qed.



(** *** Results that are never reported *)

Lemma createTransfers_errors_unused clock db (batch : list Transfer) :
  Forall (fun e => unused_error (te_result e) = false) (snd (createTransfers clock db batch)).
Proof.
  unfold createTransfers. cbn [snd].
  destruct (createTransfers_loop_errors clock batch 0%nat (mkLoop db [] 0))
    as (suf & Heq & Hall).
  rewrite Heq. cbn [l_errors app].
  eapply Forall_impl; [exact Hall|]. simpl. intros e [_ H]. exact H.
Qed.

(** C10. No entry of the result of [createTransfers] carries
    [overflows_debits_pending] or [overflows_credits_pending]. For a transfer
    with the pending flag the overflow check receives the amount 0 on both
    sides: once the transfer passes the earlier checks, it is accepted as
    soon as the present totals of its two accounts are in range, whatever its
    amount, and [debits_pending] and [credits_pending] grow by that amount,
    also beyond [2 ^ 128 - 1]. *)
Theorem pending_overflow_not_checked :
  (forall clock db (batch : list Transfer),
     Forall (fun e => te_result e <> CreateTransferError.overflows_debits_pending
                      /\ te_result e <> CreateTransferError.overflows_credits_pending)
            (snd (createTransfers clock db batch))) /\
  (forall now i st t d c,
     validateTransfer t = CreateTransferError.ok ->
     lookupTransfer (l_db st) (t_id t) = None ->
     is_pending t = true -> is_balancing t = false ->
     lookupAccount (l_db st) (t_debit_account_id t) = Some d ->
     lookupAccount (l_db st) (t_credit_account_id t) = Some c ->
     validateTransferAccounts t (Some d) (Some c) None None = CreateTransferError.ok ->
     wouldOverflowAccount d 0 0 = None ->
     wouldOverflowAccount c 0 0 = None ->
     let st' := createTransfers_step now i st t in
     l_errors st' = l_errors st /\
     balances (l_db st') (t_debit_account_id t)
     = Some (a_debits_pending d + t_amount t, a_debits_posted d,
             a_credits_pending d, a_credits_posted d) /\
     balances (l_db st') (t_credit_account_id t)
     = Some (a_debits_pending c, a_debits_posted c,
             a_credits_pending c + t_amount t, a_credits_posted c)).
Proof.
  split.
  - intros clock db batch.
    eapply Forall_impl; [apply createTransfers_errors_unused|].
    simpl. intros e Hu. split; intros Heq; rewrite Heq in Hu; discriminate.
  - intros now i st t d c Hv Hnew Hpend Hbal Hd Hc Hva Hod Hoc st'.
    pose proof (validateTransfer_ok_pending_exclusive t Hv Hpend) as Hpv.
    pose proof (pending_lookup_plain (l_db st) t Hpv) as Hp.
    assert (Hstep : st' = process_resolved now i st t d c).
    { apply createTransfers_step_resolved; try assumption.
      apply calculateBalancingAmount_not_balancing; assumption. }
    rewrite Hstep.
    rewrite (process_resolved_accepted now i st t d c None None Hp Hva)
      by (rewrite Hpend; assumption).
    cbv zeta. cbn [l_errors l_db].
    set (t' := set_transfer_timestamp _ t).
    pose proof (validateTransfer_ok_distinct t Hv) as Hne.
    assert (Hupd_d : debit_update t' = add_debits_pending (t_amount t)).
    { unfold debit_update. change (t_flags t') with (t_flags t).
      unfold is_pending in Hpend. rewrite Hpend. reflexivity. }
    assert (Hupd_c : credit_update t' = add_credits_pending (t_amount t)).
    { unfold credit_update. change (t_flags t') with (t_flags t).
      unfold is_pending in Hpend. rewrite Hpend. reflexivity. }
    split; [reflexivity|]. split.
    + erewrite balances_lookup
        by (apply (applied_debit_account t' (l_db st) d); [exact Hne | exact Hd]).
      rewrite Hupd_d. reflexivity.
    + erewrite balances_lookup
        by (apply (applied_credit_account t' (l_db st) c); exact Hc).
      change (t_debit_account_id t') with (t_debit_account_id t).
      change (t_credit_account_id t') with (t_credit_account_id t).
      destruct (decide (t_debit_account_id t = t_credit_account_id t)); [contradiction|].
      rewrite Hupd_c. reflexivity.
Qed.

Lemma pending_overflow_not_checked_witness :
  let d := mkAccount 1 (2 ^ 128 - 1) 0 0 0 0 0 0 0 1 1 0 7 in
  let c := mkAccount 2 0 0 (2 ^ 128 - 1) 0 0 0 0 0 1 1 0 8 in
  let st := mkLoop (mkStore {[ 1 := d; 2 := c ]} ∅ ∅ ∅) [] 0 in
  let t := mkTransfer 10 1 2 5 0 0 0 0 0 1 1 TransferFlags.pending 0 in
  let st' := createTransfers_step 5 0 st t in
  l_errors st' = [] /\
  balances (l_db st') 1 = Some (2 ^ 128 - 1 + 5, 0, 0, 0) /\
  balances (l_db st') 2 = Some (0, 0, 2 ^ 128 - 1 + 5, 0).
Proof.
  intros d c st t st'.
  destruct pending_overflow_not_checked as (_ & H).
  apply (H 5 0%nat st t d c); reflexivity.
Defined.

(** *** Linked transfers *)

(** A stored transfer stays stored: the loop inserts only under fresh ids. *)
Lemma createTransfers_step_keeps_transfers now i st t id x :
  lookupTransfer (l_db st) id = Some x ->
  lookupTransfer (l_db (createTransfers_step now i st t)) id = Some x.
Proof.
  intros Hx. unfold createTransfers_step.
  destruct (transfer_ok (validateTransfer t)); cbn [negb]; [|exact Hx].
  destruct (lookupTransfer (l_db st) (t_id t)) as [ex|] eqn:Hex; [exact Hx|].
  match goal with |- context [let '(_, _) := ?x in _] => destruct x as [p s] end.
  match goal with |- context [match ?x with Some _ => _ | None => st end] =>
    destruct x as [t'|] eqn:Hcl end; [|exact Hx].
  assert (Hid : t_id t' = t_id t).
  { revert Hcl. case_ifs; intros H; try discriminate.
    all: repeat match goal with
                | H : context [match ?o with Some _ => _ | None => _ end] |- _ =>
                  destruct o
                end; try discriminate.
    all: revert H; case_ifs; intros H; inversion H; reflexivity. }
  destruct (transfer_ok (validateTransferAccounts _ _ _ _ _)); cbn [negb]; [|exact Hx].
  destruct (lookupAccount (l_db st) (t_debit_account_id t)) as [d|]; [|exact Hx].
  destruct (lookupAccount (l_db st) (t_credit_account_id t)) as [c|]; [|exact Hx].
  destruct (wouldOverflowAccount d _ 0); [exact Hx|].
  destruct (wouldOverflowAccount c 0 _); [exact Hx|].
  cbn [l_db]. unfold lookupTransfer in *.
  rewrite updateAccountBalances_transfers, insert_transfer_transfers.
  cbn [t_id set_transfer_timestamp]. rewrite Hid.
  rewrite lookup_insert_ne; [exact Hx|]. intros Heq. rewrite Heq in Hex. congruence.
Qed.

Lemma createTransfers_loop_keeps_transfers clock (batch : list Transfer) id x :
  forall i st,
    lookupTransfer (l_db st) id = Some x ->
    lookupTransfer (l_db (batch_loop createTransfers_step clock i batch st)) id = Some x.
Proof.
  induction batch as [|t batch IH]; intros i st Hx; simpl; [exact Hx|].
  apply IH. apply createTransfers_step_keeps_transfers. exact Hx.
Qed.


(** *** Posting and voiding *)

(** C4, as stated, fails in two ways that its conditions do not exclude.
    A posting request that is submitted a second time is answered with
    [exists], not with [pending_transfer_not_pending], although the pending
    transfer it refers to is posted by then. A posting request that also
    carries a balancing flag and whose resolved amount is 0 is skipped
    without any error, although no stored transfer has its [pending_id]. *)
Lemma pending_checks_counterexample :
  let clock := fun _ : nat => 1700000000000 in
  let db := mkStore {[ 1 := mkAccount 1 0 0 0 0 0 0 0 0 1 1 0 7;
                       2 := mkAccount 2 0 0 0 0 0 0 0 0 1 1 0 8;
                       3 := mkAccount 3 0 0 0 0 0 0 0 0 1 1
                              AccountFlags.debits_must_not_exceed_credits 9 ]} ∅ ∅ ∅ in
  let p := mkTransfer 10 1 2 50 0 0 0 0 0 1 1 TransferFlags.pending 0 in
  let q := mkTransfer 11 1 2 50 10 0 0 0 0 1 1 TransferFlags.post_pending_transfer 0 in
  let r := mkTransfer 12 3 2 5 77 0 0 0 0 1 1
             (Z.lor TransferFlags.post_pending_transfer TransferFlags.balancing_debit) 0 in
  let posted := createTransfers clock db [p; q] in
  snd posted = [] /\
  validateTransfer q = CreateTransferError.ok /\
  lookupPendingStatus (fst posted) 10 = Some TransferPendingStatus.posted /\
  createTransfers clock (fst posted) [q]
  = (fst posted, [mkTransfersError 0 CreateTransferError.exists_]) /\
  validateTransfer r = CreateTransferError.ok /\
  lookupTransfer db 77 = None /\
  createTransfers clock db [r] = (db, []).
Proof. vm_compute. repeat split; reflexivity. Qed.

Lemma pending_lookup_post_or_void db t :
  is_post_or_void t = true ->
  pending_lookup db t
  = match lookupTransfer db (t_pending_id t) with
    | Some p => (Some p, lookupPendingStatus db (t_pending_id t))
    | None => (None, None)
    end.
Proof. intros H. unfold pending_lookup. rewrite H. reflexivity. Qed.

Section PendingChecks.
Variables (t : Transfer) (d c : Account).
Hypothesis Hledger_accounts : a_ledger d = a_ledger c.
Hypothesis Hledger_transfer : t_ledger t = a_ledger d.
Hypothesis Hopen_d : truthy (js_and (a_flags d) AccountFlags.closed) = false.
Hypothesis Hopen_c : truthy (js_and (a_flags c) AccountFlags.closed) = false.
Hypothesis Hpv : is_post_or_void t = true.

Ltac enter_pending_section :=
    unfold validateTransferAccounts;
    rewrite (proj2 (Z.eqb_eq _ _) Hledger_accounts), (proj2 (Z.eqb_eq _ _) Hledger_transfer),
      Hopen_d, Hopen_c;
    cbn [negb];
    change (truthy (js_and (t_flags t)
                      (js_or TransferFlags.post_pending_transfer
                             TransferFlags.void_pending_transfer)))
      with (is_post_or_void t);
    rewrite Hpv.

Lemma pending_not_found s :
  validateTransferAccounts t (Some d) (Some c) None s
  = CreateTransferError.pending_transfer_not_found.
Proof. enter_pending_section. reflexivity. Qed.

Lemma pending_not_pending p s :
  s <> Some TransferPendingStatus.pending ->
  validateTransferAccounts t (Some d) (Some c) (Some p) (or_undefined s)
  = CreateTransferError.pending_transfer_not_pending.
Proof.
  intros Hs. enter_pending_section.
  destruct s as [[]|]; try reflexivity. contradiction.
Qed.

Variable p : Transfer.
Let result := validateTransferAccounts t (Some d) (Some c) (Some p)
                  (Some TransferPendingStatus.pending).

Lemma pending_different_debit :
  t_debit_account_id p <> t_debit_account_id t ->
  result = CreateTransferError.pending_transfer_has_different_debit_account_id.
Proof.
  intros H. subst result. enter_pending_section.
  rewrite (proj2 (Z.eqb_neq _ _) H). reflexivity.
Qed.

Lemma pending_different_credit :
  t_debit_account_id p = t_debit_account_id t ->
  t_credit_account_id p <> t_credit_account_id t ->
  result = CreateTransferError.pending_transfer_has_different_credit_account_id.
Proof.
  intros H1 H2. subst result. enter_pending_section.
  rewrite (proj2 (Z.eqb_eq _ _) H1), (proj2 (Z.eqb_neq _ _) H2). reflexivity.
Qed.

Lemma pending_different_ledger :
  t_debit_account_id p = t_debit_account_id t ->
  t_credit_account_id p = t_credit_account_id t ->
  t_ledger p <> t_ledger t ->
  result = CreateTransferError.pending_transfer_has_different_ledger.
Proof.
  intros H1 H2 H3. subst result. enter_pending_section.
  rewrite (proj2 (Z.eqb_eq _ _) H1), (proj2 (Z.eqb_eq _ _) H2),
    (proj2 (Z.eqb_neq _ _) H3). reflexivity.
Qed.

Lemma pending_different_code :
  t_debit_account_id p = t_debit_account_id t ->
  t_credit_account_id p = t_credit_account_id t ->
  t_ledger p = t_ledger t ->
  t_code p <> t_code t ->
  result = CreateTransferError.pending_transfer_has_different_code.
Proof.
  intros H1 H2 H3 H4. subst result. enter_pending_section.
  rewrite (proj2 (Z.eqb_eq _ _) H1), (proj2 (Z.eqb_eq _ _) H2),
    (proj2 (Z.eqb_eq _ _) H3), (proj2 (Z.eqb_neq _ _) H4). reflexivity.
Qed.

Hypothesis Hsame_debit : t_debit_account_id p = t_debit_account_id t.
Hypothesis Hsame_credit : t_credit_account_id p = t_credit_account_id t.
Hypothesis Hsame_ledger : t_ledger p = t_ledger t.
Hypothesis Hsame_code : t_code p = t_code t.

Ltac enter_amount_check :=
    subst result; enter_pending_section;
    rewrite (proj2 (Z.eqb_eq _ _) Hsame_debit), (proj2 (Z.eqb_eq _ _) Hsame_credit),
      (proj2 (Z.eqb_eq _ _) Hsame_ledger), (proj2 (Z.eqb_eq _ _) Hsame_code);
    cbn [negb].

Lemma post_exceeds_pending_amount :
  truthy (js_and (t_flags t) TransferFlags.post_pending_transfer) = true ->
  t_amount t > t_amount p ->
  result = CreateTransferError.exceeds_pending_transfer_amount.
Proof.
  intros Hpost Ham. enter_amount_check. rewrite Hpost.
  rewrite Z.gtb_ltb, (proj2 (Z.ltb_lt _ _)) by lia. reflexivity.
Qed.

Lemma void_different_amount :
  truthy (js_and (t_flags t) TransferFlags.post_pending_transfer) = false ->
  t_amount t <> t_amount p ->
  result = CreateTransferError.pending_transfer_has_different_amount.
Proof.
  intros Hpost Ham. enter_amount_check. rewrite Hpost.
  assert (Hvoid : truthy (js_and (t_flags t) TransferFlags.void_pending_transfer) = true).
  { pose proof Hpv as H. rewrite is_post_or_void_split, Hpost in H. exact H. }
  rewrite Hvoid, (proj2 (Z.eqb_neq _ _) Ham). reflexivity.
Qed.

Lemma pending_checks_pass :
  (truthy (js_and (t_flags t) TransferFlags.post_pending_transfer) = true ->
   t_amount t <= t_amount p) ->
  (truthy (js_and (t_flags t) TransferFlags.post_pending_transfer) = false ->
   t_amount t = t_amount p) ->
  result
  = if negb (canDebitAccount d (t_amount t)) then CreateTransferError.exceeds_credits
    else if negb (canCreditAccount c (t_amount t)) then CreateTransferError.exceeds_debits
    else CreateTransferError.ok.
Proof.
  intros Hpost Hvoid. enter_amount_check.
  destruct (truthy (js_and (t_flags t) TransferFlags.post_pending_transfer)) eqn:Hp.
  - rewrite Z.gtb_ltb, (proj2 (Z.ltb_ge _ _)) by (apply Hpost; reflexivity). reflexivity.
  - rewrite (proj2 (Z.eqb_eq _ _)) by (apply Hvoid; reflexivity). cbn [negb].
    destruct (truthy (js_and (t_flags t) TransferFlags.void_pending_transfer)); reflexivity.
Qed.

End PendingChecks.

(** C4 (amended). Take a posting or voiding request that passes field
    validation, whose id is not stored yet, that carries no balancing flag,
    and whose two accounts exist, share one ledger with the transfer and are
    not closed. It is rejected, at its index and with the store untouched, by
    the first of these rules that applies: [pending_transfer_not_found] when
    no stored transfer has its [pending_id]; [pending_transfer_not_pending]
    when the status stored for that transfer is not pending; then the
    [pending_transfer_has_different_*] error of the first of debit account,
    credit account, ledger and code that differs; then, for a posting request,
    [exceeds_pending_transfer_amount] when its amount is above the pending
    amount, and for a voiding request [pending_transfer_has_different_amount]
    when its amount is not the pending amount. A request that none of them
    rejects (a posting amount at most the pending amount included) goes on to
    the balance-constraint and overflow checks. *)
Theorem pending_transfer_checks now i st t d c :
  validateTransfer t = CreateTransferError.ok ->
  lookupTransfer (l_db st) (t_id t) = None ->
  is_post_or_void t = true -> is_balancing t = false ->
  lookupAccount (l_db st) (t_debit_account_id t) = Some d ->
  lookupAccount (l_db st) (t_credit_account_id t) = Some c ->
  a_ledger d = a_ledger c -> t_ledger t = a_ledger d ->
  truthy (js_and (a_flags d) AccountFlags.closed) = false ->
  truthy (js_and (a_flags c) AccountFlags.closed) = false ->
  let rejected e :=
    createTransfers_step now i st t = push (mkTransfersError i e) st in
  let posting := truthy (js_and (t_flags t) TransferFlags.post_pending_transfer) in
  match lookupTransfer (l_db st) (t_pending_id t) with
  | None => rejected CreateTransferError.pending_transfer_not_found
  | Some p =>
    (lookupPendingStatus (l_db st) (t_pending_id t) <> Some TransferPendingStatus.pending ->
     rejected CreateTransferError.pending_transfer_not_pending) /\
    (lookupPendingStatus (l_db st) (t_pending_id t) = Some TransferPendingStatus.pending ->
     (t_debit_account_id p <> t_debit_account_id t ->
      rejected CreateTransferError.pending_transfer_has_different_debit_account_id) /\
     (t_debit_account_id p = t_debit_account_id t ->
      (t_credit_account_id p <> t_credit_account_id t ->
       rejected CreateTransferError.pending_transfer_has_different_credit_account_id) /\
      (t_credit_account_id p = t_credit_account_id t ->
       (t_ledger p <> t_ledger t ->
        rejected CreateTransferError.pending_transfer_has_different_ledger) /\
       (t_ledger p = t_ledger t ->
        (t_code p <> t_code t ->
         rejected CreateTransferError.pending_transfer_has_different_code) /\
        (t_code p = t_code t ->
         (posting = true -> t_amount t > t_amount p ->
          rejected CreateTransferError.exceeds_pending_transfer_amount) /\
         (posting = false -> t_amount t <> t_amount p ->
          rejected CreateTransferError.pending_transfer_has_different_amount) /\
         ((posting = true -> t_amount t <= t_amount p) ->
          (posting = false -> t_amount t = t_amount p) ->
          createTransfers_step now i st t = process_resolved now i st t d c /\
          validateTransferAccounts t (Some d) (Some c) (Some p)
            (Some TransferPendingStatus.pending)
          = if negb (canDebitAccount d (t_amount t)) then CreateTransferError.exceeds_credits
            else if negb (canCreditAccount c (t_amount t))
                 then CreateTransferError.exceeds_debits
                 else CreateTransferError.ok))))))
  end.
Proof.
  intros Hv Hnew Hpv Hbal Hd Hc Hl1 Hl2 Hcd Hcc rejected posting.
  assert (Hstep : createTransfers_step now i st t = process_resolved now i st t d c).
  { apply createTransfers_step_resolved; try assumption.
    apply calculateBalancingAmount_not_balancing; assumption. }
  pose proof (pending_lookup_post_or_void (l_db st) t Hpv) as Hp.
  subst rejected. cbv beta.
  destruct (lookupTransfer (l_db st) (t_pending_id t)) as [p|] eqn:Hpt.
  2:{ rewrite Hstep. eapply process_resolved_rejected; [exact Hp| |discriminate].
      apply pending_not_found; assumption. }
  assert (Hrej : forall e,
             lookupPendingStatus (l_db st) (t_pending_id t)
             = Some TransferPendingStatus.pending ->
             validateTransferAccounts t (Some d) (Some c) (Some p)
               (Some TransferPendingStatus.pending) = e ->
             e <> CreateTransferError.ok ->
             createTransfers_step now i st t = push (mkTransfersError i e) st).
  { intros e Hs He Hne. rewrite Hstep.
    eapply process_resolved_rejected; [exact Hp| |exact Hne].
    rewrite Hs. exact He. }
  split.
  { intros Hs. rewrite Hstep. eapply process_resolved_rejected; [exact Hp| |discriminate].
    apply pending_not_pending; assumption. }
  intros Hs. split.
  { intros H. apply Hrej; [exact Hs| |discriminate].
    apply pending_different_debit; assumption. }
  intros E1. split.
  { intros H. apply Hrej; [exact Hs| |discriminate].
    apply pending_different_credit; assumption. }
  intros E2. split.
  { intros H. apply Hrej; [exact Hs| |discriminate].
    apply pending_different_ledger; assumption. }
  intros E3. split.
  { intros H. apply Hrej; [exact Hs| |discriminate].
    apply pending_different_code; assumption. }
  intros E4. split; [|split].
  - intros Hpost Ham. apply Hrej; [exact Hs| |discriminate].
    apply post_exceeds_pending_amount; assumption.
  - intros Hpost Ham. apply Hrej; [exact Hs| |discriminate].
    apply void_different_amount; assumption.
  - intros Hpost Hvoid. split; [exact Hstep|].
    apply pending_checks_pass; assumption.
Qed.

Lemma pending_transfer_checks_witness :
  let d := mkAccount 1 50 0 0 0 0 0 0 0 1 1 0 7 in
  let c := mkAccount 2 0 0 50 0 0 0 0 0 1 1 0 8 in
  let p := mkTransfer 10 1 2 50 0 0 0 0 0 1 1 TransferFlags.pending 9 in
  let st := mkLoop (mkStore {[ 1 := d; 2 := c ]} {[ 10 := p ]}
                      {[ 10 := mkPendingTransferRow TransferPendingStatus.pending 0 9 ]} ∅)
                   [] 0 in
  let q := mkTransfer 11 1 2 60 10 0 0 0 0 1 1 TransferFlags.post_pending_transfer 0 in
  createTransfers_step 5 0 st q
  = push (mkTransfersError 0 CreateTransferError.exceeds_pending_transfer_amount) st.
Proof.
  intros d c p st q.
  pose proof (pending_transfer_checks 5 0%nat st q d c) as H.
  do 10 (specialize (H eq_refl)). cbv zeta in H.
  change (lookupTransfer (l_db st) (t_pending_id q)) with (Some p) in H.
  cbv beta iota in H.
  destruct H as (_ & H). specialize (H eq_refl).
  destruct H as (_ & H). specialize (H eq_refl).
  destruct H as (_ & H). specialize (H eq_refl).
  destruct H as (_ & H). specialize (H eq_refl).
  destruct H as (_ & H). specialize (H eq_refl).
  destruct H as (H & _).
  apply H; reflexivity.
Defined.

(** *** Layout of an identifier *)

(** Equality of two integers bit by bit: every bit of a combination of
    [Z.lor], [Z.land], shifts, [Z.ones] and [_ mod 2 ^ _] is a boolean
    combination of bits of the operands, guarded by comparisons on the index. *)
Ltac bits_step :=
  repeat first
    [ rewrite Z.lor_spec | rewrite Z.land_spec
    | rewrite Z.testbit_mod_pow2 by lia
    | rewrite Z.shiftl_spec' | rewrite Z.shiftr_spec'
    | rewrite Z.testbit_ones_nonneg' by lia
    | rewrite Z.testbit_0_l ].

Ltac decide_ltbs :=
  repeat match goal with
         | |- context [ ?a <? ?b ] =>
           first [ rewrite (proj2 (Z.ltb_lt a b)) by lia
                 | rewrite (proj2 (Z.ltb_ge a b)) by lia
                 | destruct (Z.ltb_spec a b) ]
         end.

Ltac align_indices :=
  repeat match goal with
         | |- context [Z.testbit ?x ?j] => rewrite (Z.testbit_neg_r x j) by lia
         end;
  repeat match goal with
         | |- context [Z.testbit ?x ?j1] =>
           match goal with
           | |- context [Z.testbit x ?j2] =>
             lazymatch j1 with
             | j2 => fail
             | _ => replace j1 with j2 by lia
             end
           end
         end.

Ltac bits :=
  apply Z.bits_inj'; intros i Hi; bits_step; decide_ltbs;
  cbn [negb andb orb]; align_indices;
  repeat match goal with
         | |- context [Z.testbit ?x ?j] => destruct (Z.testbit x j)
         end;
  reflexivity.

(** The buffer [createId] fills, read back as two 64-bit halves. *)
Lemma createId_buffer timestamp random :
  createId timestamp random
  = Z.lor (Z.shiftl
             (le_combine (le_split 2 (Z.shiftr (Z.land random (Z.ones 80)) 64)
                          ++ le_split 2 (Z.land timestamp (Z.ones 16))
                          ++ le_split 4 (Z.land (Z.shiftr timestamp 16) (Z.ones 32)))) 64)
          (le_combine (le_split 8 (Z.land (Z.land random (Z.ones 80)) (Z.ones 64)))).
Proof. reflexivity. Qed.

(** The fields [parseId] reads from the buffer it fills. *)
Lemma parseId_buffer id :
  parseId id
  = (Z.lor (le_combine (le_split 2 (Z.shiftr (Z.shiftr id 64) 16)))
           (Z.shiftl (le_combine (le_split 4 (Z.shiftr (Z.shiftr id 64) 32))) 16),
     Z.land (Z.lor (le_combine (le_split 8 (Z.land id (Z.ones 64))))
                   (Z.shiftl (le_combine (le_split 2 (Z.shiftr id 64))) 64))
            (Z.ones 80)).
Proof. reflexivity. Qed.

(** [createId] puts the low 48 bits of the timestamp above the low 80 bits
    of the random component. *)
Lemma createId_layout timestamp random :
  createId timestamp random
  = Z.lor (Z.shiftl (timestamp mod 2 ^ 48) 80) (random mod 2 ^ 80).
Proof.
  rewrite createId_buffer.
  rewrite !le_combine_app, !le_combine_split, !length_le_split.
  change (Z.of_nat 2 * 8) with 16. change (Z.of_nat 4 * 8) with 32.
  change (Z.of_nat 8 * 8) with 64.
  bits.
Qed.

(** [parseId] reads bits 80 to 127 as the timestamp and bits 0 to 79 as
    the random component. *)
Lemma parseId_layout id :
  parseId id = (Z.shiftr id 80 mod 2 ^ 48, id mod 2 ^ 80).
Proof.
  rewrite parseId_buffer, !le_combine_split.
  change (Z.of_nat 2 * 8) with 16. change (Z.of_nat 4 * 8) with 32.
  change (Z.of_nat 8 * 8) with 64.
  f_equal; bits.
Qed.

(** C8. For every timestamp [t] with [0 <= t < 2 ^ 48] and every random
    component [r] with [0 <= r < 2 ^ 80], parsing the identifier built from
    them gives back [t] and [r]. *)
Theorem parse_create_roundtrip (t r : Z) :
  0 <= t < 2 ^ 48 -> 0 <= r < 2 ^ 80 ->
  parseId (createId t r) = (t, r).
Proof.
  intros Ht Hr. rewrite createId_layout, parseId_layout.
  rewrite <- (Z.mod_small t (2 ^ 48)) at 3 by lia.
  rewrite <- (Z.mod_small r (2 ^ 80)) at 3 by lia.
  f_equal; bits.
Qed.

Lemma parse_create_roundtrip_witness :
  parseId (createId 1700000000123 (2 ^ 80 - 3)) = (1700000000123, 2 ^ 80 - 3).
Proof.
  apply parse_create_roundtrip; lia.
Defined.

(** *** The identifier generator *)

Lemma lor_shiftl_add x y k :
  0 <= k -> 0 <= x < 2 ^ k -> Z.lor x (Z.shiftl y k) = x + y * 2 ^ k.
Proof.
  intros Hk Hx. rewrite <- Z.shiftl_mul_pow2 by lia.
  apply Z.or_to_plus. rewrite <- (Z.mod_small x (2 ^ k)) by lia. bits.
Qed.

Lemma le_combine_app_add (a b : list byte) :
  le_combine (a ++ b) = le_combine a + le_combine b * 2 ^ (Z.of_nat (length a) * 8).
Proof.
  rewrite le_combine_app. apply lor_shiftl_add; [lia|].
  pose proof (le_combine_bound a) as H.
  replace (Z.of_nat (length a) * 8) with (8 * Z.of_nat (length a)) by lia. exact H.
Qed.

(** Writing with [setUint32] keeps the low 32 bits only, so the [& 0xFFFFFFFF]
    of the code, which yields a signed number, changes nothing. *)
Lemma le_split_ToInt32 v : le_split 4 (ToInt32 v) = le_split 4 v.
Proof.
  rewrite (le_split_mod (ToInt32 v)), (le_split_mod v). f_equal.
  unfold ToInt32. change (Z.of_nat 4 * 8) with 32.
  rewrite Zminus_mod, Zmod_mod, <- Zminus_mod.
  replace (v + 2 ^ 31 - 2 ^ 31) with v by lia. reflexivity.
Qed.

Lemma js_and_mask32 v : js_and v 0xFFFFFFFF = ToInt32 v.
Proof.
  unfold js_and. change (ToInt32 4294967295) with (-1). apply Z.land_m1_r.
Qed.

Lemma of_Z_land_255 x : byte.of_Z (Z.land x 255) = byte.of_Z x.
Proof.
  apply byte.unsigned_inj. rewrite !byte.unsigned_of_Z. unfold byte.wrap.
  change 255 with (Z.ones 8). rewrite Z.land_ones by lia. apply Zmod_mod.
Qed.

Lemma increment_chunk_0 (b0 b1 b2 b3 : byte) (rest : list byte) :
  increment_chunk ([b0; b1; b2; b3] ++ rest) 0 1
  = (le_split 4 (le_combine [b0; b1; b2; b3] + 1) ++ rest,
     if le_combine [b0; b1; b2; b3] + 1 >? 0xFFFFFFFF then 1 else 0).
Proof.
  unfold increment_chunk. cbn [Nat.min Nat.sub Nat.eqb].
  unfold setUint32, getUint32, setUint, getUint. cbn [firstn skipn app Nat.add].
  rewrite js_and_mask32, le_split_ToInt32. reflexivity.
Qed.

Lemma increment_chunk_4 (x0 x1 x2 x3 b4 b5 b6 b7 : byte) (rest : list byte) :
  increment_chunk ([x0; x1; x2; x3; b4; b5; b6; b7] ++ rest) 4 1
  = ([x0; x1; x2; x3] ++ le_split 4 (le_combine [b4; b5; b6; b7] + 1) ++ rest,
     if le_combine [b4; b5; b6; b7] + 1 >? 0xFFFFFFFF then 1 else 0).
Proof.
  unfold increment_chunk. cbn [Nat.min Nat.sub Nat.eqb].
  unfold setUint32, getUint32, setUint, getUint. cbn [firstn skipn app Nat.add].
  rewrite js_and_mask32, le_split_ToInt32. reflexivity.
Qed.

Lemma increment_chunk_8 (x0 x1 x2 x3 x4 x5 x6 x7 b8 b9 : byte) (rest : list byte) :
  increment_chunk ([x0; x1; x2; x3; x4; x5; x6; x7; b8; b9] ++ rest) 8 1
  = ([x0; x1; x2; x3; x4; x5; x6; x7] ++ le_split 2 (le_combine [b8; b9] + 1) ++ rest,
     Z.shiftr (le_combine [b8; b9] + 1) 16).
Proof.
  unfold increment_chunk. cbn [Nat.min Nat.sub Nat.eqb seq fold_left].
  unfold setByte, getByte, setUint, getUint. cbv [le_split].
  cbn [firstn skipn app Nat.add]. change (firstn 0 rest) with (@nil byte).
  assert (Hv : Z.lor (Z.lor 0 (Z.shiftl (le_combine [b8]) (Z.of_nat 0 * 8)))
                     (Z.shiftl (le_combine [b9]) (Z.of_nat 1 * 8)) = le_combine [b8; b9]).
  { change [b8; b9] with ([b8] ++ [b9]). rewrite le_combine_app.
    cbn [length]. rewrite Z.lor_0_l. change (Z.of_nat 0 * 8) with 0.
    rewrite Z.shiftl_0_r. reflexivity. }
  rewrite Hv.
  change (Z.of_nat 0 * 8) with 0. change (Z.of_nat 1 * 8) with 8.
  change (Z.of_nat 2 * 8) with 16.
  rewrite Z.shiftr_0_r, !of_Z_land_255. reflexivity.
Qed.

Lemma counter_bytes (l tail : list byte) X :
  length l = 10%nat -> le_combine l = X mod 2 ^ 80 ->
  l ++ tail = le_split 10 (X mod 2 ^ 80) ++ tail.
Proof.
  intros Hlen Hval. f_equal. apply le_combine_inj.
  - rewrite length_le_split. exact Hlen.
  - rewrite le_combine_split. change (Z.of_nat 10 * 8) with 80.
    rewrite Zmod_mod. exact Hval.
Qed.

(** The four bytes written by [setUint32], named one by one. *)
Ltac name_bytes4 X w0 w1 w2 w3 :=
  let E := fresh "E" in
  let w := fresh "w" in
  pose proof (length_le_split 4 X) as E;
  remember (le_split 4 X) as w eqn:?;
  destruct w as [|w0 [|w1 [|w2 [|w3 [|? ?]]]]]; try discriminate E; clear E.

(** The carry loop adds one to the 80-bit little-endian counter held in
    the first ten bytes and hands back the carry out of bit 79. *)
Lemma increment_loop_counter (b0 b1 b2 b3 b4 b5 b6 b7 b8 b9 : byte) (tail : list byte) :
  let R := le_combine [b0; b1; b2; b3; b4; b5; b6; b7; b8; b9] in
  increment_loop [0; 4; 8]%nat ([b0; b1; b2; b3; b4; b5; b6; b7; b8; b9] ++ tail) 1
  = (le_split 10 ((R + 1) mod 2 ^ 80) ++ tail, (R + 1) / 2 ^ 80).
Proof.
  intros R.
  set (c0 := le_combine [b0; b1; b2; b3]).
  set (c1 := le_combine [b4; b5; b6; b7]).
  set (c2 := le_combine [b8; b9]).
  assert (HR : R = c0 + c1 * 2 ^ 32 + c2 * 2 ^ 64).
  { subst R c0 c1 c2.
    change [b0; b1; b2; b3; b4; b5; b6; b7; b8; b9]
      with ([b0; b1; b2; b3] ++ [b4; b5; b6; b7] ++ [b8; b9]).
    rewrite !le_combine_app_add. cbn [length]. change (Z.of_nat 4 * 8) with 32. lia. }
  pose proof (le_combine_bound [b0; b1; b2; b3]) as B0. fold c0 in B0.
  pose proof (le_combine_bound [b4; b5; b6; b7]) as B1. fold c1 in B1.
  pose proof (le_combine_bound [b8; b9]) as B2. fold c2 in B2.
  cbn [length] in B0, B1, B2.
  change (8 * Z.of_nat 4) with 32 in B0, B1. change (8 * Z.of_nat 2) with 16 in B2.
  clearbody R.
  cbn [increment_loop]. change (truthy 1) with true. cbv iota.
  change ([b0; b1; b2; b3; b4; b5; b6; b7; b8; b9] ++ tail)
    with ([b0; b1; b2; b3] ++ [b4; b5; b6; b7; b8; b9] ++ tail).
  rewrite increment_chunk_0. fold c0.
  destruct (c0 + 1 >? 4294967295) eqn:H0; change (truthy 0) with false;
    change (truthy 1) with true; cbv iota;
    rewrite Z.gtb_ltb in H0; [apply Z.ltb_lt in H0 | apply Z.ltb_ge in H0].
  2:{ f_equal; [|symmetry; apply Z.div_small; lia].
      change (le_split 4 (c0 + 1) ++ [b4; b5; b6; b7; b8; b9] ++ tail)
        with ((le_split 4 (c0 + 1) ++ [b4; b5; b6; b7] ++ [b8; b9]) ++ tail).
      apply counter_bytes; [reflexivity|].
      rewrite !le_combine_app_add, le_combine_split, length_le_split. cbn [length].
      fold c1 c2. change (Z.of_nat 4 * 8) with 32.
      rewrite (Z.mod_small (c0 + 1)), (Z.mod_small (R + 1)) by lia. lia. }
  assert (Hw : le_combine (le_split 4 (c0 + 1)) = 0).
  { rewrite le_combine_split. change (Z.of_nat 4 * 8) with 32.
    replace (c0 + 1) with (2 ^ 32) by lia. reflexivity. }
  name_bytes4 (c0 + 1) w0 w1 w2 w3.
  change ([w0; w1; w2; w3] ++ [b4; b5; b6; b7; b8; b9] ++ tail)
    with ([w0; w1; w2; w3; b4; b5; b6; b7] ++ [b8; b9] ++ tail).
  rewrite increment_chunk_4. fold c1.
  destruct (c1 + 1 >? 4294967295) eqn:H1; change (truthy 0) with false;
    change (truthy 1) with true; cbv iota;
    rewrite Z.gtb_ltb in H1; [apply Z.ltb_lt in H1 | apply Z.ltb_ge in H1].
  2:{ f_equal; [|symmetry; apply Z.div_small; lia].
      change ([w0; w1; w2; w3] ++ le_split 4 (c1 + 1) ++ [b8; b9] ++ tail)
        with (([w0; w1; w2; w3] ++ le_split 4 (c1 + 1) ++ [b8; b9]) ++ tail).
      apply counter_bytes; [reflexivity|].
      rewrite !le_combine_app_add, le_combine_split, length_le_split, Hw. cbn [length].
      fold c2. change (Z.of_nat 4 * 8) with 32.
      rewrite (Z.mod_small (c1 + 1)), (Z.mod_small (R + 1)) by lia. lia. }
  assert (Hv : le_combine (le_split 4 (c1 + 1)) = 0).
  { rewrite le_combine_split. change (Z.of_nat 4 * 8) with 32.
    replace (c1 + 1) with (2 ^ 32) by lia. reflexivity. }
  name_bytes4 (c1 + 1) v0 v1 v2 v3.
  change ([w0; w1; w2; w3] ++ [v0; v1; v2; v3] ++ [b8; b9] ++ tail)
    with ([w0; w1; w2; w3; v0; v1; v2; v3; b8; b9] ++ tail).
  rewrite increment_chunk_8. fold c2.
  f_equal.
  - change ([w0; w1; w2; w3; v0; v1; v2; v3] ++ le_split 2 (c2 + 1) ++ tail)
      with (([w0; w1; w2; w3] ++ [v0; v1; v2; v3] ++ le_split 2 (c2 + 1)) ++ tail).
    apply counter_bytes; [reflexivity|].
    rewrite !le_combine_app_add, le_combine_split, Hw, Hv. cbn [length].
    change (Z.of_nat 4 * 8) with 32. change (Z.of_nat 2 * 8) with 16.
    Z.div_mod_to_equations. lia.
  - rewrite Z.shiftr_div_pow2 by lia. Z.div_mod_to_equations. lia.
Qed.

(** The ten bytes of the counter, named one by one. *)
Ltac name_bytes10 X :=
  let E := fresh "E" in
  let w := fresh "w" in
  pose proof (length_le_split 10 X) as E;
  remember (le_split 10 X) as w eqn:?;
  destruct w as [|? [|? [|? [|? [|? [|? [|? [|? [|? [|? [|? ?]]]]]]]]]]];
  try discriminate E; clear E.

(** The value [id] assembles from a buffer holding the counter [X] and the
    timestamp [ts]. *)
Lemma id_value X ts :
  0 <= X < 2 ^ 80 ->
  Z.lor (Z.shiftl
           (le_combine (le_split 2 (Z.shiftr X 64)
                        ++ le_split 2 (Z.land ts (Z.ones 16))
                        ++ le_split 4 (Z.land (Z.shiftr ts 16) (Z.ones 32)))) 64)
        (le_combine (le_split 8 X))
  = Z.lor (Z.shiftl (ts mod 2 ^ 48) 80) X.
Proof.
  intros HX.
  rewrite !le_combine_app, !le_combine_split, !length_le_split.
  change (Z.of_nat 2 * 8) with 16. change (Z.of_nat 4 * 8) with 32.
  change (Z.of_nat 8 * 8) with 64.
  rewrite <- (Z.mod_small X (2 ^ 80)) by lia. bits.
Qed.

(** What [id] does once the timestamp [ts] and the counter [base] it
    starts from are settled. *)
Lemma id_from_counter (ts base : Z) (tail : list byte) :
  length tail = 6%nat -> 0 <= base < 2 ^ 80 ->
  (let '(buf, carry) := increment_loop [0; 4; 8]%nat (le_split 10 base ++ tail) 1 in
   if truthy carry then (buf, None)
   else
     let buf := setUint32 (setUint16 buf 10 (Z.land ts 0xFFFF)) 12
                  (Z.land (Z.shiftr ts 16) 0xFFFFFFFF) in
     (buf, Some (Z.lor (Z.shiftl (getBigUint64 buf 8) 64) (getBigUint64 buf 0))))
  = if base + 1 <? 2 ^ 80
    then (le_split 10 (base + 1) ++ le_split 2 (Z.land ts 0xFFFF)
            ++ le_split 4 (Z.land (Z.shiftr ts 16) 0xFFFFFFFF),
          Some (Z.lor (Z.shiftl (ts mod 2 ^ 48) 80) (base + 1)))
    else (le_split 10 0 ++ tail, None).
Proof.
  intros Hlen Hbase.
  destruct tail as [|t0 [|t1 [|t2 [|t3 [|t4 [|t5 [|? ?]]]]]]]; try discriminate Hlen.
  assert (Hcomb : le_combine (le_split 10 base) = base).
  { rewrite le_combine_split. apply Z.mod_small. change (Z.of_nat 10 * 8) with 80. lia. }
  name_bytes10 base.
  rewrite increment_loop_counter. cbv zeta. rewrite Hcomb.
  destruct (base + 1 <? 2 ^ 80) eqn:Hlt; [apply Z.ltb_lt in Hlt | apply Z.ltb_ge in Hlt].
  - rewrite (Z.div_small (base + 1)), (Z.mod_small (base + 1)) by lia.
    change (truthy 0) with false. cbv iota.
    f_equal. f_equal.
    rewrite <- (id_value (base + 1) ts) by lia. reflexivity.
  - assert (Hfull : base + 1 = 2 ^ 80) by lia. rewrite Hfull.
    change (2 ^ 80 / 2 ^ 80) with 1. change (2 ^ 80 mod 2 ^ 80) with 0.
    reflexivity.
Qed.

(** One call of [id] on a state whose buffer holds the counter [R]. *)
Lemma id_step (last R : Z) (tail : list byte) (now rnd : Z) :
  length tail = 6%nat -> 0 <= R < 2 ^ 80 ->
  let ts := if now <=? last then last else now in
  let base := if now <=? last then R else rnd mod 2 ^ 80 in
  id (mkIdState last (le_split 10 R ++ tail)) now rnd
  = if base + 1 <? 2 ^ 80
    then (mkIdState ts (le_split 10 (base + 1) ++ le_split 2 (Z.land ts 0xFFFF)
                          ++ le_split 4 (Z.land (Z.shiftr ts 16) 0xFFFFFFFF)),
          Some (Z.lor (Z.shiftl (ts mod 2 ^ 48) 80) (base + 1)))
    else (mkIdState ts (le_split 10 0 ++ tail), None).
Proof.
  intros Hlen HR ts base.
  assert (Hbase : 0 <= base < 2 ^ 80).
  { subst base. destruct (now <=? last); [exact HR | apply Z.mod_pos_bound; lia]. }
  pose proof (id_from_counter ts base tail Hlen Hbase) as Hcore.
  unfold id. cbn [idLastTimestamp idArray].
  assert (Hbuf : (if now <=? last
                  then (last, last, le_split 10 R ++ tail)
                  else (now, now, setUint 10 (le_split 10 R ++ tail) 0 rnd))
                 = (ts, ts, le_split 10 base ++ tail)).
  { subst ts base. destruct (now <=? last); [reflexivity|].
    f_equal. unfold setUint. rewrite <- le_split_mod.
    destruct tail as [|t0 [|t1 [|t2 [|t3 [|t4 [|t5 [|? ?]]]]]]]; try discriminate Hlen.
    reflexivity. }
  rewrite Hbuf.
  set (wrap := fun p : list byte * option Z => (mkIdState ts (fst p), snd p)).
  match type of Hcore with
  | ?lhs = _ => transitivity (wrap lhs)
  end.
  - destruct (increment_loop [0; 4; 8]%nat (le_split 10 base ++ tail) 1) as [buf carry].
    destruct (truthy carry); reflexivity.
  - rewrite Hcore. destruct (base + 1 <? 2 ^ 80); reflexivity.
Qed.

(** The state of the generator always holds a counter below [2 ^ 80] in
    its first ten bytes. *)
Lemma id_initial_counter : id_initial = mkIdState 0 (le_split 10 0 ++ repeat Byte.x00 6).
Proof. reflexivity. Qed.

Lemma id_value_sum ts X :
  0 <= ts < 2 ^ 48 -> 0 <= X < 2 ^ 80 ->
  Z.lor (Z.shiftl (ts mod 2 ^ 48) 80) X = ts * 2 ^ 80 + X.
Proof.
  intros Hts HX. rewrite Z.mod_small by lia. rewrite Z.lor_comm.
  rewrite lor_shiftl_add by lia. lia.
Qed.

(** While no call has thrown, every identifier returned is above the one
    the state comes from, and the identifiers returned increase strictly. *)
Lemma id_calls_increasing (inputs : list (Z * Z)) :
  forall (last R : Z) (tail : list byte) (ids : list Z),
    length tail = 6%nat -> 0 <= R < 2 ^ 80 -> 0 <= last < 2 ^ 48 ->
    Forall (fun input => 0 <= fst input < 2 ^ 48) inputs ->
    id_calls (mkIdState last (le_split 10 R ++ tail)) inputs = map Some ids ->
    Forall (fun x => last * 2 ^ 80 + R < x) ids /\ StronglySorted Z.lt ids.
Proof.
  induction inputs as [|[now rnd] inputs IH]; intros last R tail ids Hlen HR Hlast Hin Hcalls.
  - destruct ids; [|discriminate]. split; constructor.
  - inversion Hin as [|? ? Hnow Hrest]; subst. cbn [fst] in Hnow.
    cbn [id_calls] in Hcalls. rewrite (id_step last R tail now rnd Hlen HR) in Hcalls.
    cbv zeta in Hcalls.
    set (ts := if now <=? last then last else now) in *.
    set (base := if now <=? last then R else rnd mod 2 ^ 80) in *.
    assert (Hbase : 0 <= base < 2 ^ 80).
    { subst base. destruct (now <=? last); [exact HR | apply Z.mod_pos_bound; lia]. }
    assert (Hts : 0 <= ts < 2 ^ 48) by (subst ts; destruct (now <=? last); lia).
    destruct (base + 1 <? 2 ^ 80) eqn:Hlt; [apply Z.ltb_lt in Hlt|].
    2:{ destruct ids; discriminate. }
    destruct ids as [|a ids]; [discriminate|]. cbn [map] in Hcalls.
    injection Hcalls as Ha Hcalls'.
    rewrite id_value_sum in Ha by lia.
    assert (Hfloor : last * 2 ^ 80 + R < a).
    { subst a ts base. destruct (now <=? last) eqn:Hcmp.
      - lia.
      - apply Z.leb_gt in Hcmp. nia. }
    destruct (IH ts (base + 1)
                (le_split 2 (Z.land ts 0xFFFF) ++ le_split 4 (Z.land (Z.shiftr ts 16) 0xFFFFFFFF))
                ids) as [Habove Hsorted]; try assumption; try lia.
    { reflexivity. }
    split.
    + constructor; [exact Hfloor|].
      eapply Forall_impl; [exact Habove|]. simpl. intros x Hx. lia.
    + constructor; [exact Hsorted|].
      eapply Forall_impl; [exact Habove|]. simpl. intros x Hx. lia.
Qed.

(** While no call has thrown, the identifiers returned since the initial
    state increase strictly, for clock readings that fit in 48 bits. *)
Lemma id_monotonic_until_overflow (inputs : list (Z * Z)) (ids : list Z) :
  Forall (fun input => 0 <= fst input < 2 ^ 48) inputs ->
  id_calls id_initial inputs = map Some ids ->
  StronglySorted Z.lt ids.
Proof.
  intros Hin Hcalls. rewrite id_initial_counter in Hcalls.
  eapply (id_calls_increasing inputs 0 0 (repeat Byte.x00 6) ids); try eassumption;
    try reflexivity; lia.
Qed.

(** A call throws exactly when the counter it starts from is
    [2 ^ 80 - 1]. *)
Lemma id_throws_iff (last R : Z) (tail : list byte) (now rnd : Z) :
  length tail = 6%nat -> 0 <= R < 2 ^ 80 ->
  snd (id (mkIdState last (le_split 10 R ++ tail)) now rnd) = None <->
  (if now <=? last then R else rnd mod 2 ^ 80) = 2 ^ 80 - 1.
Proof.
  intros Hlen HR. rewrite (id_step last R tail now rnd Hlen HR). cbv zeta.
  set (base := if now <=? last then R else rnd mod 2 ^ 80).
  assert (Hbase : 0 <= base < 2 ^ 80).
  { subst base. destruct (now <=? last); [exact HR | apply Z.mod_pos_bound; lia]. }
  destruct (base + 1 <? 2 ^ 80) eqn:Hlt; [apply Z.ltb_lt in Hlt | apply Z.ltb_ge in Hlt];
    cbn [snd]; split; intros H; try discriminate; try reflexivity; lia.
Qed.

(** C7 does not hold of the code. A call that throws has already written
    the wrapped counter (all zero) back into the buffer, so a later call in the
    same millisecond returns an identifier below the ones returned before the
    throw: with the counter drawn as [2 ^ 80 - 2], three calls in one
    millisecond return [t * 2 ^ 80 + (2 ^ 80 - 1)], then throw, then return
    [t * 2 ^ 80 + 1]. *)
Theorem id_not_monotonic_after_overflow :
  let now := 1700000000000 in
  id_calls id_initial [(now, 2 ^ 80 - 2); (now, 0); (now, 0)]
  = [Some (now * 2 ^ 80 + (2 ^ 80 - 1)); None; Some (now * 2 ^ 80 + 1)]
  /\ now * 2 ^ 80 + 1 < now * 2 ^ 80 + (2 ^ 80 - 1).
Proof. vm_compute. split; reflexivity. Qed.

(** ** Further properties of the code *)

(** *** The outcomes of one pass through the loop of [createTransfers] *)

Lemma wouldOverflowAccount_not_ok a x y e :
  wouldOverflowAccount a x y = Some e -> e <> CreateTransferError.ok.
Proof.
  unfold wouldOverflowAccount. cbv zeta. case_ifs; intros H; inversion H; discriminate.
Qed.

Lemma validateTransferExists_not_ok e n :
  validateTransferExists e n <> CreateTransferError.ok.
Proof. unfold validateTransferExists. case_ifs; discriminate. Qed.

Lemma validateAccountExists_not_ok e n :
  validateAccountExists e n <> CreateAccountError.ok.
Proof. unfold validateAccountExists. case_ifs; discriminate. Qed.

Lemma pending_lookup_set_amount db x t :
  pending_lookup db (set_amount x t) = pending_lookup db t.
Proof. reflexivity. Qed.

Lemma createTransfers_step_missing_account now i st t :
  validateTransfer t = CreateTransferError.ok ->
  lookupTransfer (l_db st) (t_id t) = None ->
  lookupAccount (l_db st) (t_debit_account_id t) = None \/
  lookupAccount (l_db st) (t_credit_account_id t) = None ->
  createTransfers_step now i st t
  = push (mkTransfersError i
            (match lookupAccount (l_db st) (t_debit_account_id t) with
             | None => CreateTransferError.debit_account_not_found
             | Some _ => CreateTransferError.credit_account_not_found
             end)) st.
Proof.
  intros Hv Hnew Hmiss. unfold createTransfers_step. rewrite Hv, Hnew. cbn [negb transfer_ok].
  destruct (lookupAccount (l_db st) (t_debit_account_id t)) as [d|] eqn:Hd.
  - destruct Hmiss as [Hmiss|Hmiss]; [discriminate|]. rewrite Hmiss.
    repeat match goal with
           | |- context [if truthy ?b then _ else _] => destruct (truthy b)
           | |- context [match lookupTransfer ?a ?b with _ => _ end] => destruct (lookupTransfer a b)
           end; reflexivity.
  - repeat match goal with
           | |- context [if truthy ?b then _ else _] => destruct (truthy b)
           | |- context [match lookupTransfer ?a ?b with _ => _ end] => destruct (lookupTransfer a b)
           end; reflexivity.
Qed.

(** Every pass ends in one of three ways: an entry is appended to the
    errors and nothing else changes; the element is skipped; or the row is
    inserted and the balances are updated. *)
Lemma createTransfers_step_cases now i st t :
  (exists e, e <> CreateTransferError.ok /\ rejection st t e /\
     createTransfers_step now i st t = push (mkTransfersError i e) st) \/
  (is_balancing t = true /\ createTransfers_step now i st t = st) \/
  (exists d c,
     validateTransfer t = CreateTransferError.ok /\
     lookupTransfer (l_db st) (t_id t) = None /\
     lookupAccount (l_db st) (t_debit_account_id t) = Some d /\
     lookupAccount (l_db st) (t_credit_account_id t) = Some c /\
     calculateBalancingAmount t d c <> 0 /\
     validateTransferAccounts (set_amount (calculateBalancingAmount t d c) t)
       (Some d) (Some c) (fst (pending_lookup (l_db st) t))
       (or_undefined (snd (pending_lookup (l_db st) t))) = CreateTransferError.ok /\
     wouldOverflowAccount d
       (if is_pending t then 0 else calculateBalancingAmount t d c) 0 = None /\
     wouldOverflowAccount c 0
       (if is_pending t then 0 else calculateBalancingAmount t d c) = None /\
     createTransfers_step now i st t
     = let row := accepted_row now st t d c in
       mkLoop (updateAccountBalances row (insert_transfer row (l_db st)))
              (l_errors st) (t_timestamp row)).
Proof.
  unfold rejection. cbv zeta.
  destruct (transfer_ok (validateTransfer t)) eqn:Hok.
  2: { left. exists (validateTransfer t). split; [|split].
       - intros H. rewrite H in Hok. discriminate.
       - left. reflexivity.
       - apply createTransfers_step_invalid. intros H. rewrite H in Hok. discriminate. }
  apply transfer_ok_true in Hok.
  destruct (lookupTransfer (l_db st) (t_id t)) as [x|] eqn:Hnew.
  { left. eexists. split; [apply validateTransferExists_not_ok|]. split.
    - right. split; [exact Hok|]. left. exists x. split; reflexivity.
    - apply createTransfers_step_exists; assumption. }
  destruct (lookupAccount (l_db st) (t_debit_account_id t)) as [d|] eqn:Hd.
  2: { left. eexists. split; [|split].
       2: { right. split; [exact Hok|]. right. split; reflexivity. }
       - discriminate.
       - rewrite createTransfers_step_missing_account by auto. rewrite Hd. reflexivity. }
  destruct (lookupAccount (l_db st) (t_credit_account_id t)) as [c|] eqn:Hc.
  2: { left. eexists. split; [|split].
       2: { right. split; [exact Hok|]. right. split; reflexivity. }
       - discriminate.
       - rewrite createTransfers_step_missing_account by auto. rewrite Hd. reflexivity. }
  destruct (Z.eq_dec (calculateBalancingAmount t d c) 0) as [Hz|Hnz].
  { destruct (is_balancing t) eqn:Hb.
    - right; left. split; [reflexivity|].
      eapply createTransfers_step_balancing_zero; eassumption.
    - rewrite calculateBalancingAmount_not_balancing in Hz by assumption.
      apply validateTransfer_ok_amount in Hok. tauto. }
  rewrite (createTransfers_step_balancing now i st t d c) by assumption.
  unfold process_resolved. rewrite pending_lookup_set_amount.
  destruct (pending_lookup (l_db st) t) as [p s] eqn:Hp. cbn [fst snd].
  set (r := set_amount (calculateBalancingAmount t d c) t).
  change (is_pending r) with (is_pending t).
  change (t_amount r) with (calculateBalancingAmount t d c).
  destruct (transfer_ok (validateTransferAccounts r (Some d) (Some c) p (or_undefined s)))
    eqn:Hva; cbn [negb].
  2: { left. eexists. split; [|split; [|reflexivity]].
       - intros H. rewrite H in Hva. discriminate.
       - right. split; [exact Hok|]. right. split; [reflexivity|]. split; [exact Hnz|].
         left. reflexivity. }
  apply transfer_ok_true in Hva.
  destruct (wouldOverflowAccount d _ 0) as [e|] eqn:Hod.
  { left. exists e. split; [eapply wouldOverflowAccount_not_ok; eassumption|].
    split; [|reflexivity].
    right. split; [exact Hok|]. right. split; [reflexivity|]. split; [exact Hnz|].
    right; left. reflexivity. }
  destruct (wouldOverflowAccount c 0 _) as [e|] eqn:Hoc.
  { left. exists e. split; [eapply wouldOverflowAccount_not_ok; eassumption|].
    split; [|reflexivity].
    right. split; [exact Hok|]. right. split; [reflexivity|]. split; [exact Hnz|].
    right; right. reflexivity. }
  right; right. exists d, c. repeat split; auto.
Qed.

(** *** The outcomes of one pass through the loop of [createAccounts] *)

Lemma createAccounts_step_cases now i st a :
  (exists e, e <> CreateAccountError.ok /\
     createAccounts_step now i st a = push (mkAccountsError i e) st) \/
  (validateAccount a = CreateAccountError.ok /\
   lookupAccount (l_db st) (a_id a) = None /\
   createAccounts_step now i st a
   = let ts := next_timestamp now (l_lastTimestamp st) in
     mkLoop (mkStore (<[a_id a := set_account_timestamp ts a]> (accounts (l_db st)))
                     (transfers (l_db st)) (pending_transfers (l_db st))
                     (account_balances (l_db st)))
            (l_errors st) ts).
Proof.
  unfold createAccounts_step.
  destruct (account_ok (validateAccount a)) eqn:Hok; cbn [negb].
  - apply account_ok_true in Hok.
    destruct (lookupAccount (l_db st) (a_id a)) as [x|] eqn:Hnew.
    + left. eexists. split; [apply validateAccountExists_not_ok|reflexivity].
    + right. auto.
  - left. eexists. split; [|reflexivity]. intros H. rewrite H in Hok. discriminate.
Qed.

(** *** The list of results *)

Lemma batch_loop_errors {A E : Type} (index : E -> nat) (good : E -> Prop)
    (step : Z -> nat -> Loop E -> A -> Loop E) clock :
  (forall now i st x,
     l_errors (step now i st x) = l_errors st \/
     exists e, l_errors (step now i st x) = l_errors st ++ [e] /\ index e = i /\ good e) ->
  forall batch i st,
  exists suffix,
    l_errors (batch_loop step clock i batch st) = l_errors st ++ suffix /\
    StronglySorted (fun e1 e2 => (index e1 < index e2)%nat) suffix /\
    Forall (fun e => (i <= index e < i + length batch)%nat /\ good e) suffix.
Proof.
  intros Hstep. induction batch as [|x rest IH]; intros i st.
  - exists []. cbn [batch_loop]. rewrite app_nil_r. repeat split; constructor.
  - cbn [batch_loop length].
    destruct (IH (S i) (step (clock i) i st x)) as (suffix & Heq & Hsorted & Hall).
    destruct (Hstep (clock i) i st x) as [Hsame | (e & Hpush & Hidx & Hgood)].
    + exists suffix. rewrite Heq, Hsame. repeat split; auto.
      eapply Forall_impl; [exact Hall|]. cbv beta. intros ? [? ?]. split; [lia|assumption].
    + exists (e :: suffix). rewrite Heq, Hpush, <- app_assoc. repeat split.
      * constructor; [exact Hsorted|].
        eapply Forall_impl; [exact Hall|]. cbv beta. intros ? [? ?]. lia.
      * constructor; [split; [lia|assumption]|].
        eapply Forall_impl; [exact Hall|]. cbv beta. intros ? [? ?]. split; [lia|assumption].
Qed.

(** X1: results of both batch calls: one entry at most per element, in the
    order of the batch, with an index inside the batch and a result that is
    never [ok]. *)
Theorem create_results_ordered :
  (forall clock db (batch : list Account),
     let errors := snd (createAccounts clock db batch) in
     StronglySorted (fun e1 e2 => (ae_index e1 < ae_index e2)%nat) errors /\
     Forall (fun e => (ae_index e < length batch)%nat /\
                      ae_result e <> CreateAccountError.ok) errors) /\
  (forall clock db (batch : list Transfer),
     let errors := snd (createTransfers clock db batch) in
     StronglySorted (fun e1 e2 => (te_index e1 < te_index e2)%nat) errors /\
     Forall (fun e => (te_index e < length batch)%nat /\
                      te_result e <> CreateTransferError.ok) errors).
Proof.
  split; intros clock db batch.
  - destruct (batch_loop_errors ae_index (fun e => ae_result e <> CreateAccountError.ok)
                createAccounts_step clock) with (batch := batch) (i := 0%nat)
                (st := mkLoop db (@nil CreateAccountsError) 0)
      as (suffix & Heq & Hsorted & Hall).
    + intros now i st a.
      destruct (createAccounts_step_cases now i st a) as [(e & Hne & ->) | (_ & _ & ->)].
      * right. exists (mkAccountsError i e). auto.
      * left. reflexivity.
    + cbn [l_errors app] in Heq. unfold createAccounts. cbn [snd]. rewrite Heq.
      split; [exact Hsorted|].
      eapply Forall_impl; [exact Hall|]. cbv beta. intros ? [? ?]. split; [lia|assumption].
  - destruct (batch_loop_errors te_index (fun e => te_result e <> CreateTransferError.ok)
                createTransfers_step clock) with (batch := batch) (i := 0%nat)
                (st := mkLoop db (@nil CreateTransfersError) 0)
      as (suffix & Heq & Hsorted & Hall).
    + intros now i st t.
      destruct (createTransfers_step_cases now i st t)
        as [(e & Hne & _ & ->) | [(_ & ->) | (d & c & _ & _ & _ & _ & _ & _ & _ & _ & ->)]].
      * right. exists (mkTransfersError i e). auto.
      * left. reflexivity.
      * left. reflexivity.
    + cbn [l_errors app] in Heq. unfold createTransfers. cbn [snd]. rewrite Heq.
      split; [exact Hsorted|].
      eapply Forall_impl; [exact Hall|]. cbv beta. intros ? [? ?]. split; [lia|assumption].
Qed.

(** *** Timestamps *)

Lemma next_timestamp_gt now last : last < next_timestamp now last.
Proof. unfold next_timestamp. cbv zeta. destruct (_ <=? _) eqn:H; bools_to_props; lia. Qed.

Lemma batch_loop_lastTimestamp {A E : Type} (step : Z -> nat -> Loop E -> A -> Loop E) clock :
  (forall now i st x, l_lastTimestamp st <= l_lastTimestamp (step now i st x)) ->
  forall batch i st, l_lastTimestamp st <= l_lastTimestamp (batch_loop step clock i batch st).
Proof.
  intros Hstep. induction batch as [|x rest IH]; intros i st; cbn [batch_loop].
  - lia.
  - specialize (IH (S i) (step (clock i) i st x)). specialize (Hstep (clock i) i st x). lia.
Qed.

Lemma createAccounts_step_lastTimestamp now i st a :
  l_lastTimestamp st <= l_lastTimestamp (createAccounts_step now i st a).
Proof.
  pose proof (next_timestamp_gt now (l_lastTimestamp st)).
  destruct (createAccounts_step_cases now i st a) as [(e & _ & ->) | (_ & _ & ->)];
    cbv zeta; cbn [push l_lastTimestamp]; lia.
Qed.

Lemma createTransfers_step_lastTimestamp now i st t :
  l_lastTimestamp st <= l_lastTimestamp (createTransfers_step now i st t).
Proof.
  pose proof (next_timestamp_gt now (l_lastTimestamp st)).
  destruct (createTransfers_step_cases now i st t)
    as [(e & Hne & _ & ->) | [(_ & ->) | (d & c & _ & _ & _ & _ & _ & _ & _ & _ & ->)]];
    cbv zeta; cbn [push l_lastTimestamp accepted_row set_transfer_timestamp t_timestamp]; lia.
Qed.

(** *** What [createAccounts] stores *)

Lemma validateAccount_ok_fields (a : Account) :
  validateAccount a = CreateAccountError.ok ->
  a_id a <> 0 /\ a_id a < 2 ^ 128 - 1 /\ a_timestamp a = 0 /\ a_reserved a = 0 /\
  a_ledger a <> 0 /\ a_code a <> 0 /\
  a_debits_pending a = 0 /\ a_debits_posted a = 0 /\
  a_credits_pending a = 0 /\ a_credits_posted a = 0.
Proof.
  unfold validateAccount. cbv zeta.
  case_ifs; try discriminate; intros _; bools_to_props; repeat split; assumption || lia.
Qed.

Lemma createAccounts_step_tables now i st a :
  transfers (l_db (createAccounts_step now i st a)) = transfers (l_db st) /\
  pending_transfers (l_db (createAccounts_step now i st a)) = pending_transfers (l_db st) /\
  account_balances (l_db (createAccounts_step now i st a)) = account_balances (l_db st).
Proof.
  destruct (createAccounts_step_cases now i st a) as [(e & _ & ->) | (_ & _ & ->)];
    repeat split; reflexivity.
Qed.

Lemma createAccounts_step_keeps now i st a id x :
  lookupAccount (l_db st) id = Some x ->
  lookupAccount (l_db (createAccounts_step now i st a)) id = Some x.
Proof.
  intros Hx.
  destruct (createAccounts_step_cases now i st a) as [(e & _ & ->) | (_ & Hnew & ->)].
  - exact Hx.
  - cbv zeta. cbn [l_db]. unfold lookupAccount in *. cbn [accounts].
    rewrite lookup_insert_ne; [exact Hx|]. intros Heq. rewrite Heq in Hnew. congruence.
Qed.

Lemma createAccounts_loop_keeps clock (batch : list Account) id x :
  forall i st,
    lookupAccount (l_db st) id = Some x ->
    lookupAccount (l_db (batch_loop createAccounts_step clock i batch st)) id = Some x.
Proof.
  induction batch as [|a rest IH]; intros i st Hx; cbn [batch_loop].
  - exact Hx.
  - apply IH, createAccounts_step_keeps, Hx.
Qed.

Lemma createAccounts_loop_tables clock (batch : list Account) :
  forall i st,
    let st' := batch_loop createAccounts_step clock i batch st in
    transfers (l_db st') = transfers (l_db st) /\
    pending_transfers (l_db st') = pending_transfers (l_db st) /\
    account_balances (l_db st') = account_balances (l_db st).
Proof.
  induction batch as [|a rest IH]; intros i st; cbn [batch_loop].
  - auto.
  - cbv zeta. destruct (IH (S i) (createAccounts_step (clock i) i st a)) as (H1 & H2 & H3).
    destruct (createAccounts_step_tables (clock i) i st a) as (H4 & H5 & H6).
    cbv zeta in H1, H2, H3. rewrite H1, H2, H3. auto.
Qed.

(** The rows the loop adds: each is an element of the batch that passed
    [validateAccount], stored under its own id with a fresh timestamp. *)
Lemma createAccounts_loop_new_rows clock (P : Account -> Prop) orig :
  forall (batch : list Account) i st,
    Forall P batch ->
    0 <= l_lastTimestamp st ->
    (forall id a, lookupAccount orig id = None -> lookupAccount (l_db st) id = Some a ->
       0 < a_timestamp a <= l_lastTimestamp st /\
       exists x, P x /\ validateAccount x = CreateAccountError.ok /\ a_id x = id /\
                 a = set_account_timestamp (a_timestamp a) x) ->
    let st' := batch_loop createAccounts_step clock i batch st in
    forall id a, lookupAccount orig id = None -> lookupAccount (l_db st') id = Some a ->
      0 < a_timestamp a /\
      exists x, P x /\ validateAccount x = CreateAccountError.ok /\ a_id x = id /\
                a = set_account_timestamp (a_timestamp a) x.
Proof.
  induction batch as [|b rest IH]; intros i st HP Hlast Hnew; cbn [batch_loop]; cbv zeta.
  - intros id a Ho Ha. destruct (Hnew id a Ho Ha) as [? ?]. split; [lia|assumption].
  - inversion HP as [|? ? HPb HPrest]; subst.
    pose proof (next_timestamp_gt (clock i) (l_lastTimestamp st)) as Hgt.
    apply IH; [exact HPrest| |].
    + destruct (createAccounts_step_cases (clock i) i st b) as [(e & _ & ->) | (_ & _ & ->)].
      * exact Hlast.
      * cbv zeta. cbn [l_lastTimestamp]. lia.
    + intros id a Ho Ha.
      destruct (createAccounts_step_cases (clock i) i st b)
        as [(e & _ & Hs) | (Hv & Hfresh & Hs)]; rewrite Hs in Ha |- *.
      * exact (Hnew id a Ho Ha).
      * cbv zeta in Ha |- *. cbn [l_db l_lastTimestamp] in Ha |- *.
        unfold lookupAccount in Ha. cbn [accounts] in Ha.
        destruct (decide (a_id b = id)) as [Heq|Hne].
        -- rewrite Heq, lookup_insert_eq in Ha. inversion Ha; subst a.
           cbn [a_timestamp set_account_timestamp].
           split; [lia|]. exists b. repeat split; auto.
        -- rewrite lookup_insert_ne in Ha by exact Hne.
           destruct (Hnew id a Ho Ha) as [? ?]. split; [lia|assumption].
Qed.

(** X2: [createAccounts] leaves the other tables and every stored account as
    they are; a row it adds has zero balances, a positive timestamp, and is
    otherwise the validated account of the batch with that id. *)
Theorem createAccounts_adds_fresh_rows clock db (batch : list Account) :
  let db' := fst (createAccounts clock db batch) in
  transfers db' = transfers db /\
  pending_transfers db' = pending_transfers db /\
  account_balances db' = account_balances db /\
  (forall id a, lookupAccount db id = Some a -> lookupAccount db' id = Some a) /\
  (forall id a, lookupAccount db id = None -> lookupAccount db' id = Some a ->
     balances db' id = Some (0, 0, 0, 0) /\ 0 < a_timestamp a /\
     exists x, In x batch /\ validateAccount x = CreateAccountError.ok /\ a_id x = id /\
               a = set_account_timestamp (a_timestamp a) x).
Proof.
  cbv zeta. unfold createAccounts. cbn [fst].
  destruct (createAccounts_loop_tables clock batch 0%nat (mkLoop db [] 0)) as (H1 & H2 & H3).
  cbv zeta in H1, H2, H3. cbn [l_db] in H1, H2, H3.
  split; [exact H1|]. split; [exact H2|]. split; [exact H3|]. split.
  - intros id a Ha. apply createAccounts_loop_keeps. exact Ha.
  - pose proof (createAccounts_loop_new_rows clock (fun x => In x batch) db batch 0%nat
                  (mkLoop db [] 0)) as Hrows.
    cbv zeta in Hrows. cbn [l_db l_lastTimestamp] in Hrows.
    intros id a Ho Ha.
    destruct (Hrows (proj2 (List.Forall_forall _ _) (fun x H => H)) ltac:(lia)
                (fun id a Ho Ha => ltac:(congruence)) id a Ho Ha)
      as (Hts & x & Hin & Hv & Hid & Heq).
    split; [|split; [exact Hts | exists x; auto]].
    rewrite (balances_lookup _ _ _ Ha), Heq. cbn.
    destruct (validateAccount_ok_fields x Hv) as (_ & _ & _ & _ & _ & _ & -> & -> & -> & ->).
    reflexivity.
Qed.

Lemma createAccounts_adds_fresh_rows_witness :
  let a := mkAccount 9 0 0 0 0 0 0 0 0 1 1 AccountFlags.history 0 in
  balances (fst (createAccounts (fun _ => 5) empty_store [a])) 9 = Some (0, 0, 0, 0).
Proof.
  intros a.
  refine (proj1 (proj2 (proj2 (proj2 (proj2
            (createAccounts_adds_fresh_rows (fun _ => 5) empty_store [a])))) 9
            (set_account_timestamp 5000000 a) _ _)).
  - reflexivity.
  - vm_compute. reflexivity.
Defined.

Lemma createAccounts_step_result now i st a :
  l_errors (createAccounts_step now i st a) = l_errors st \/
  exists e, l_errors (createAccounts_step now i st a) = l_errors st ++ [e] /\
            ae_index e = i /\ ae_result e <> CreateAccountError.ok.
Proof.
  destruct (createAccounts_step_cases now i st a) as [(e & Hne & ->) | (_ & _ & ->)].
  - right. exists (mkAccountsError i e). auto.
  - left. reflexivity.
Qed.

Lemma createTransfers_step_result now i st t :
  l_errors (createTransfers_step now i st t) = l_errors st \/
  exists e, l_errors (createTransfers_step now i st t) = l_errors st ++ [e] /\
            te_index e = i /\ te_result e <> CreateTransferError.ok.
Proof.
  destruct (createTransfers_step_cases now i st t)
    as [(e & Hne & _ & ->) | [(_ & ->) | (d & c & _ & _ & _ & _ & _ & _ & _ & _ & ->)]].
  - right. exists (mkTransfersError i e). auto.
  - left. reflexivity.
  - left. reflexivity.
Qed.

Lemma batch_loop_split {A E : Type} (step : Z -> nat -> Loop E -> A -> Loop E) clock
    (pre post : list A) x st :
  batch_loop step clock 0%nat (pre ++ x :: post) st
  = batch_loop step clock (S (length pre)) post
      (step (clock (length pre)) (length pre) (batch_loop step clock 0%nat pre st) x).
Proof. rewrite batch_loop_app. reflexivity. Qed.

(** The entries of the result list that carry a given index come from the
    pass over the element at that index. *)
Lemma batch_loop_entries_at {A E : Type} (index : E -> nat) (good : E -> Prop)
    (step : Z -> nat -> Loop E -> A -> Loop E) clock :
  (forall now i st x,
     l_errors (step now i st x) = l_errors st \/
     exists e, l_errors (step now i st x) = l_errors st ++ [e] /\ index e = i /\ good e) ->
  forall (pre post : list A) x st,
    l_errors st = [] ->
    let before := batch_loop step clock 0%nat pre st in
    let at_x := step (clock (length pre)) (length pre) before x in
    let final := batch_loop step clock 0%nat (pre ++ x :: post) st in
    forall e, index e = length pre ->
      (In e (l_errors final) <-> l_errors at_x = l_errors before ++ [e]).
Proof.
  intros Hstep pre post x st Hnil before at_x final e Hidx.
  destruct (batch_loop_errors index good step clock Hstep pre 0%nat st)
    as (s1 & Heq1 & _ & Hall1).
  destruct (batch_loop_errors index good step clock Hstep post (S (length pre)) at_x)
    as (s2 & Heq2 & _ & Hall2).
  fold before in Heq1. rewrite Hnil in Heq1. cbn [app] in Heq1.
  assert (Hfinal : l_errors final = l_errors at_x ++ s2).
  { unfold final. rewrite batch_loop_split. exact Heq2. }
  assert (Hnot1 : ~ In e s1).
  { intros Hin. rewrite List.Forall_forall in Hall1. apply Hall1 in Hin. lia. }
  assert (Hnot2 : ~ In e s2).
  { intros Hin. rewrite List.Forall_forall in Hall2. apply Hall2 in Hin. lia. }
  rewrite Hfinal.
  destruct (Hstep (clock (length pre)) (length pre) before x) as [Hsame | (e' & Hpush & _)];
    fold at_x in Hsame || fold at_x in Hpush.
  - rewrite Hsame, Heq1. split.
    + intros Hin. apply in_app_or in Hin. tauto.
    + intros Heq. apply (f_equal (@length E)) in Heq. rewrite length_app in Heq.
      cbn [length] in Heq. lia.
  - rewrite Hpush, Heq1. split.
    + intros Hin. apply in_app_or in Hin. destruct Hin as [Hin|Hin]; [|tauto].
      apply in_app_or in Hin. destruct Hin as [Hin|Hin]; [tauto|].
      destruct Hin as [->|[]]. reflexivity.
    + intros Heq. apply app_inv_head in Heq. inversion Heq; subst e'.
      apply in_or_app. left. apply in_or_app. right. left. reflexivity.
Qed.

(** X3: every element of a [createAccounts] batch is answered: it is reported
    with the result of [validateAccount], or reported with the result of
    [validateAccountExists] against the row found, or stored unchanged apart
    from its timestamp. *)
Theorem createAccounts_reported_or_stored clock db (pre post : list Account) x :
  let result := createAccounts clock db (pre ++ x :: post) in
  let st := accounts_state_after clock db pre in
  let reported e := In (mkAccountsError (length pre) e) (snd result) in
  (validateAccount x <> CreateAccountError.ok /\
   forall e, reported e <-> e = validateAccount x) \/
  (validateAccount x = CreateAccountError.ok /\
   exists existing,
     lookupAccount (l_db st) (a_id x) = Some existing /\
     lookupAccount (fst result) (a_id x) = Some existing /\
     forall e, reported e <-> e = validateAccountExists existing x) \/
  (validateAccount x = CreateAccountError.ok /\
   lookupAccount (l_db st) (a_id x) = None /\
   (forall e, ~ reported e) /\
   exists ts, 0 < ts /\
     lookupAccount (fst result) (a_id x) = Some (set_account_timestamp ts x)).
Proof.
  cbv zeta. unfold createAccounts, accounts_state_after. cbn [fst snd].
  pose proof (fun e => batch_loop_entries_at ae_index _ createAccounts_step clock
                createAccounts_step_result pre post x (mkLoop db [] 0) eq_refl
                (mkAccountsError (length pre) e) eq_refl) as Hat.
  cbv zeta in Hat.
  set (before := batch_loop createAccounts_step clock 0%nat pre (mkLoop db [] 0)) in *.
  rewrite batch_loop_split. fold before.
  rewrite batch_loop_split in Hat. fold before in Hat.
  destruct (createAccounts_step_cases (clock (length pre)) (length pre) before x)
    as [(e0 & Hne & Hs) | (Hv & Hfresh & Hs)].
  - destruct (account_ok (validateAccount x)) eqn:Hok.
    + apply account_ok_true in Hok. right; left. split; [exact Hok|].
      destruct (lookupAccount (l_db before) (a_id x)) as [existing|] eqn:Hex.
      * exists existing. split; [reflexivity|]. split.
        -- apply createAccounts_loop_keeps, createAccounts_step_keeps, Hex.
        -- intros e. rewrite Hat, (createAccounts_step_exists _ _ _ _ _ Hok Hex).
           cbn [push l_errors]. split.
           ++ intros H. apply app_inv_head in H. congruence.
           ++ intros ->. reflexivity.
      * exfalso. revert Hs. unfold createAccounts_step. rewrite Hok, Hex. cbn [negb account_ok].
        intros H. apply (f_equal l_errors) in H. cbn [l_errors push] in H.
        apply (f_equal (@length _)) in H. rewrite length_app in H. cbn [length] in H. lia.
    + left. split; [intros H; rewrite H in Hok; discriminate|].
      intros e. rewrite Hat. unfold createAccounts_step. rewrite Hok. cbn [negb push l_errors].
      split.
      * intros H. apply app_inv_head in H. congruence.
      * intros ->. reflexivity.
  - right; right. split; [exact Hv|]. split; [exact Hfresh|]. split.
    + intros e. rewrite Hat, Hs. cbv zeta. cbn [l_errors]. intros H.
      apply (f_equal (@length _)) in H. rewrite length_app in H. cbn [length] in H. lia.
    + exists (next_timestamp (clock (length pre)) (l_lastTimestamp before)). split.
      * pose proof (batch_loop_lastTimestamp createAccounts_step clock
                      createAccounts_step_lastTimestamp pre 0%nat (mkLoop db [] 0)) as Hmono.
        fold before in Hmono. cbn [l_lastTimestamp] in Hmono.
        pose proof (next_timestamp_gt (clock (length pre)) (l_lastTimestamp before)). lia.
      * apply createAccounts_loop_keeps. rewrite Hs. cbv zeta. cbn [l_db].
        unfold lookupAccount. cbn [accounts]. apply lookup_insert_eq.
Qed.

(** *** What [createTransfers] does to the accounts *)

Lemma same_account_identity_refl a : same_account_identity a a.
Proof. unfold same_account_identity. tauto. Qed.

Lemma same_account_identity_trans a b c :
  same_account_identity a b -> same_account_identity b c -> same_account_identity a c.
Proof. unfold same_account_identity. intuition congruence. Qed.

Lemma debit_update_identity t a : same_account_identity a (debit_update t a).
Proof. unfold debit_update. case_ifs; unfold same_account_identity; cbn; tauto. Qed.

Lemma credit_update_identity t a : same_account_identity a (credit_update t a).
Proof. unfold credit_update. case_ifs; unfold same_account_identity; cbn; tauto. Qed.

(** The rows of [accounts] after a pass: the rows before it, or, when the
    transfer is accepted, those rows with the two updates applied. *)
Lemma createTransfers_step_accounts now i st t :
  accounts (l_db (createTransfers_step now i st t)) = accounts (l_db st) \/
  exists d c,
    validateTransfer t = CreateTransferError.ok /\
    lookupTransfer (l_db st) (t_id t) = None /\
    lookupAccount (l_db st) (t_debit_account_id t) = Some d /\
    lookupAccount (l_db st) (t_credit_account_id t) = Some c /\
    calculateBalancingAmount t d c <> 0 /\
    validateTransferAccounts (set_amount (calculateBalancingAmount t d c) t)
      (Some d) (Some c) (fst (pending_lookup (l_db st) t))
      (or_undefined (snd (pending_lookup (l_db st) t))) = CreateTransferError.ok /\
    accounts (l_db (createTransfers_step now i st t))
    = alter (credit_update (accepted_row now st t d c)) (t_credit_account_id t)
        (alter (debit_update (accepted_row now st t d c)) (t_debit_account_id t)
           (accounts (l_db st))).
Proof.
  destruct (createTransfers_step_cases now i st t)
    as [(e & _ & _ & ->) | [(_ & ->) | (d & c & Hv & Hnew & Hd & Hc & Hnz & Hva & _ & _ & ->)]].
  - left. reflexivity.
  - left. reflexivity.
  - right. exists d, c. repeat split; try assumption.
    cbv zeta. cbn [l_db]. rewrite updateAccountBalances_accounts, insert_transfer_accounts.
    reflexivity.
Qed.

Lemma lookup_two_alters (f g : Account -> Account) (kd kc id : Z) (m : gmap Z Account) :
  kd <> kc ->
  alter g kc (alter f kd m) !! id
  = if decide (id = kd) then f <$> m !! id
    else if decide (id = kc) then g <$> m !! id else m !! id.
Proof.
  intros Hne. destruct (decide (id = kd)) as [->|Hd].
  - rewrite lookup_alter_ne by congruence. apply lookup_alter_eq.
  - destruct (decide (id = kc)) as [->|Hc].
    + rewrite lookup_alter_eq, lookup_alter_ne by congruence. reflexivity.
    + rewrite !lookup_alter_ne by congruence. reflexivity.
Qed.

Lemma account_kept_refl o : account_kept o o.
Proof. destruct o; cbn; auto using same_account_identity_refl. Qed.

Lemma account_kept_trans o1 o2 o3 :
  account_kept o1 o2 -> account_kept o2 o3 -> account_kept o1 o3.
Proof.
  destruct o1, o2, o3; cbn; try tauto. apply same_account_identity_trans.
Qed.

Lemma createTransfers_step_account_kept now i st t id :
  account_kept (lookupAccount (l_db st) id)
               (lookupAccount (l_db (createTransfers_step now i st t)) id).
Proof.
  unfold lookupAccount.
  destruct (createTransfers_step_accounts now i st t)
    as [-> | (d & c & Hv & _ & _ & _ & _ & _ & ->)].
  - apply account_kept_refl.
  - rewrite lookup_two_alters by (apply validateTransfer_ok_distinct; exact Hv).
    destruct (decide (id = t_debit_account_id t)); [|destruct (decide (id = t_credit_account_id t))].
    + destruct (accounts (l_db st) !! id); cbn; auto using debit_update_identity.
    + destruct (accounts (l_db st) !! id); cbn; auto using credit_update_identity.
    + apply account_kept_refl.
Qed.

Lemma createTransfers_loop_account_kept clock (batch : list Transfer) id :
  forall i st,
    account_kept (lookupAccount (l_db st) id)
      (lookupAccount (l_db (batch_loop createTransfers_step clock i batch st)) id).
Proof.
  induction batch as [|t rest IH]; intros i st; cbn [batch_loop].
  - apply account_kept_refl.
  - eapply account_kept_trans; [apply createTransfers_step_account_kept|apply IH].
Qed.

(** X4: [createTransfers] neither adds nor removes an account, and of a
    stored account it changes nothing but the four running totals. *)
Theorem createTransfers_keeps_account_identity clock db (batch : list Transfer) (id : Z) :
  match lookupAccount db id, lookupAccount (fst (createTransfers clock db batch)) id with
  | Some a, Some a' => same_account_identity a a'
  | None, None => True
  | _, _ => False
  end.
Proof.
  exact (createTransfers_loop_account_kept clock batch id 0%nat (mkLoop db [] 0)).
Qed.

(** *** What an accepted transfer has passed *)

Ltac prune := try (let H := fresh in intro H; discriminate H).

Lemma validateTransferAccounts_ok t d c p s :
  validateTransferAccounts t (Some d) (Some c) p s = CreateTransferError.ok ->
  a_ledger d = a_ledger c /\ t_ledger t = a_ledger d /\
  truthy (js_and (a_flags d) AccountFlags.closed) = false /\
  truthy (js_and (a_flags c) AccountFlags.closed) = false /\
  canDebitAccount d (t_amount t) = true /\
  canCreditAccount c (t_amount t) = true /\
  (is_post_or_void t = true ->
   exists q, p = Some q /\ s = Some TransferPendingStatus.pending /\
     t_debit_account_id q = t_debit_account_id t /\
     t_credit_account_id q = t_credit_account_id t /\
     t_ledger q = t_ledger t /\ t_code q = t_code t /\
     (if truthy (js_and (t_flags t) TransferFlags.post_pending_transfer)
      then t_amount t <= t_amount q else t_amount t = t_amount q)).
Proof.
  unfold validateTransferAccounts, is_post_or_void. cbv zeta.
  destruct (a_ledger d =? a_ledger c) eqn:H1; cbn [negb]; prune.
  destruct (t_ledger t =? a_ledger d) eqn:H2; cbn [negb]; prune.
  destruct (truthy (js_and (a_flags d) AccountFlags.closed)) eqn:H3; prune.
  destruct (truthy (js_and (a_flags c) AccountFlags.closed)) eqn:H4; prune.
  apply Z.eqb_eq in H1, H2.
  destruct (truthy (js_and (t_flags t) (js_or _ _))) eqn:Hpv.
  - destruct p as [q|]; prune.
    destruct s as [[| | | |]|]; prune.
    destruct (t_debit_account_id q =? t_debit_account_id t) eqn:H5; cbn [negb]; prune.
    destruct (t_credit_account_id q =? t_credit_account_id t) eqn:H6; cbn [negb]; prune.
    destruct (t_ledger q =? t_ledger t) eqn:H7; cbn [negb]; prune.
    destruct (t_code q =? t_code t) eqn:H8; cbn [negb]; prune.
    apply Z.eqb_eq in H5, H6, H7, H8.
    pose proof (is_post_or_void_split t) as Hsplit. unfold is_post_or_void in Hsplit.
    rewrite Hpv in Hsplit.
    destruct (truthy (js_and (t_flags t) TransferFlags.post_pending_transfer)) eqn:Hpost.
    + destruct (t_amount t >? t_amount q) eqn:H11; prune.
      destruct (canDebitAccount d (t_amount t)) eqn:H9; cbn [negb]; prune.
      destruct (canCreditAccount c (t_amount t)) eqn:H10; cbn [negb]; prune.
      intros _. repeat split; auto. intros _. exists q. repeat split; auto.
      rewrite Z.gtb_ltb in H11. apply Z.ltb_ge in H11. exact H11.
    + cbn [orb] in Hsplit. rewrite <- Hsplit.
      destruct (t_amount t =? t_amount q) eqn:H11; cbn [negb]; prune.
      destruct (canDebitAccount d (t_amount t)) eqn:H9; cbn [negb]; prune.
      destruct (canCreditAccount c (t_amount t)) eqn:H10; cbn [negb]; prune.
      intros _. repeat split; auto. intros _. exists q. repeat split; auto.
      apply Z.eqb_eq. exact H11.
  - destruct (canDebitAccount d (t_amount t)) eqn:H9; cbn [negb]; prune.
    destruct (canCreditAccount c (t_amount t)) eqn:H10; cbn [negb]; prune.
    intros _. repeat split; auto. discriminate.
Qed.

(** *** Limits on the posted totals *)

Lemma calculateBalancingAmount_nonneg t d c :
  0 <= t_amount t -> 0 <= calculateBalancingAmount t d c.
Proof.
  intros H. unfold calculateBalancingAmount, getMaxDebitAmount, getMaxCreditAmount. cbv zeta.
  case_ifs; bools_to_props; lia.
Qed.

Ltac solve_limits acc :=
  cbn; intros [Hd Hc];
  destruct (truthy (js_and (a_flags acc) AccountFlags.debits_must_not_exceed_credits));
  destruct (truthy (js_and (a_flags acc) AccountFlags.credits_must_not_exceed_debits));
  bools_to_props; split; intros; try discriminate;
  try specialize (Hd eq_refl); try specialize (Hc eq_refl); lia.

Lemma debit_update_limits row d :
  0 <= t_amount row ->
  canDebitAccount d (t_amount row) = true ->
  balance_limits_hold d -> balance_limits_hold (debit_update row d).
Proof.
  intros Hnonneg Hcan. unfold debit_update.
  unfold balance_limits_hold, canDebitAccount in *. cbv zeta in Hcan.
  case_ifs; solve_limits d.
Qed.

Lemma credit_update_limits row c :
  0 <= t_amount row ->
  canCreditAccount c (t_amount row) = true ->
  balance_limits_hold c -> balance_limits_hold (credit_update row c).
Proof.
  intros Hnonneg Hcan. unfold credit_update.
  unfold balance_limits_hold, canCreditAccount in *. cbv zeta in Hcan.
  case_ifs; solve_limits c.
Qed.

Lemma createTransfers_step_limits now i st t id :
  0 <= t_amount t ->
  match lookupAccount (l_db st) id,
        lookupAccount (l_db (createTransfers_step now i st t)) id with
  | Some a, Some a' => balance_limits_hold a -> balance_limits_hold a'
  | None, None => True
  | _, _ => False
  end.
Proof.
  intros Hnonneg. unfold lookupAccount.
  destruct (createTransfers_step_accounts now i st t)
    as [-> | (d & c & Hv & _ & Hd & Hc & _ & Hva & ->)].
  - destruct (accounts (l_db st) !! id); auto.
  - apply validateTransferAccounts_ok in Hva.
    destruct Hva as (_ & _ & _ & _ & Hcd & Hcc & _).
    change (t_amount (set_amount (calculateBalancingAmount t d c) t))
      with (t_amount (accepted_row now st t d c)) in Hcd, Hcc.
    assert (Hrow : 0 <= t_amount (accepted_row now st t d c))
      by (apply calculateBalancingAmount_nonneg; exact Hnonneg).
    unfold lookupAccount in Hd, Hc.
    rewrite lookup_two_alters by (apply validateTransfer_ok_distinct; exact Hv).
    destruct (decide (id = t_debit_account_id t)) as [->|];
      [|destruct (decide (id = t_credit_account_id t)) as [->|]].
    + rewrite Hd. cbn. apply debit_update_limits; assumption.
    + rewrite Hc. cbn. apply credit_update_limits; assumption.
    + destruct (accounts (l_db st) !! id); auto.
Qed.

Lemma createTransfers_loop_limits clock (batch : list Transfer) id :
  Forall (fun t => 0 <= t_amount t) batch ->
  forall i st,
    match lookupAccount (l_db st) id,
          lookupAccount (l_db (batch_loop createTransfers_step clock i batch st)) id with
    | Some a, Some a' => balance_limits_hold a -> balance_limits_hold a'
    | None, None => True
    | _, _ => False
    end.
Proof.
  induction 1 as [|t rest Ht Hrest IH]; intros i st; cbn [batch_loop].
  - destruct (lookupAccount (l_db st) id); auto.
  - specialize (IH (S i) (createTransfers_step (clock i) i st t)).
    pose proof (createTransfers_step_limits (clock i) i st t id Ht) as Hstep.
    destruct (lookupAccount (l_db st) id);
      destruct (lookupAccount (l_db (createTransfers_step (clock i) i st t)) id);
      destruct (lookupAccount _ id); tauto.
Qed.

(** X5: an account flagged [debits_must_not_exceed_credits] whose posted
    debits do not exceed its posted credits keeps that through a whole batch
    of [createTransfers], and likewise for [credits_must_not_exceed_debits],
    as long as no amount of the batch is negative. *)
Theorem createTransfers_keeps_balance_limits clock db (batch : list Transfer) id a a' :
  Forall (fun t => 0 <= t_amount t) batch ->
  lookupAccount db id = Some a ->
  lookupAccount (fst (createTransfers clock db batch)) id = Some a' ->
  balance_limits_hold a ->
  balance_limits_hold a'.
Proof.
  intros Hbatch Ha Ha'.
  pose proof (createTransfers_loop_limits clock batch id Hbatch 0%nat (mkLoop db [] 0)) as H.
  cbn [l_db] in H. unfold createTransfers in Ha'. cbn [fst] in Ha'.
  rewrite Ha, Ha' in H. exact H.
Qed.

Lemma createTransfers_keeps_balance_limits_witness :
  balance_limits_hold
    (mkAccount 1 0 60 0 100 0 0 0 0 1 1 AccountFlags.debits_must_not_exceed_credits 7).
Proof.
  apply (createTransfers_keeps_balance_limits (fun _ => 5)
           (mkStore {[ 1 := mkAccount 1 0 0 0 100 0 0 0 0 1 1
                              AccountFlags.debits_must_not_exceed_credits 7;
                       2 := mkAccount 2 0 100 0 0 0 0 0 0 1 1 0 8 ]} ∅ ∅ ∅)
           [mkTransfer 10 1 2 60 0 0 0 0 0 1 1 0 0;
            mkTransfer 11 1 2 50 0 0 0 0 0 1 1 0 0] 1
           (mkAccount 1 0 0 0 100 0 0 0 0 1 1 AccountFlags.debits_must_not_exceed_credits 7)).
  - repeat constructor; cbn; lia.
  - reflexivity.
  - vm_compute. reflexivity.
  - split; cbn [a_debits_posted a_credits_posted]; intros H; [lia | vm_compute in H; discriminate H].
Defined.

(** *** Double entry *)

Lemma map_fold_alter_column (column : Account -> Z) (f : Account -> Account) (k : Z)
    (m : gmap Z Account) a :
  m !! k = Some a ->
  map_fold (fun _ a sum => column a + sum) 0 (alter f k m)
  = map_fold (fun _ a sum => column a + sum) 0 m + (column (f a) - column a).
Proof.
  intros Hk.
  assert (Hm : m = <[k := a]> (delete k m)) by (symmetry; apply insert_delete_id; exact Hk).
  assert (Halter : alter f k m = <[k := f a]> (delete k m)).
  { apply map_eq. intros j. destruct (decide (j = k)) as [->|Hne].
    - rewrite lookup_alter_eq, Hk, lookup_insert_eq. reflexivity.
    - rewrite lookup_alter_ne, lookup_insert_ne, lookup_delete_ne by congruence. reflexivity. }
  rewrite Halter. rewrite Hm at 2.
  rewrite !map_fold_insert_L; try (apply lookup_delete_eq); try (intros; lia).
Qed.

Lemma total_two_alters (column : Account -> Z) (f g : Account -> Account) (kd kc : Z)
    (db : Store) (m : gmap Z Account) d c :
  kd <> kc -> accounts db !! kd = Some d -> accounts db !! kc = Some c ->
  m = alter g kc (alter f kd (accounts db)) ->
  map_fold (fun _ a sum => column a + sum) 0 m
  = total column db + (column (f d) - column d) + (column (g c) - column c).
Proof.
  intros Hne Hd Hc ->. unfold total.
  rewrite (map_fold_alter_column column g kc _ c)
    by (rewrite lookup_alter_ne by congruence; exact Hc).
  rewrite (map_fold_alter_column column f kd _ d) by exact Hd.
  reflexivity.
Qed.

Lemma update_columns row d c :
  (a_debits_posted (debit_update row d) - a_debits_posted d)
  + (a_debits_posted (credit_update row c) - a_debits_posted c)
  = (a_credits_posted (debit_update row d) - a_credits_posted d)
    + (a_credits_posted (credit_update row c) - a_credits_posted c) /\
  (a_debits_pending (debit_update row d) - a_debits_pending d)
  + (a_debits_pending (credit_update row c) - a_debits_pending c)
  = (a_credits_pending (debit_update row d) - a_credits_pending d)
    + (a_credits_pending (credit_update row c) - a_credits_pending c).
Proof. unfold debit_update, credit_update. case_ifs; cbn; lia. Qed.

Lemma createTransfers_step_totals now i st t :
  let st' := createTransfers_step now i st t in
  total a_debits_posted (l_db st') - total a_credits_posted (l_db st')
  = total a_debits_posted (l_db st) - total a_credits_posted (l_db st) /\
  total a_debits_pending (l_db st') - total a_credits_pending (l_db st')
  = total a_debits_pending (l_db st) - total a_credits_pending (l_db st).
Proof.
  cbv zeta.
  destruct (createTransfers_step_accounts now i st t)
    as [Hsame | (d & c & Hv & _ & Hd & Hc & _ & _ & Halter)].
  - unfold total. rewrite Hsame. auto.
  - apply validateTransfer_ok_distinct in Hv. unfold lookupAccount in Hd, Hc.
    unfold total at 1 2 5 6.
    rewrite !(total_two_alters _ _ _ _ _ (l_db st) _ d c Hv Hd Hc Halter).
    pose proof (update_columns (accepted_row now st t d c) d c). lia.
Qed.

(** X6: double entry. Over a whole batch of [createTransfers] the sum of the
    posted debits of all accounts grows by exactly as much as the sum of
    their posted credits, and the same holds for the pending totals. *)
Theorem createTransfers_double_entry clock db (batch : list Transfer) :
  let db' := fst (createTransfers clock db batch) in
  total a_debits_posted db' - total a_credits_posted db'
  = total a_debits_posted db - total a_credits_posted db /\
  total a_debits_pending db' - total a_credits_pending db'
  = total a_debits_pending db - total a_credits_pending db.
Proof.
  cbv zeta. unfold createTransfers. cbn [fst].
  change db with (l_db (mkLoop db (@nil CreateTransfersError) 0)) at 3 4 7 8.
  generalize (mkLoop db (@nil CreateTransfersError) 0). generalize 0%nat.
  induction batch as [|t rest IH]; intros i st; cbn [batch_loop].
  - auto.
  - destruct (IH (S i) (createTransfers_step (clock i) i st t)) as [H1 H2].
    destruct (createTransfers_step_totals (clock i) i st t) as [H3 H4].
    cbv zeta in H3, H4. split; lia.
Qed.

(** *** The rows [createTransfers] stores *)

(** The rows of [transfers] and the last timestamp after a pass. *)
Lemma createTransfers_step_rows now i st t :
  (l_db (createTransfers_step now i st t) = l_db st /\
   l_lastTimestamp (createTransfers_step now i st t) = l_lastTimestamp st) \/
  exists d c,
    validateTransfer t = CreateTransferError.ok /\
    lookupTransfer (l_db st) (t_id t) = None /\
    lookupAccount (l_db st) (t_debit_account_id t) = Some d /\
    lookupAccount (l_db st) (t_credit_account_id t) = Some c /\
    calculateBalancingAmount t d c <> 0 /\
    validateTransferAccounts (set_amount (calculateBalancingAmount t d c) t)
      (Some d) (Some c) (fst (pending_lookup (l_db st) t))
      (or_undefined (snd (pending_lookup (l_db st) t))) = CreateTransferError.ok /\
    transfers (l_db (createTransfers_step now i st t))
    = <[t_id t := accepted_row now st t d c]> (transfers (l_db st)) /\
    l_lastTimestamp (createTransfers_step now i st t) = t_timestamp (accepted_row now st t d c) /\
    l_errors (createTransfers_step now i st t) = l_errors st.
Proof.
  destruct (createTransfers_step_cases now i st t)
    as [(e & _ & _ & ->) | [(_ & ->) | (d & c & Hv & Hnew & Hd & Hc & Hnz & Hva & _ & _ & ->)]].
  - left. split; reflexivity.
  - left. split; reflexivity.
  - right. exists d, c. repeat split; try assumption.
    cbv zeta. cbn [l_db]. rewrite updateAccountBalances_transfers, insert_transfer_transfers.
    reflexivity.
Qed.

Lemma accepted_row_timestamp now st t d c :
  l_lastTimestamp st < t_timestamp (accepted_row now st t d c) /\
  now * 1000000 <= t_timestamp (accepted_row now st t d c).
Proof.
  unfold accepted_row. cbn [t_timestamp set_transfer_timestamp].
  unfold next_timestamp. cbv zeta. destruct (_ <=? _) eqn:H; bools_to_props; lia.
Qed.

Lemma createTransfers_step_fresh_timestamps orig now i st t :
  fresh_timestamps orig st -> fresh_timestamps orig (createTransfers_step now i st t).
Proof.
  intros (Hlast & Hpos & Hinj).
  destruct (createTransfers_step_rows now i st t)
    as [[Hdb Hts] | (d & c & _ & Hnew & _ & _ & _ & _ & Hrows & Hts & _)].
  - unfold fresh_timestamps. rewrite Hdb, Hts. auto.
  - pose proof (accepted_row_timestamp now st t d c) as [Hgt _].
    unfold fresh_timestamps, lookupTransfer in *. rewrite Hrows, Hts.
    split; [lia|]. split.
    + intros id x Ho Hx. destruct (decide (id = t_id t)) as [->|Hne].
      * rewrite lookup_insert_eq in Hx. inversion Hx; subst x. lia.
      * rewrite lookup_insert_ne in Hx by congruence. specialize (Hpos id x Ho Hx). lia.
    + intros id1 id2 x1 x2 Hne Ho1 Ho2 H1 H2.
      destruct (decide (id1 = t_id t)) as [->|Hne1];
        destruct (decide (id2 = t_id t)) as [->|Hne2]; try congruence.
      * rewrite lookup_insert_eq in H1. rewrite lookup_insert_ne in H2 by congruence.
        inversion H1; subst x1. specialize (Hpos id2 x2 Ho2 H2). lia.
      * rewrite lookup_insert_eq in H2. rewrite lookup_insert_ne in H1 by congruence.
        inversion H2; subst x2. specialize (Hpos id1 x1 Ho1 H1). lia.
      * rewrite lookup_insert_ne in H1, H2 by congruence. eauto.
Qed.

Lemma createTransfers_loop_fresh_timestamps orig clock (batch : list Transfer) :
  forall i st,
    fresh_timestamps orig st ->
    fresh_timestamps orig (batch_loop createTransfers_step clock i batch st).
Proof.
  induction batch as [|t rest IH]; intros i st H; cbn [batch_loop].
  - exact H.
  - apply IH, createTransfers_step_fresh_timestamps, H.
Qed.

Lemma fresh_timestamps_initial db : fresh_timestamps db (mkLoop db [] 0).
Proof.
  unfold fresh_timestamps. cbn [l_db l_lastTimestamp]. split; [lia|].
  split; intros; congruence.
Qed.

(** X7: the timestamps [createTransfers] assigns within one call are
    positive and pairwise distinct, and the row stored by a pass carries a
    timestamp that is at least the clock reading in nanoseconds and greater
    than that of every row stored by an earlier pass. *)
Theorem createTransfers_timestamps clock db :
  (forall (batch : list Transfer) id x,
     let db' := fst (createTransfers clock db batch) in
     lookupTransfer db id = None -> lookupTransfer db' id = Some x ->
     0 < t_timestamp x) /\
  (forall (batch : list Transfer) id1 id2 x1 x2,
     let db' := fst (createTransfers clock db batch) in
     id1 <> id2 ->
     lookupTransfer db id1 = None -> lookupTransfer db id2 = None ->
     lookupTransfer db' id1 = Some x1 -> lookupTransfer db' id2 = Some x2 ->
     t_timestamp x1 <> t_timestamp x2) /\
  (forall (pre : list Transfer) t x,
     let st := transfers_state_after clock db pre in
     let st' := createTransfers_step (clock (length pre)) (length pre) st t in
     lookupTransfer (l_db st) (t_id t) = None ->
     lookupTransfer (l_db st') (t_id t) = Some x ->
     clock (length pre) * 1000000 <= t_timestamp x /\
     forall id y,
       lookupTransfer db id = None -> lookupTransfer (l_db st) id = Some y ->
       t_timestamp y < t_timestamp x).
Proof.
  split; [|split].
  - intros batch id x db' Ho Hx.
    destruct (createTransfers_loop_fresh_timestamps db clock batch 0%nat _
                (fresh_timestamps_initial db)) as (_ & Hpos & _).
    apply (Hpos id x Ho Hx).
  - intros batch id1 id2 x1 x2 db'.
    destruct (createTransfers_loop_fresh_timestamps db clock batch 0%nat _
                (fresh_timestamps_initial db)) as (_ & _ & Hinj).
    apply Hinj.
  - intros pre t x st st' Hnew Hx.
    destruct (createTransfers_loop_fresh_timestamps db clock pre 0%nat _
                (fresh_timestamps_initial db)) as (_ & Hpos & _).
    fold (transfers_state_after clock db pre) in Hpos. fold st in Hpos.
    destruct (createTransfers_step_rows (clock (length pre)) (length pre) st t)
      as [[Hdb _] | (d & c & _ & _ & _ & _ & _ & _ & Hrows & _ & _)]; fold st' in Hdb || fold st' in Hrows.
    + rewrite Hdb in Hx. congruence.
    + unfold lookupTransfer in Hx. rewrite Hrows, lookup_insert_eq in Hx.
      inversion Hx; subst x.
      pose proof (accepted_row_timestamp (clock (length pre)) st t d c) as [Hgt Hclock].
      split; [exact Hclock|].
      intros id y Ho Hy. specialize (Hpos id y Ho Hy). lia.
Qed.

Lemma createTransfers_timestamps_witness :
  let db := mkStore {[ 1 := mkAccount 1 0 0 0 0 0 0 0 0 1 1 0 7;
                       2 := mkAccount 2 0 0 0 0 0 0 0 0 1 1 0 8 ]} ∅ ∅ ∅ in
  let x1 := mkTransfer 10 1 2 50 0 0 0 0 0 1 1 0 5000000 in
  let x2 := mkTransfer 11 2 1 20 0 0 0 0 0 1 1 0 5000001 in
  t_timestamp x1 <> t_timestamp x2.
Proof.
  intros db x1 x2.
  refine (proj1 (proj2 (createTransfers_timestamps (fun _ => 5) db))
            [mkTransfer 10 1 2 50 0 0 0 0 0 1 1 0 0; mkTransfer 11 2 1 20 0 0 0 0 0 1 1 0 0]
            10 11 x1 x2 _ _ _ _ _).
  - lia.
  - reflexivity.
  - reflexivity.
  - vm_compute. reflexivity.
  - vm_compute. reflexivity.
Defined.

Lemma account_kept_Some o o' a :
  account_kept o o' -> o = Some a -> exists a', o' = Some a' /\ same_account_identity a a'.
Proof. intros H ->. destruct o' as [a'|]; cbn in H; [eauto|contradiction]. Qed.

Lemma stored_row_ok_kept P db db' id x :
  (forall k, account_kept (lookupAccount db k) (lookupAccount db' k)) ->
  stored_row_ok P db id x -> stored_row_ok P db' id x.
Proof.
  intros Hkept (Hrow & d & c & Hd & Hc & Hld & Hlc & Hcd & Hcc). split; [exact Hrow|].
  destruct (account_kept_Some _ _ _ (Hkept _) Hd) as (d' & Hd' & Hid).
  destruct (account_kept_Some _ _ _ (Hkept _) Hc) as (c' & Hc' & Hic).
  exists d', c'. unfold same_account_identity in Hid, Hic.
  destruct Hid as (_ & _ & _ & _ & _ & -> & _ & -> & _).
  destruct Hic as (_ & _ & _ & _ & _ & -> & _ & -> & _). repeat split; assumption.
Qed.

Lemma createTransfers_step_stored_rows (P : Transfer -> Prop) orig now i st t :
  P t ->
  (forall id x, lookupTransfer orig id = None -> lookupTransfer (l_db st) id = Some x ->
     stored_row_ok P (l_db st) id x) ->
  forall id x, lookupTransfer orig id = None ->
    lookupTransfer (l_db (createTransfers_step now i st t)) id = Some x ->
    stored_row_ok P (l_db (createTransfers_step now i st t)) id x.
Proof.
  intros HP Hinv id x Ho Hx.
  pose proof (createTransfers_step_account_kept now i st t) as Hkept.
  destruct (createTransfers_step_rows now i st t)
    as [[Hdb _] | (d & c & Hv & Hnew & Hd & Hc & Hnz & Hva & Hrows & _ & _)].
  - rewrite Hdb in Hx |- *. auto.
  - unfold lookupTransfer in Hx. rewrite Hrows in Hx.
    destruct (decide (id = t_id t)) as [->|Hne].
    + rewrite lookup_insert_eq in Hx. inversion Hx; subst x.
      apply (stored_row_ok_kept P (l_db st)); [exact Hkept|].
      apply validateTransferAccounts_ok in Hva.
      destruct Hva as (Hl1 & Hl2 & Hcd & Hcc & _).
      split.
      * exists t. split; [exact HP|]. split; [exact Hv|]. split; [reflexivity|].
        split; [reflexivity|]. split; [exact Hnz|]. split.
        -- apply calculateBalancingAmount_le.
        -- apply calculateBalancingAmount_not_balancing.
      * exists d, c. cbn [accepted_row set_transfer_timestamp set_amount t_debit_account_id
                          t_credit_account_id t_ledger] in *.
        repeat split; try assumption; congruence.
    + rewrite lookup_insert_ne in Hx by congruence.
      apply (stored_row_ok_kept P (l_db st)); [exact Hkept|]. auto.
Qed.

Lemma createTransfers_loop_stored_rows (P : Transfer -> Prop) orig clock :
  forall (batch : list Transfer) i st,
    Forall P batch ->
    (forall id x, lookupTransfer orig id = None -> lookupTransfer (l_db st) id = Some x ->
       stored_row_ok P (l_db st) id x) ->
    let st' := batch_loop createTransfers_step clock i batch st in
    forall id x, lookupTransfer orig id = None -> lookupTransfer (l_db st') id = Some x ->
      stored_row_ok P (l_db st') id x.
Proof.
  induction batch as [|t rest IH]; intros i st HP Hinv; cbn [batch_loop]; cbv zeta.
  - exact Hinv.
  - inversion HP as [|? ? HPt HPrest]; subst.
    apply IH; [exact HPrest|].
    apply createTransfers_step_stored_rows; assumption.
Qed.

(** X8: every row [createTransfers] adds to [transfers] is an element of the
    batch that passed [validateTransfer], with its timestamp assigned and an
    amount that is not zero and not above the requested one; its two accounts
    exist, are open and are in the ledger of the transfer. *)
Theorem createTransfers_stored_rows clock db (batch : list Transfer) id x :
  let db' := fst (createTransfers clock db batch) in
  lookupTransfer db id = None -> lookupTransfer db' id = Some x ->
  (exists t, In t batch /\ validateTransfer t = CreateTransferError.ok /\ t_id t = id /\
     x = set_transfer_timestamp (t_timestamp x) (set_amount (t_amount x) t) /\
     t_amount x <> 0 /\ t_amount x <= t_amount t /\
     (is_balancing t = false -> t_amount x = t_amount t)) /\
  exists d c,
    lookupAccount db' (t_debit_account_id x) = Some d /\
    lookupAccount db' (t_credit_account_id x) = Some c /\
    a_ledger d = t_ledger x /\ a_ledger c = t_ledger x /\
    truthy (js_and (a_flags d) AccountFlags.closed) = false /\
    truthy (js_and (a_flags c) AccountFlags.closed) = false.
Proof.
  intros db' Ho Hx.
  apply (createTransfers_loop_stored_rows (fun t => In t batch) db clock batch 0%nat
           (mkLoop db [] 0)); try assumption.
  - apply List.Forall_forall. auto.
  - cbn [l_db]. intros. congruence.
Qed.

Lemma createTransfers_stored_rows_witness :
  let db := mkStore {[ 1 := mkAccount 1 0 0 0 0 0 0 0 0 1 1 0 7;
                       2 := mkAccount 2 0 0 0 0 0 0 0 0 1 1 0 8 ]} ∅ ∅ ∅ in
  let batch := [mkTransfer 10 1 2 50 0 0 0 0 0 1 1 0 0] in
  let x := mkTransfer 10 1 2 50 0 0 0 0 0 1 1 0 5000000 in
  exists t, In t batch /\ validateTransfer t = CreateTransferError.ok /\ t_id t = 10 /\
    x = set_transfer_timestamp (t_timestamp x) (set_amount (t_amount x) t) /\
    t_amount x <> 0 /\ t_amount x <= t_amount t /\
    (is_balancing t = false -> t_amount x = t_amount t).
Proof.
  intros db batch x.
  refine (proj1 (createTransfers_stored_rows (fun _ => 5) db batch 10 x _ _)).
  - reflexivity.
  - vm_compute. reflexivity.
Defined.

(** *** Accounts a batch cannot move *)

Lemma createTransfers_step_untouched now i st t id :
  t_debit_account_id t <> id -> t_credit_account_id t <> id ->
  lookupAccount (l_db (createTransfers_step now i st t)) id = lookupAccount (l_db st) id.
Proof.
  intros Hd Hc. unfold lookupAccount.
  destruct (createTransfers_step_accounts now i st t)
    as [-> | (d & c & Hv & _ & _ & _ & _ & _ & ->)]; [reflexivity|].
  rewrite lookup_two_alters by (apply validateTransfer_ok_distinct; exact Hv).
  rewrite !decide_False by congruence. reflexivity.
Qed.

(** X26: frame. An account that no element of the batch names as its debit or
    credit account comes out of [createTransfers] exactly as it went in. *)
Theorem createTransfers_frame clock db (batch : list Transfer) id :
  Forall (fun t => t_debit_account_id t <> id /\ t_credit_account_id t <> id) batch ->
  lookupAccount (fst (createTransfers clock db batch)) id = lookupAccount db id.
Proof.
  intros Hbatch. unfold createTransfers. cbn [fst].
  change (lookupAccount db id)
    with (lookupAccount (l_db (mkLoop db (@nil CreateTransfersError) 0)) id).
  generalize (mkLoop db (@nil CreateTransfersError) 0). generalize 0%nat.
  induction Hbatch as [|t rest [Hd Hc] Hrest IH]; intros i st; cbn [batch_loop].
  - reflexivity.
  - rewrite IH. apply createTransfers_step_untouched; assumption.
Qed.

Lemma createTransfers_frame_witness :
  let db := mkStore {[ 1 := mkAccount 1 0 0 0 0 0 0 0 0 1 1 0 7;
                       2 := mkAccount 2 0 0 0 0 0 0 0 0 1 1 0 8;
                       3 := mkAccount 3 0 9 0 4 0 0 0 0 1 1 0 9 ]} ∅ ∅ ∅ in
  let batch := [mkTransfer 10 1 2 50 0 0 0 0 0 1 1 0 0] in
  lookupAccount (fst (createTransfers (fun _ => 5) db batch)) 3 = lookupAccount db 3.
Proof.
  intros db batch. apply createTransfers_frame.
  repeat constructor; cbn; lia.
Defined.

Lemma createTransfers_step_closed now i st t id a :
  lookupAccount (l_db st) id = Some a ->
  truthy (js_and (a_flags a) AccountFlags.closed) = true ->
  lookupAccount (l_db (createTransfers_step now i st t)) id = Some a.
Proof.
  intros Ha Hclosed. rewrite <- Ha. unfold lookupAccount.
  destruct (createTransfers_step_accounts now i st t)
    as [-> | (d & c & Hv & _ & Hd & Hc & _ & Hva & ->)]; [reflexivity|].
  apply validateTransferAccounts_ok in Hva. destruct Hva as (_ & _ & Hod & Hoc & _).
  rewrite lookup_two_alters by (apply validateTransfer_ok_distinct; exact Hv).
  destruct (decide (id = t_debit_account_id t)) as [->|];
    [|destruct (decide (id = t_credit_account_id t)) as [->|]]; try reflexivity.
  - rewrite Ha in Hd. inversion Hd; subst d. congruence.
  - rewrite Ha in Hc. inversion Hc; subst c. congruence.
Qed.

(** X27: a closed account is frozen: whatever the batch, [createTransfers]
    leaves an account that carries the [closed] flag exactly as it is. *)
Theorem createTransfers_closed_account_frozen clock db (batch : list Transfer) id a :
  lookupAccount db id = Some a ->
  truthy (js_and (a_flags a) AccountFlags.closed) = true ->
  lookupAccount (fst (createTransfers clock db batch)) id = Some a.
Proof.
  intros Ha Hclosed. unfold createTransfers. cbn [fst].
  assert (H0 : lookupAccount (l_db (mkLoop db (@nil CreateTransfersError) 0)) id = Some a)
    by exact Ha.
  revert H0. generalize (mkLoop db (@nil CreateTransfersError) 0). generalize 0%nat.
  induction batch as [|t rest IH]; intros i st H0; cbn [batch_loop].
  - exact H0.
  - apply IH. apply createTransfers_step_closed; assumption.
Qed.

Lemma createTransfers_closed_account_frozen_witness :
  let closed := mkAccount 1 0 70 0 100 0 0 0 0 1 1 AccountFlags.closed 7 in
  let db := mkStore {[ 1 := closed; 2 := mkAccount 2 0 0 0 0 0 0 0 0 1 1 0 8 ]} ∅ ∅ ∅ in
  let batch := [mkTransfer 10 1 2 50 0 0 0 0 0 1 1 0 0;
                mkTransfer 11 2 1 20 0 0 0 0 0 1 1 TransferFlags.pending 0] in
  lookupAccount (fst (createTransfers (fun _ => 5) db batch)) 1 = Some closed.
Proof.
  intros closed db batch.
  apply (createTransfers_closed_account_frozen (fun _ => 5) db batch 1 closed);
    reflexivity.
Defined.

(** *** Posted totals *)

Lemma updates_grow_posted row a :
  0 <= t_amount row ->
  (a_debits_posted a <= a_debits_posted (debit_update row a) /\
   a_credits_posted a <= a_credits_posted (debit_update row a)) /\
  (a_debits_posted a <= a_debits_posted (credit_update row a) /\
   a_credits_posted a <= a_credits_posted (credit_update row a)).
Proof. intros H. unfold debit_update, credit_update. case_ifs; cbn; lia. Qed.

Lemma createTransfers_step_posted now i st t id a :
  0 <= t_amount t ->
  lookupAccount (l_db st) id = Some a ->
  exists a', lookupAccount (l_db (createTransfers_step now i st t)) id = Some a' /\
    a_debits_posted a <= a_debits_posted a' /\ a_credits_posted a <= a_credits_posted a'.
Proof.
  intros Hnonneg Ha. unfold lookupAccount in *.
  destruct (createTransfers_step_accounts now i st t)
    as [-> | (d & c & Hv & _ & _ & _ & _ & _ & ->)].
  - exists a. split; [exact Ha|lia].
  - assert (Hrow : 0 <= t_amount (accepted_row now st t d c))
      by (apply calculateBalancingAmount_nonneg; exact Hnonneg).
    destruct (updates_grow_posted (accepted_row now st t d c) a Hrow) as [Hdu Hcu].
    rewrite lookup_two_alters by (apply validateTransfer_ok_distinct; exact Hv).
    destruct (decide (id = t_debit_account_id t));
      [|destruct (decide (id = t_credit_account_id t))]; rewrite Ha; cbn.
    + eexists. split; [reflexivity|exact Hdu].
    + eexists. split; [reflexivity|exact Hcu].
    + exists a. split; [reflexivity|lia].
Qed.

(** X28: posted totals only grow: if no amount of the batch is negative, no
    account has smaller posted debits or smaller posted credits after
    [createTransfers] than before. *)
Theorem createTransfers_posted_totals_grow clock db (batch : list Transfer) id a :
  Forall (fun t => 0 <= t_amount t) batch ->
  lookupAccount db id = Some a ->
  exists a', lookupAccount (fst (createTransfers clock db batch)) id = Some a' /\
    a_debits_posted a <= a_debits_posted a' /\ a_credits_posted a <= a_credits_posted a'.
Proof.
  intros Hbatch Ha. unfold createTransfers. cbn [fst].
  assert (H0 : exists a0, lookupAccount (l_db (mkLoop db (@nil CreateTransfersError) 0)) id
                          = Some a0 /\
                 a_debits_posted a <= a_debits_posted a0 /\
                 a_credits_posted a <= a_credits_posted a0)
    by (exists a; split; [exact Ha|lia]).
  revert H0. generalize (mkLoop db (@nil CreateTransfersError) 0). generalize 0%nat.
  induction Hbatch as [|t rest Ht Hrest IH]; intros i st H0; cbn [batch_loop].
  - exact H0.
  - apply IH. destruct H0 as (a0 & Ha0 & Hd0 & Hc0).
    destruct (createTransfers_step_posted (clock i) i st t id a0 Ht Ha0) as (a1 & Ha1 & Hd1 & Hc1).
    exists a1. split; [exact Ha1|lia].
Qed.

Lemma createTransfers_posted_totals_grow_witness :
  let d := mkAccount 1 0 5 0 0 0 0 0 0 1 1 0 7 in
  let db := mkStore {[ 1 := d; 2 := mkAccount 2 0 0 0 0 0 0 0 0 1 1 0 8 ]} ∅ ∅ ∅ in
  let batch := [mkTransfer 10 1 2 50 0 0 0 0 0 1 1 0 0] in
  exists a', lookupAccount (fst (createTransfers (fun _ => 5) db batch)) 1 = Some a' /\
    a_debits_posted d <= a_debits_posted a' /\ a_credits_posted d <= a_credits_posted a'.
Proof.
  intros d db batch.
  apply (createTransfers_posted_totals_grow (fun _ => 5) db batch 1 d).
  - repeat constructor; cbn; lia.
  - reflexivity.
Defined.

(** *** Flag bits *)

Lemma land_pow2 x k : 0 <= k -> Z.land x (2 ^ k) = if Z.testbit x k then 2 ^ k else 0.
Proof.
  intros Hk. apply Z.bits_inj'. intros i Hi.
  rewrite Z.land_spec, Z.pow2_bits_eqb by exact Hk.
  destruct (Z.eqb_spec k i) as [->|Hne].
  - destruct (Z.testbit x i); [rewrite Z.pow2_bits_true by exact Hi|rewrite Z.bits_0]; reflexivity.
  - rewrite andb_false_r.
    destruct (Z.testbit x k); [rewrite Z.pow2_bits_false by congruence|rewrite Z.bits_0];
      reflexivity.
Qed.

Lemma ToInt32_testbit f k : 0 <= k < 32 -> Z.testbit (ToInt32 f) k = Z.testbit f k.
Proof.
  intros Hk. unfold ToInt32.
  rewrite <- (Z.mod_pow2_bits_low _ 32 k) by lia.
  rewrite <- (Z.mod_pow2_bits_low f 32 k) by lia.
  f_equal.
  pose proof (Z.div_mod (f + 2 ^ 31) (2 ^ 32) ltac:(lia)) as Hdm.
  replace ((f + 2 ^ 31) mod 2 ^ 32 - 2 ^ 31)
    with (f + (- ((f + 2 ^ 31) / 2 ^ 32)) * 2 ^ 32) by lia.
  apply Z_mod_plus_full.
Qed.

(** The test [flags & bit] of the code and the test [(flags & bit) = bit]
    of the trigger read the same bit. *)
Lemma truthy_js_and_bit f k :
  0 <= k < 31 -> truthy (js_and f (2 ^ k)) = Z.testbit f k.
Proof.
  intros Hk. unfold js_and.
  assert (Hsmall : ToInt32 (2 ^ k) = 2 ^ k).
  { unfold ToInt32. 
    assert (0 < 2 ^ k < 2 ^ 31) by (split; [lia | apply Z.pow_lt_mono_r; lia]).
    rewrite Z.mod_small by lia. lia. }
  rewrite Hsmall, land_pow2, ToInt32_testbit by lia.
  unfold truthy. destruct (Z.testbit f k); [|reflexivity].
  apply negb_true_iff, Z.eqb_neq. lia.
Qed.

Lemma sql_flag_test f k : 0 <= k -> (Z.land f (2 ^ k) =? 2 ^ k) = Z.testbit f k.
Proof.
  intros Hk. rewrite land_pow2 by exact Hk.
  destruct (Z.testbit f k); [apply Z.eqb_refl|]. apply Z.eqb_neq. lia.
Qed.

Lemma validateTransfer_ok_two_phase (t : Transfer) :
  validateTransfer t = CreateTransferError.ok ->
  truthy (js_and (t_flags t) TransferFlags.pending)
  && truthy (js_and (t_flags t) TransferFlags.post_pending_transfer) = false /\
  truthy (js_and (t_flags t) TransferFlags.pending)
  && truthy (js_and (t_flags t) TransferFlags.void_pending_transfer) = false /\
  truthy (js_and (t_flags t) TransferFlags.post_pending_transfer)
  && truthy (js_and (t_flags t) TransferFlags.void_pending_transfer) = false.
Proof.
  intros H. pose proof (validateTransfer_ok_rules t H) as HF. split_rules HF.
  clear - Hrule12.
  unfold pending_flags_set, js_and in *.
  set (x := ToInt32 (t_flags t)) in *.
  change (ToInt32 TransferFlags.pending) with 2.
  change (ToInt32 TransferFlags.post_pending_transfer) with 4.
  change (ToInt32 TransferFlags.void_pending_transfer) with 8.
  change (ToInt32 (js_or (js_or TransferFlags.pending TransferFlags.post_pending_transfer)
                         TransferFlags.void_pending_transfer)) with 14 in Hrule12.
  rewrite (land_low4 x 2), (land_low4 x 4), (land_low4 x 8) by reflexivity.
  rewrite (land_low4 x 14) in Hrule12 by reflexivity.
  assert (Hv : 0 <= x mod 16 < 16) by (apply Z.mod_pos_bound; lia).
  set (v := x mod 16) in *. clearbody v. clear x.
  assert (Hcases : v = 0 \/ v = 1 \/ v = 2 \/ v = 3 \/ v = 4 \/ v = 5 \/ v = 6 \/ v = 7 \/
                   v = 8 \/ v = 9 \/ v = 10 \/ v = 11 \/ v = 12 \/ v = 13 \/ v = 14 \/ v = 15)
    by lia.
  repeat (destruct Hcases as [Hc|Hcases];
          [subst v; revert Hrule12; vm_compute; intuition congruence|]).
  subst v; revert Hrule12; vm_compute; intuition congruence.
Qed.

Lemma both_bits_test f j k :
  0 <= j < 30 -> 0 <= k < 30 -> j <> k ->
  (js_and f (js_or (2 ^ j) (2 ^ k)) =? js_or (2 ^ j) (2 ^ k))
  = Z.testbit f j && Z.testbit f k.
Proof.
  intros Hj Hk Hne. unfold js_and, js_or.
  assert (Hsmall : forall i, 0 <= i < 31 -> ToInt32 (2 ^ i) = 2 ^ i).
  { intros i Hi. unfold ToInt32.
    assert (0 < 2 ^ i < 2 ^ 31) by (split; [lia | apply Z.pow_lt_mono_r; lia]).
    rewrite Z.mod_small by lia. lia. }
  rewrite !Hsmall by lia.
  assert (Hlor : Z.lor (2 ^ j) (2 ^ k) = 2 ^ j + 2 ^ k).
  { rewrite <- Z.lxor_lor, <- Z.add_nocarry_lxor; [reflexivity| |];
      apply Z.bits_inj'; intros i Hi; rewrite Z.land_spec, !Z.pow2_bits_eqb, Z.bits_0 by lia;
      destruct (Z.eqb_spec j i); destruct (Z.eqb_spec k i); try reflexivity; congruence. }
  assert (Hj2 : 0 < 2 ^ j < 2 ^ 30) by (split; [lia | apply Z.pow_lt_mono_r; lia]).
  assert (Hk2 : 0 < 2 ^ k < 2 ^ 30) by (split; [lia | apply Z.pow_lt_mono_r; lia]).
  assert (Hsum : ToInt32 (Z.lor (2 ^ j) (2 ^ k)) = Z.lor (2 ^ j) (2 ^ k)).
  { rewrite Hlor. unfold ToInt32. rewrite Z.mod_small by lia. lia. }
  rewrite Hsum, Z.land_lor_distr_r, !land_pow2, !ToInt32_testbit by lia.
  destruct (Z.testbit f j), (Z.testbit f k); cbn [andb];
    rewrite ?Z.lor_0_l, ?Z.lor_0_r, ?Hlor; try apply Z.eqb_refl; apply Z.eqb_neq; lia.
Qed.

Lemma validateTransfer_ok_balancing (t : Transfer) :
  validateTransfer t = CreateTransferError.ok ->
  truthy (js_and (t_flags t) TransferFlags.balancing_debit)
  && truthy (js_and (t_flags t) TransferFlags.balancing_credit) = false.
Proof.
  intros H. pose proof (validateTransfer_ok_rules t H) as HF. split_rules HF.
  change TransferFlags.balancing_debit with (2 ^ 4) in *.
  change TransferFlags.balancing_credit with (2 ^ 5) in *.
  rewrite both_bits_test in Hrule13 by lia. rewrite !truthy_js_and_bit by lia. exact Hrule13.
Qed.

(** X9: what [validateTransfer] guarantees about the flags of a transfer it
    accepts: at most one of the three two-phase flags, not both balancing
    flags, not both closing flags; and how the flags fix [pending_id] and
    [timeout]. *)
Theorem validateTransfer_ok_flags (t : Transfer) :
  validateTransfer t = CreateTransferError.ok ->
  let flag bit := truthy (js_and (t_flags t) bit) in
  flag TransferFlags.pending && flag TransferFlags.post_pending_transfer = false /\
  flag TransferFlags.pending && flag TransferFlags.void_pending_transfer = false /\
  flag TransferFlags.post_pending_transfer && flag TransferFlags.void_pending_transfer = false /\
  flag TransferFlags.balancing_debit && flag TransferFlags.balancing_credit = false /\
  flag TransferFlags.closing_debit && flag TransferFlags.closing_credit = false /\
  (if flag TransferFlags.pending
   then t_pending_id t = 0 /\ t_timeout t <= 2 ^ 32 - 1
   else t_timeout t = 0 /\
        if flag TransferFlags.post_pending_transfer || flag TransferFlags.void_pending_transfer
        then t_pending_id t <> 0 /\ t_pending_id t < 2 ^ 128 - 1 /\ t_pending_id t <> t_id t
        else t_pending_id t = 0).
Proof.
  intros H flag. subst flag. cbv beta.
  destruct (validateTransfer_ok_two_phase t H) as (H1 & H2 & H3).
  pose proof (validateTransfer_ok_rules t H) as HF. split_rules HF.
  split; [exact H1|]. split; [exact H2|]. split; [exact H3|].
  split; [|split].
  - apply validateTransfer_ok_balancing. exact H.
  - change TransferFlags.closing_debit with (2 ^ 6) in *.
    change TransferFlags.closing_credit with (2 ^ 7) in *.
    rewrite both_bits_test in Hrule14 by lia. rewrite !truthy_js_and_bit by lia. exact Hrule14.
  - rewrite <- is_post_or_void_split. fold (is_pending t).
    clear - Hrule15 Hrule16 Hrule17 Hrule18 Hrule19 Hrule20 Hrule21.
    destruct (is_pending t), (is_post_or_void t); cbn [negb andb] in *;
      repeat match goal with
             | H : negb _ = false |- _ => apply negb_false_iff in H
             | H : andb _ _ = false |- _ => apply andb_false_iff in H
             end;
      bools_to_props; repeat split; try lia.
    all: destruct Hrule20; lia.
Qed.

Lemma validateTransfer_ok_flags_witness :
  let t := mkTransfer 10 1 2 50 0 0 0 0 30 1 1 TransferFlags.pending 0 in
  t_pending_id t = 0 /\ t_timeout t <= 2 ^ 32 - 1.
Proof.
  intros t.
  pose proof (validateTransfer_ok_flags t eq_refl) as H. cbv zeta in H.
  destruct H as (_ & _ & _ & _ & _ & H).
  change (truthy (js_and (t_flags t) TransferFlags.pending)) with true in H.
  exact H.
Defined.

(** *** The table [pending_transfers] *)

Lemma recordAccountBalance_pending id ts db :
  pending_transfers (recordAccountBalance id ts db) = pending_transfers db.
Proof. unfold recordAccountBalance. destruct (lookupAccount db id); reflexivity. Qed.

Lemma updateAccountBalances_pending t db :
  pending_transfers (updateAccountBalances t db) = pending_transfers db.
Proof.
  unfold updateAccountBalances. cbv zeta.
  repeat match goal with
         | |- context [if has_history ?a then _ else _] => destruct (has_history a)
         end;
    rewrite ?recordAccountBalance_pending;
    case_ifs; reflexivity.
Qed.

Lemma trigger_tests (f : Z) :
  (Z.land f 2 =? 2) = truthy (js_and f TransferFlags.pending) /\
  (Z.land f 4 =? 4) = truthy (js_and f TransferFlags.post_pending_transfer) /\
  (Z.land f 8 =? 8) = truthy (js_and f TransferFlags.void_pending_transfer).
Proof.
  change TransferFlags.pending with (2 ^ 1).
  change TransferFlags.post_pending_transfer with (2 ^ 2).
  change TransferFlags.void_pending_transfer with (2 ^ 3).
  rewrite !truthy_js_and_bit by lia.
  change 2 with (2 ^ 1) at 1 2. change 4 with (2 ^ 2) at 1 2. change 8 with (2 ^ 3) at 1 2.
  rewrite !sql_flag_test by lia. auto.
Qed.

(** The status column after the insert of a row, as the trigger leaves it. *)
Lemma insert_transfer_status row db id :
  let pending := truthy (js_and (t_flags row) TransferFlags.pending) in
  let post := truthy (js_and (t_flags row) TransferFlags.post_pending_transfer) in
  let void := truthy (js_and (t_flags row) TransferFlags.void_pending_transfer) in
  pending && post = false -> pending && void = false -> post && void = false ->
  lookupPendingStatus (insert_transfer row db) id
  = if pending then
      if decide (id = t_id row) then Some TransferPendingStatus.pending
      else lookupPendingStatus db id
    else if (post || void) && (t_pending_id row >? 0) then
      if decide (id = t_pending_id row)
      then (fun _ => if post then TransferPendingStatus.posted
                     else TransferPendingStatus.voided) <$> lookupPendingStatus db id
      else lookupPendingStatus db id
    else lookupPendingStatus db id.
Proof.
  cbv zeta. destruct (trigger_tests (t_flags row)) as (Hp & Hq & Hv).
  unfold lookupPendingStatus, insert_transfer. cbv zeta. cbn [pending_transfers].
  rewrite Hp, Hq, Hv.
  destruct (truthy (js_and (t_flags row) TransferFlags.pending));
    destruct (truthy (js_and (t_flags row) TransferFlags.post_pending_transfer));
    destruct (truthy (js_and (t_flags row) TransferFlags.void_pending_transfer));
    cbn [andb orb]; intros; try discriminate;
    destruct (t_pending_id row >? 0); cbn [andb];
    try reflexivity.
  all: try (destruct (decide (id = t_id row)) as [->|Hne];
            [rewrite lookup_insert_eq | rewrite lookup_insert_ne by congruence]; reflexivity).
  all: destruct (decide (id = t_pending_id row)) as [->|Hne];
       [rewrite lookup_alter_eq; destruct (pending_transfers db !! t_pending_id row); reflexivity
       |rewrite lookup_alter_ne by congruence; reflexivity].
Qed.

(** *** Two-phase transfers *)

(** A pass that leaves a row under the id of its transfer, where there was
    none, has accepted the transfer. *)
Lemma createTransfers_step_stored now i st t x :
  lookupTransfer (l_db st) (t_id t) = None ->
  lookupTransfer (l_db (createTransfers_step now i st t)) (t_id t) = Some x ->
  exists d c,
    validateTransfer t = CreateTransferError.ok /\
    lookupAccount (l_db st) (t_debit_account_id t) = Some d /\
    lookupAccount (l_db st) (t_credit_account_id t) = Some c /\
    validateTransferAccounts (set_amount (calculateBalancingAmount t d c) t)
      (Some d) (Some c) (fst (pending_lookup (l_db st) t))
      (or_undefined (snd (pending_lookup (l_db st) t))) = CreateTransferError.ok /\
    x = accepted_row now st t d c /\
    createTransfers_step now i st t
    = mkLoop (updateAccountBalances x (insert_transfer x (l_db st)))
             (l_errors st) (t_timestamp x).
Proof.
  intros Hnew Hx.
  destruct (createTransfers_step_cases now i st t)
    as [(e & _ & _ & Hs) | [(_ & Hs) | (d & c & Hv & _ & Hd & Hc & _ & Hva & _ & _ & Hs)]];
    rewrite Hs in Hx.
  - cbn [push l_db] in Hx. congruence.
  - congruence.
  - cbv zeta in Hx, Hs. cbn [l_db] in Hx. unfold lookupTransfer in Hx.
    rewrite updateAccountBalances_transfers, insert_transfer_transfers in Hx.
    change (t_id (accepted_row now st t d c)) with (t_id t) in Hx.
    rewrite lookup_insert_eq in Hx. inversion Hx; subst x.
    exists d, c. repeat split; assumption.
Qed.

Lemma or_undefined_pending s :
  or_undefined s = Some TransferPendingStatus.pending -> s = Some TransferPendingStatus.pending.
Proof. destruct s as [[| | | |]|]; cbn; congruence. Qed.

Lemma pending_lookup_found db t q s :
  is_post_or_void t = true ->
  fst (pending_lookup db t) = Some q -> snd (pending_lookup db t) = s ->
  lookupTransfer db (t_pending_id t) = Some q /\ lookupPendingStatus db (t_pending_id t) = s.
Proof.
  intros Hpv. rewrite pending_lookup_post_or_void by exact Hpv.
  destruct (lookupTransfer db (t_pending_id t)); cbn [fst snd]; [split; congruence|discriminate].
Qed.

(** X10: a post or void that is stored turned a pending transfer of the
    store, whose status was [pending], into a posted or voided one, and moved
    its own amount out of the pending totals of the two accounts (into the
    posted totals when posting). *)
Theorem post_or_void_resolves_pending now i st t x :
  let st' := createTransfers_step now i st t in
  let posting := truthy (js_and (t_flags t) TransferFlags.post_pending_transfer) in
  lookupTransfer (l_db st) (t_id t) = None ->
  lookupTransfer (l_db st') (t_id t) = Some x ->
  is_post_or_void t = true ->
  0 < t_pending_id t ->
  exists p d c,
    lookupTransfer (l_db st) (t_pending_id t) = Some p /\
    lookupPendingStatus (l_db st) (t_pending_id t) = Some TransferPendingStatus.pending /\
    (if posting then t_amount x <= t_amount p else t_amount x = t_amount p) /\
    lookupPendingStatus (l_db st') (t_pending_id t)
    = Some (if posting then TransferPendingStatus.posted else TransferPendingStatus.voided) /\
    lookupAccount (l_db st) (t_debit_account_id t) = Some d /\
    lookupAccount (l_db st) (t_credit_account_id t) = Some c /\
    balances (l_db st') (t_debit_account_id t)
    = Some (a_debits_pending d - t_amount x,
            a_debits_posted d + (if posting then t_amount x else 0),
            a_credits_pending d, a_credits_posted d) /\
    balances (l_db st') (t_credit_account_id t)
    = Some (a_debits_pending c, a_debits_posted c,
            a_credits_pending c - t_amount x,
            a_credits_posted c + (if posting then t_amount x else 0)).
Proof.
  intros st' posting Hnew Hx Hpv Hpos.
  destruct (createTransfers_step_stored now i st t x Hnew Hx)
    as (d & c & Hv & Hd & Hc & Hva & Hrow & Hs).
  fold st' in Hs.
  destruct (validateTransfer_ok_two_phase t Hv) as (E1 & E2 & E3).
  apply validateTransferAccounts_ok in Hva.
  destruct Hva as (_ & _ & _ & _ & _ & _ & Hpend).
  destruct (Hpend Hpv) as (p & Hp & Hstatus & _ & _ & _ & _ & Hamount).
  apply or_undefined_pending in Hstatus.
  destruct (pending_lookup_found _ _ _ _ Hpv Hp Hstatus) as [Hfound Hst].
  change (t_flags (set_amount (calculateBalancingAmount t d c) t)) with (t_flags t) in Hamount.
  change (t_amount (set_amount (calculateBalancingAmount t d c) t))
    with (t_amount (accepted_row now st t d c)) in Hamount.
  rewrite <- Hrow in Hamount. fold posting in Hamount.
  assert (Hflags : t_flags x = t_flags t) by (rewrite Hrow; reflexivity).
  assert (Hids : t_debit_account_id x = t_debit_account_id t /\
                 t_credit_account_id x = t_credit_account_id t /\
                 t_pending_id x = t_pending_id t /\ t_id x = t_id t)
    by (rewrite Hrow; repeat split; reflexivity).
  destruct Hids as (Hxd & Hxc & Hxp & Hxid).
  pose proof (is_post_or_void_split t) as Hsplit. rewrite Hpv in Hsplit.
  fold posting in Hsplit, E1, E3.
  exists p, d, c. split; [exact Hfound|]. split; [exact Hst|]. split; [exact Hamount|].
  split; [|split; [exact Hd|split; [exact Hc|]]].
  - rewrite Hs. cbn [l_db]. unfold lookupPendingStatus at 1.
    rewrite updateAccountBalances_pending.
    change (pt_status <$> pending_transfers (insert_transfer x (l_db st)) !! t_pending_id t)
      with (lookupPendingStatus (insert_transfer x (l_db st)) (t_pending_id t)).
    rewrite insert_transfer_status; rewrite Hflags; try assumption.
    fold posting. rewrite Hxp.
    destruct (truthy (js_and (t_flags t) TransferFlags.pending)); cbn [andb] in *.
    { destruct posting; [discriminate|]. cbn [orb] in Hsplit.
      rewrite <- Hsplit in E2. discriminate. }
    rewrite <- Hsplit. cbn [andb]. rewrite (proj2 (Z.gtb_lt _ _)) by lia.
    rewrite decide_True by reflexivity. rewrite Hst. reflexivity.
  - pose proof (validateTransfer_ok_distinct t Hv) as Hne.
    rewrite Hs. cbn [l_db].
    pose proof (applied_debit_account x (l_db st) d) as Hda.
    pose proof (applied_credit_account x (l_db st) c) as Hca.
    rewrite Hxd, Hxc in Hda, Hca. specialize (Hda Hne Hd). specialize (Hca Hc).
    rewrite decide_False in Hca by exact Hne.
    rewrite (balances_lookup _ _ _ Hda), (balances_lookup _ _ _ Hca).
    unfold debit_update, credit_update. rewrite Hflags. fold posting.
    destruct (truthy (js_and (t_flags t) TransferFlags.pending)); cbn [andb] in *.
    { destruct posting; [discriminate|]. cbn [orb] in Hsplit.
      rewrite <- Hsplit in E2. discriminate. }
    destruct posting.
    + cbn. split; repeat first [lia | f_equal].
    + cbn [orb] in Hsplit. rewrite <- Hsplit.
      cbn. split; repeat first [lia | f_equal].
Qed.

Lemma post_or_void_resolves_pending_witness :
  let d := mkAccount 1 50 0 0 0 0 0 0 0 1 1 0 7 in
  let c := mkAccount 2 0 0 50 0 0 0 0 0 1 1 0 8 in
  let p := mkTransfer 10 1 2 50 0 0 0 0 0 1 1 TransferFlags.pending 9 in
  let st := mkLoop (mkStore {[ 1 := d; 2 := c ]} {[ 10 := p ]}
                      {[ 10 := mkPendingTransferRow TransferPendingStatus.pending 0 9 ]} ∅)
                   (@nil CreateTransfersError) 0 in
  let q := mkTransfer 11 1 2 30 10 0 0 0 0 1 1 TransferFlags.post_pending_transfer 0 in
  let st' := createTransfers_step 5 0 st q in
  exists p' d' c',
    lookupTransfer (l_db st) 10 = Some p' /\
    lookupPendingStatus (l_db st) 10 = Some TransferPendingStatus.pending /\
    30 <= t_amount p' /\
    lookupPendingStatus (l_db st') 10 = Some TransferPendingStatus.posted /\
    lookupAccount (l_db st) 1 = Some d' /\
    lookupAccount (l_db st) 2 = Some c' /\
    balances (l_db st') 1
    = Some (a_debits_pending d' - 30, a_debits_posted d' + 30,
            a_credits_pending d', a_credits_posted d') /\
    balances (l_db st') 2
    = Some (a_debits_pending c', a_debits_posted c',
            a_credits_pending c' - 30, a_credits_posted c' + 30).
Proof.
  intros d c p st q st'.
  refine (post_or_void_resolves_pending 5 0 st q
            (mkTransfer 11 1 2 30 10 0 0 0 0 1 1 TransferFlags.post_pending_transfer 5000000)
            _ _ _ _).
  - reflexivity.
  - vm_compute. reflexivity.
  - reflexivity.
  - cbn. lia.
Defined.

Lemma createTransfers_step_resolved_for_good orig P now i st t :
  lookupPendingStatus orig P <> Some TransferPendingStatus.pending ->
  resolved_for_good orig P (l_db st) ->
  resolved_for_good orig P (l_db (createTransfers_step now i st t)).
Proof.
  intros Hnot (Hsome & Hstatus & Hrows).
  destruct (createTransfers_step_cases now i st t)
    as [(e & _ & _ & ->) | [(_ & ->) | (d & c & Hv & Hnew & Hd & Hc & _ & Hva & _ & _ & ->)]];
    [split; auto | split; auto |].
  cbv zeta. cbn [l_db]. set (row := accepted_row now st t d c).
  destruct (validateTransfer_ok_two_phase t Hv) as (E1 & E2 & E3).
  apply validateTransferAccounts_ok in Hva.
  destruct Hva as (_ & _ & _ & _ & _ & _ & Hpend).
  change (is_post_or_void (set_amount (calculateBalancingAmount t d c) t))
    with (is_post_or_void t) in Hpend.
  assert (Hother : is_post_or_void t = true -> t_pending_id t <> P).
  { intros Hpv Heq. destruct (Hpend Hpv) as (q & Hq & Hs & _).
    apply or_undefined_pending in Hs.
    destruct (pending_lookup_found _ _ _ _ Hpv Hq Hs) as [_ Hst].
    rewrite Heq, Hstatus in Hst. contradiction. }
  assert (HP : P <> t_id t).
  { intros ->. rewrite Hnew in Hsome. destruct Hsome. discriminate. }
  split; [|split].
  - unfold lookupTransfer. rewrite updateAccountBalances_transfers, insert_transfer_transfers.
    change (t_id row) with (t_id t). rewrite lookup_insert_ne by congruence. exact Hsome.
  - rewrite <- Hstatus. unfold lookupPendingStatus at 1.
    rewrite updateAccountBalances_pending.
    change (pt_status <$> pending_transfers (insert_transfer row (l_db st)) !! P)
      with (lookupPendingStatus (insert_transfer row (l_db st)) P).
    rewrite insert_transfer_status by exact E1 || exact E2 || exact E3.
    change (t_flags row) with (t_flags t). change (t_id row) with (t_id t).
    change (t_pending_id row) with (t_pending_id t).
    rewrite decide_False by exact HP.
    rewrite <- is_post_or_void_split.
    destruct (truthy (js_and (t_flags t) TransferFlags.pending)); [reflexivity|].
    destruct (is_post_or_void t); cbn [andb]; [|reflexivity].
    destruct (t_pending_id t >? 0); [|reflexivity].
    rewrite decide_False; [reflexivity|]. intros Heq. apply Hother; auto.
  - intros id x Ho Hx Hpv. unfold lookupTransfer in Hx.
    rewrite updateAccountBalances_transfers, insert_transfer_transfers in Hx.
    change (t_id row) with (t_id t) in Hx.
    destruct (decide (id = t_id t)) as [->|Hne].
    + rewrite lookup_insert_eq in Hx. inversion Hx; subst x. apply Hother. exact Hpv.
    + rewrite lookup_insert_ne in Hx by congruence. eapply Hrows; eassumption.
Qed.

(** X11: a transfer of the store whose status is not [pending] (posted,
    voided, expired, or never pending) keeps its status through any batch of
    [createTransfers], and no row the batch adds posts or voids it. *)
Theorem resolved_pending_is_final clock db (batch : list Transfer) (P : Z) :
  is_Some (lookupTransfer db P) ->
  lookupPendingStatus db P <> Some TransferPendingStatus.pending ->
  let db' := fst (createTransfers clock db batch) in
  lookupPendingStatus db' P = lookupPendingStatus db P /\
  forall id x, lookupTransfer db id = None -> lookupTransfer db' id = Some x ->
    is_post_or_void x = true -> t_pending_id x <> P.
Proof.
  intros Hsome Hnot db'.
  assert (H : resolved_for_good db P db').
  { unfold db', createTransfers. cbn [fst].
    assert (H0 : resolved_for_good db P (l_db (mkLoop db (@nil CreateTransfersError) 0))).
    { cbn [l_db]. split; [exact Hsome|]. split; [reflexivity|]. intros. congruence. }
    revert H0. generalize (mkLoop db (@nil CreateTransfersError) 0). generalize 0%nat.
    induction batch as [|t rest IH]; intros i st H0; cbn [batch_loop].
    - exact H0.
    - apply IH, createTransfers_step_resolved_for_good; assumption. }
  destruct H as (_ & Hst & Hrows). split; assumption.
Qed.

Lemma resolved_pending_is_final_witness :
  let db := mkStore {[ 1 := mkAccount 1 0 50 0 0 0 0 0 0 1 1 0 7;
                       2 := mkAccount 2 0 0 0 50 0 0 0 0 1 1 0 8 ]}
                    {[ 10 := mkTransfer 10 1 2 50 0 0 0 0 0 1 1 TransferFlags.pending 9 ]}
                    {[ 10 := mkPendingTransferRow TransferPendingStatus.posted 0 11 ]} ∅ in
  let batch := [mkTransfer 12 1 2 50 10 0 0 0 0 1 1 TransferFlags.void_pending_transfer 0] in
  lookupPendingStatus (fst (createTransfers (fun _ => 5) db batch)) 10
  = Some TransferPendingStatus.posted.
Proof.
  intros db batch.
  refine (proj1 (resolved_pending_is_final (fun _ => 5) db batch 10 _ _)).
  - eexists. reflexivity.
  - cbn. discriminate.
Defined.

Lemma add_debits_pending_cancel x a : add_debits_pending (- x) (add_debits_pending x a) = a.
Proof. destruct a. unfold add_debits_pending. cbn. f_equal. lia. Qed.

Lemma add_credits_pending_cancel x a : add_credits_pending (- x) (add_credits_pending x a) = a.
Proof. destruct a. unfold add_credits_pending. cbn. f_equal. lia. Qed.

(** X12: voiding undoes the pending transfer: when a pending transfer is stored
    by one pass and a void of it is stored by a pass that starts from the
    resulting store, every row of [accounts] is again what it was before the
    pending transfer. *)
Theorem void_undoes_pending now1 now2 i j st st1 P V :
  l_db st1 = l_db (createTransfers_step now1 i st P) ->
  lookupTransfer (l_db st) (t_id P) = None ->
  is_Some (lookupTransfer (l_db st1) (t_id P)) ->
  lookupTransfer (l_db st1) (t_id V) = None ->
  is_Some (lookupTransfer (l_db (createTransfers_step now2 j st1 V)) (t_id V)) ->
  is_pending P = true ->
  truthy (js_and (t_flags V) TransferFlags.void_pending_transfer) = true ->
  t_pending_id V = t_id P ->
  accounts (l_db (createTransfers_step now2 j st1 V)) = accounts (l_db st).
Proof.
  intros Hdb HnewP [p Hp] HnewV [v Hv] HpendP Hvoid Hpid.
  rewrite Hdb in Hp.
  destruct (createTransfers_step_stored now1 i st P p HnewP Hp)
    as (d & c & HvP & Hd & Hc & _ & Hrow & Hs1).
  destruct (createTransfers_step_stored now2 j st1 V v HnewV Hv)
    as (d1 & c1 & HvV & Hd1 & Hc1 & Hva & Hrow1 & Hs2).
  destruct (validateTransfer_ok_two_phase V HvV) as (E1 & E2 & E3).
  rewrite Hvoid in E2, E3. rewrite andb_true_r in E2, E3.
  assert (Hpv : is_post_or_void V = true)
    by (rewrite is_post_or_void_split, Hvoid; apply orb_true_r).
  apply validateTransferAccounts_ok in Hva.
  destruct Hva as (_ & _ & _ & _ & _ & _ & Hpend).
  destruct (Hpend Hpv) as (q & Hq & _ & Hqd & Hqc & _ & _ & Hamount).
  change (t_flags (set_amount (calculateBalancingAmount V d1 c1) V)) with (t_flags V) in Hamount.
  rewrite E3 in Hamount.
  destruct (pending_lookup_found _ _ _ _ Hpv Hq eq_refl) as [Hq' _].
  clear Hq. rename Hq' into Hq. rewrite Hpid, Hdb, Hp in Hq. inversion Hq; subst q. clear Hq.
  cbn [set_amount t_debit_account_id t_credit_account_id t_amount] in Hqd, Hqc, Hamount.
  assert (HpD : t_debit_account_id p = t_debit_account_id P) by (rewrite Hrow; reflexivity).
  assert (HpC : t_credit_account_id p = t_credit_account_id P) by (rewrite Hrow; reflexivity).
  assert (HpF : t_flags p = t_flags P) by (rewrite Hrow; reflexivity).
  assert (HvD : t_debit_account_id v = t_debit_account_id V) by (rewrite Hrow1; reflexivity).
  assert (HvC : t_credit_account_id v = t_credit_account_id V) by (rewrite Hrow1; reflexivity).
  assert (HvF : t_flags v = t_flags V) by (rewrite Hrow1; reflexivity).
  assert (HvA : t_amount v = t_amount p) by (rewrite Hrow1; exact Hamount).
  pose proof (validateTransfer_ok_distinct P HvP) as Hne.
  rewrite Hs2. cbn [l_db].
  rewrite updateAccountBalances_accounts, insert_transfer_accounts, Hdb, Hs1. cbn [l_db].
  rewrite updateAccountBalances_accounts, insert_transfer_accounts.
  rewrite HvD, HvC, HpD, HpC, <- Hqd, <- Hqc, HpD, HpC.
  apply map_eq. intros k.
  rewrite lookup_two_alters by exact Hne. rewrite lookup_two_alters by exact Hne.
  unfold debit_update, credit_update. rewrite HvF, HpF.
  unfold is_pending in HpendP. rewrite HpendP, E2, E3, Hvoid, HvA.
  destruct (decide (k = t_debit_account_id P));
    [|destruct (decide (k = t_credit_account_id P))];
    destruct (accounts (l_db st) !! k); cbn [fmap option_fmap option_map];
    rewrite ?add_debits_pending_cancel, ?add_credits_pending_cancel; reflexivity.
Qed.

Lemma void_undoes_pending_witness :
  let db := mkStore {[ 1 := mkAccount 1 0 0 0 0 0 0 0 0 1 1 0 7;
                       2 := mkAccount 2 0 0 0 0 0 0 0 0 1 1 0 8 ]} ∅ ∅ ∅ in
  let st := mkLoop db (@nil CreateTransfersError) 0 in
  let P := mkTransfer 10 1 2 50 0 0 0 0 0 1 1 TransferFlags.pending 0 in
  let V := mkTransfer 11 1 2 50 10 0 0 0 0 1 1 TransferFlags.void_pending_transfer 0 in
  let st1 := createTransfers_step 5 0 st P in
  accounts (l_db (createTransfers_step 6 1 st1 V)) = accounts db.
Proof.
  intros db st P V st1.
  refine (void_undoes_pending 5 6 0%nat 1%nat st st1 P V eq_refl _ _ _ _ _ _ _).
  - reflexivity.
  - eexists. vm_compute. reflexivity.
  - vm_compute. reflexivity.
  - eexists. vm_compute. reflexivity.
  - reflexivity.
  - reflexivity.
  - reflexivity.
Defined.

(** *** Balance history *)

Lemma recordAccountBalance_balances id ts db :
  account_balances (recordAccountBalance id ts db)
  = match lookupAccount db id with
    | Some a => <[(id, ts) := snapshot id ts a]> (account_balances db)
    | None => account_balances db
    end.
Proof. unfold recordAccountBalance. destruct (lookupAccount db id); reflexivity. Qed.

Lemma recordAccountBalance_lookupAccount id ts db k :
  lookupAccount (recordAccountBalance id ts db) k = lookupAccount db k.
Proof. unfold lookupAccount. rewrite recordAccountBalance_accounts. reflexivity. Qed.

Lemma updateAccountBalances_balances t db :
  account_balances (updateAccountBalances t db)
  = let rows := updateAccountBalances t db in
    let debit := t_debit_account_id t in
    let credit := t_credit_account_id t in
    let m := account_balances db in
    let m :=
      if has_history (lookupAccount db debit) then
        match lookupAccount rows debit with
        | Some a => <[(debit, t_timestamp t) := snapshot debit (t_timestamp t) a]> m
        | None => m
        end
      else m in
    if has_history (lookupAccount db credit) then
      match lookupAccount rows credit with
      | Some a => <[(credit, t_timestamp t) := snapshot credit (t_timestamp t) a]> m
      | None => m
      end
    else m.
Proof.
  unfold updateAccountBalances. cbv zeta.
  match goal with
  | |- context [recordAccountBalance _ _ (if truthy ?b then ?u else ?v)] =>
    set (db1 := if truthy b then u else v)
  end.
  assert (Hb : account_balances db1 = account_balances db)
    by (subst db1; case_ifs; reflexivity).
  clearbody db1.
  destruct (has_history (lookupAccount db (t_debit_account_id t)));
    destruct (has_history (lookupAccount db (t_credit_account_id t)));
    rewrite ?recordAccountBalance_balances, ?recordAccountBalance_lookupAccount,
            ?recordAccountBalance_balances, ?Hb; reflexivity.
Qed.

(** X13: history. When a transfer is stored, each of its two accounts that
    carries the [history] flag gets a snapshot under the transfer's
    timestamp holding the account's totals after the transfer; for an
    account without the flag, and under every other key, [account_balances]
    is left as it was. *)
Theorem history_snapshots now i st t x :
  let st' := createTransfers_step now i st t in
  lookupTransfer (l_db st) (t_id t) = None ->
  lookupTransfer (l_db st') (t_id t) = Some x ->
  (forall acc, acc = t_debit_account_id t \/ acc = t_credit_account_id t ->
     exists a', lookupAccount (l_db st') acc = Some a' /\
       account_balances (l_db st') !! (acc, t_timestamp x)
       = if truthy (js_and (a_flags a') AccountFlags.history)
         then Some (mkAccountBalance acc (a_debits_pending a') (a_debits_posted a')
                      (a_credits_pending a') (a_credits_posted a') (t_timestamp x))
         else account_balances (l_db st) !! (acc, t_timestamp x)) /\
  (forall acc ts,
     (acc <> t_debit_account_id t /\ acc <> t_credit_account_id t) \/ ts <> t_timestamp x ->
     account_balances (l_db st') !! (acc, ts) = account_balances (l_db st) !! (acc, ts)).
Proof.
  intros st' Hnew Hx.
  destruct (createTransfers_step_stored now i st t x Hnew Hx)
    as (d & c & Hv & Hd & Hc & _ & Hrow & Hs).
  fold st' in Hs.
  pose proof (validateTransfer_ok_distinct t Hv) as Hne.
  assert (Hxd : t_debit_account_id x = t_debit_account_id t) by (rewrite Hrow; reflexivity).
  assert (Hxc : t_credit_account_id x = t_credit_account_id t) by (rewrite Hrow; reflexivity).
  pose proof (applied_debit_account x (l_db st) d) as Hda.
  pose proof (applied_credit_account x (l_db st) c) as Hca.
  rewrite Hxd, Hxc in Hda, Hca. specialize (Hda Hne Hd). specialize (Hca Hc).
  rewrite decide_False in Hca by exact Hne.
  pose proof (updateAccountBalances_balances x (insert_transfer x (l_db st))) as Hb.
  cbv zeta in Hb. rewrite Hxd, Hxc, Hda, Hca in Hb.
  change (lookupAccount (insert_transfer x (l_db st)) (t_debit_account_id t))
    with (lookupAccount (l_db st) (t_debit_account_id t)) in Hb.
  change (lookupAccount (insert_transfer x (l_db st)) (t_credit_account_id t))
    with (lookupAccount (l_db st) (t_credit_account_id t)) in Hb.
  change (account_balances (insert_transfer x (l_db st)))
    with (account_balances (l_db st)) in Hb.
  rewrite Hd, Hc in Hb. cbn [has_history] in Hb.
  assert (Hfd : a_flags (debit_update x d) = a_flags d)
    by (destruct (debit_update_identity x d) as (_ & _ & _ & _ & _ & _ & _ & H & _); exact H).
  assert (Hfc : a_flags (credit_update x c) = a_flags c)
    by (destruct (credit_update_identity x c) as (_ & _ & _ & _ & _ & _ & _ & H & _); exact H).
  rewrite Hs. cbn [l_db]. rewrite Hb.
  split.
  - intros acc [->| ->].
    + exists (debit_update x d). split; [exact Hda|]. rewrite Hfd.
      destruct (truthy (js_and (a_flags d) AccountFlags.history));
        destruct (truthy (js_and (a_flags c) AccountFlags.history));
        rewrite ?lookup_insert_eq, ?(lookup_insert_ne _ (t_credit_account_id t, _))
          by congruence;
        rewrite ?lookup_insert_eq; reflexivity.
    + exists (credit_update x c). split; [exact Hca|]. rewrite Hfc.
      destruct (truthy (js_and (a_flags d) AccountFlags.history));
        destruct (truthy (js_and (a_flags c) AccountFlags.history));
        rewrite ?lookup_insert_eq, ?(lookup_insert_ne _ (t_debit_account_id t, _))
          by congruence;
        reflexivity.
  - intros acc ts Hother.
    destruct (truthy (js_and (a_flags d) AccountFlags.history));
      destruct (truthy (js_and (a_flags c) AccountFlags.history));
      rewrite ?lookup_insert_ne by (intros Heq; inversion Heq; subst; tauto);
      reflexivity.
Qed.

Lemma history_snapshots_witness :
  let db := mkStore {[ 1 := mkAccount 1 0 0 0 0 0 0 0 0 1 1 AccountFlags.history 7;
                       2 := mkAccount 2 0 0 0 0 0 0 0 0 1 1 0 8 ]} ∅ ∅ ∅ in
  let st := mkLoop db (@nil CreateTransfersError) 0 in
  let t := mkTransfer 10 1 2 50 0 0 0 0 0 1 1 0 0 in
  let st' := createTransfers_step 5 0 st t in
  exists a', lookupAccount (l_db st') 1 = Some a' /\
    account_balances (l_db st') !! (1, 5000000)
    = if truthy (js_and (a_flags a') AccountFlags.history)
      then Some (mkAccountBalance 1 (a_debits_pending a') (a_debits_posted a')
                   (a_credits_pending a') (a_credits_posted a') 5000000)
      else account_balances (l_db st) !! (1, 5000000).
Proof.
  intros db st t st'.
  refine (proj1 (history_snapshots 5 0 st t (mkTransfer 10 1 2 50 0 0 0 0 0 1 1 0 5000000) _ _)
            1 (or_introl eq_refl)).
  - reflexivity.
  - vm_compute. reflexivity.
Defined.

(** *** Balancing transfers and the limits *)

Lemma validateTransfer_no_limit (t : Transfer) : limit_error (validateTransfer t) = false.
Proof. unfold validateTransfer. case_ifs; reflexivity. Qed.

Lemma validateTransferExists_no_limit (e n : Transfer) :
  limit_error (validateTransferExists e n) = false.
Proof. unfold validateTransferExists. case_ifs; reflexivity. Qed.

Lemma wouldOverflowAccount_no_limit a x y e :
  wouldOverflowAccount a x y = Some e -> limit_error e = false.
Proof.
  unfold wouldOverflowAccount. case_ifs; intros H; inversion H; reflexivity.
Qed.

Lemma validateTransferAccounts_limit t d c p s :
  limit_error (validateTransferAccounts t (Some d) (Some c) p s) = true ->
  validateTransferAccounts t (Some d) (Some c) p s
  = if negb (canDebitAccount d (t_amount t)) then CreateTransferError.exceeds_credits
    else CreateTransferError.exceeds_debits.
Proof.
  unfold validateTransferAccounts.
  destruct p as [p|]; destruct s as [[]|]; case_ifs; cbn [limit_error];
    intros H; try discriminate H; reflexivity.
Qed.

Lemma push_inj {E : Type} (e e' : E) (st : Loop E) : push e st = push e' st -> e = e'.
Proof.
  intros H. apply (f_equal l_errors) in H. cbn [push l_errors] in H.
  apply app_inv_head in H. congruence.
Qed.

Lemma push_neq {E : Type} (e : E) (st st' : Loop E) :
  l_errors st' = l_errors st -> st' <> push e st.
Proof.
  intros H Heq. rewrite Heq in H. cbn [push l_errors] in H.
  apply (f_equal (@length E)) in H. rewrite length_app in H. cbn [length] in H. lia.
Qed.

(** A pass that reports [e] has reached the check that produces [e]. *)
Lemma createTransfers_step_rejection now i st t e :
  createTransfers_step now i st t = push (mkTransfersError i e) st -> rejection st t e.
Proof.
  intros H.
  destruct (createTransfers_step_cases now i st t)
    as [(e' & _ & Hr & Hs) | [(_ & Hs) | (d & c & _ & _ & _ & _ & _ & _ & _ & _ & Hs)]].
  - rewrite Hs in H. apply push_inj in H. inversion H; subst e'. exact Hr.
  - exfalso. revert H. apply push_neq. rewrite Hs. reflexivity.
  - exfalso. revert H. apply push_neq. rewrite Hs. reflexivity.
Qed.

Lemma canDebitAccount_balancing t d c :
  truthy (js_and (t_flags t) TransferFlags.balancing_debit) = true ->
  0 < t_amount t -> calculateBalancingAmount t d c <> 0 ->
  canDebitAccount d (calculateBalancingAmount t d c) = true.
Proof.
  intros Hb Hpos. rewrite (calculateBalancingAmount_debit t d c Hb).
  unfold canDebitAccount, debit_capacity. cbv zeta.
  destruct (truthy (js_and (a_flags d) AccountFlags.debits_must_not_exceed_credits));
    [|reflexivity].
  intros Hnz. apply Z.leb_le. lia.
Qed.

Lemma canCreditAccount_balancing t d c :
  truthy (js_and (t_flags t) TransferFlags.balancing_debit) = false ->
  truthy (js_and (t_flags t) TransferFlags.balancing_credit) = true ->
  0 < t_amount t -> calculateBalancingAmount t d c <> 0 ->
  canCreditAccount c (calculateBalancingAmount t d c) = true.
Proof.
  intros Hd Hb Hpos. rewrite (calculateBalancingAmount_credit t d c Hd Hb).
  unfold canCreditAccount, credit_capacity. cbv zeta.
  destruct (truthy (js_and (a_flags c) AccountFlags.credits_must_not_exceed_debits));
    [|reflexivity].
  intros Hnz. apply Z.leb_le. lia.
Qed.

(** X14: a balancing transfer with a positive amount is never rejected for the
    limit it balances against: [balancing_debit] never gives
    [exceeds_credits], [balancing_credit] never gives [exceeds_debits]. *)
Theorem balancing_respects_limit now i st t e :
  0 < t_amount t ->
  createTransfers_step now i st t = push (mkTransfersError i e) st ->
  (truthy (js_and (t_flags t) TransferFlags.balancing_debit) = true ->
   e <> CreateTransferError.exceeds_credits) /\
  (truthy (js_and (t_flags t) TransferFlags.balancing_credit) = true ->
   e <> CreateTransferError.exceeds_debits).
Proof.
  intros Hpos Hs. apply createTransfers_step_rejection in Hs.
  assert (Hlimit : limit_error e = true ->
            exists d c,
              validateTransfer t = CreateTransferError.ok /\
              calculateBalancingAmount t d c <> 0 /\
              e = (if negb (canDebitAccount d (calculateBalancingAmount t d c))
                   then CreateTransferError.exceeds_credits
                   else CreateTransferError.exceeds_debits) /\
              (e = CreateTransferError.exceeds_debits ->
               canCreditAccount c (calculateBalancingAmount t d c) = false)).
  { intros Hl. unfold rejection in Hs. cbv zeta in Hs.
    destruct Hs as [-> | (Hv & [(x & _ & ->) | (_ & Hs)])].
    - rewrite validateTransfer_no_limit in Hl. discriminate.
    - rewrite validateTransferExists_no_limit in Hl. discriminate.
    - destruct (lookupAccount (l_db st) (t_debit_account_id t)) as [d|];
        [|subst e; discriminate].
      destruct (lookupAccount (l_db st) (t_credit_account_id t)) as [c|];
        [|subst e; discriminate].
      destruct Hs as (Hnz & [He | [Ho | Ho]]).
      + exists d, c. split; [exact Hv|]. split; [exact Hnz|].
        rewrite He in Hl. pose proof (validateTransferAccounts_limit _ _ _ _ _ Hl) as Heq.
        change (t_amount (set_amount (calculateBalancingAmount t d c) t))
          with (calculateBalancingAmount t d c) in Heq.
        rewrite <- He in Heq. split; [exact Heq|].
        intros Hed. rewrite Hed in He. symmetry in He. revert He.
        unfold validateTransferAccounts.
        destruct (fst (pending_lookup (l_db st) t));
          destruct (or_undefined (snd (pending_lookup (l_db st) t))) as [[]|];
          case_ifs; intros H; try discriminate H;
          change (t_amount (set_amount (calculateBalancingAmount t d c) t))
            with (calculateBalancingAmount t d c) in *;
          assumption.
      + apply wouldOverflowAccount_no_limit in Ho. congruence.
      + apply wouldOverflowAccount_no_limit in Ho. congruence. }
  split; intros Hflag He; subst e; destruct (Hlimit eq_refl) as (d & c & Hv & Hnz & Heq & Hcredit).
  - rewrite (canDebitAccount_balancing t d c Hflag Hpos Hnz) in Heq. discriminate.
  - pose proof (validateTransfer_ok_balancing t Hv) as Hexcl.
    rewrite Hflag, andb_true_r in Hexcl.
    rewrite (canCreditAccount_balancing t d c Hexcl Hflag Hpos Hnz) in Hcredit.
    specialize (Hcredit eq_refl). discriminate.
Qed.

Lemma balancing_respects_limit_witness :
  let d := mkAccount 1 0 0 0 100 0 0 0 0 1 1 AccountFlags.debits_must_not_exceed_credits 7 in
  let c := mkAccount 2 0 0 0 0 0 0 0 0 1 1 AccountFlags.credits_must_not_exceed_debits 8 in
  let st := mkLoop (mkStore {[ 1 := d; 2 := c ]} ∅ ∅ ∅) (@nil CreateTransfersError) 0 in
  let t := mkTransfer 10 1 2 500 0 0 0 0 0 1 1 TransferFlags.balancing_debit 0 in
  createTransfers_step 5 0 st t = push (mkTransfersError 0 CreateTransferError.exceeds_debits) st
  /\ CreateTransferError.exceeds_debits <> CreateTransferError.exceeds_credits.
Proof.
  intros d c st t.
  assert (Hstep : createTransfers_step 5 0 st t
                  = push (mkTransfersError 0 CreateTransferError.exceeds_debits) st)
    by (vm_compute; reflexivity).
  split; [exact Hstep|].
  refine (proj1 (balancing_respects_limit 5 0 st t CreateTransferError.exceeds_debits
                   _ Hstep) _).
  - cbn. lia.
  - reflexivity.
Defined.

(** *** Submitting a stored transfer again *)

Lemma validateTransferExists_stored ts r (t : Transfer) :
  validateTransferExists (set_transfer_timestamp ts (set_amount r t)) t
  = if r =? t_amount t then CreateTransferError.exists_
    else CreateTransferError.exists_with_different_amount.
Proof.
  unfold validateTransferExists. cbn [set_transfer_timestamp set_amount t_flags
    t_debit_account_id t_credit_account_id t_amount t_pending_id t_user_data_128
    t_user_data_64 t_user_data_32 t_timeout t_ledger t_code].
  rewrite !Z.eqb_refl. cbn [negb]. destruct (r =? t_amount t); reflexivity.
Qed.

(** X15: idempotent retry. A transfer that a pass of [createTransfers] stored
    stays stored to the end of the batch, and submitting the same transfer
    again changes nothing and is answered [exists]; only when balancing
    stored a smaller amount is the answer [exists_with_different_amount]. *)
Theorem createTransfers_retry clock clock' db (pre post : list Transfer) t x :
  let st := transfers_state_after clock db pre in
  let db' := fst (createTransfers clock db (pre ++ t :: post)) in
  lookupTransfer (l_db st) (t_id t) = None ->
  lookupTransfer (l_db (createTransfers_step (clock (length pre)) (length pre) st t)) (t_id t)
  = Some x ->
  lookupTransfer db' (t_id t) = Some x /\
  createTransfers clock' db' [t]
  = (db', [mkTransfersError 0
             (if t_amount x =? t_amount t then CreateTransferError.exists_
              else CreateTransferError.exists_with_different_amount)]) /\
  (is_balancing t = false -> t_amount x = t_amount t).
Proof.
  intros st db' Hnew Hx.
  destruct (createTransfers_step_stored _ _ st t x Hnew Hx)
    as (d & c & Hv & _ & _ & _ & Hrow & _).
  assert (Hkept : lookupTransfer db' (t_id t) = Some x).
  { unfold db', createTransfers. cbn [fst]. rewrite batch_loop_split.
    apply createTransfers_loop_keeps_transfers. exact Hx. }
  split; [exact Hkept|]. split.
  - unfold createTransfers. cbn [batch_loop fst snd].
    rewrite (createTransfers_step_exists _ _ _ _ x Hv) by exact Hkept.
    cbn [push l_db l_errors app]. rewrite Hrow at 1. unfold accepted_row.
    rewrite validateTransferExists_stored. rewrite Hrow. reflexivity.
  - intros Hb. rewrite Hrow. apply calculateBalancingAmount_not_balancing. exact Hb.
Qed.

Lemma createTransfers_retry_witness :
  let db := mkStore {[ 1 := mkAccount 1 0 0 0 0 0 0 0 0 1 1 0 7;
                       2 := mkAccount 2 0 0 0 0 0 0 0 0 1 1 0 8 ]} ∅ ∅ ∅ in
  let t := mkTransfer 10 1 2 50 0 0 0 0 0 1 1 0 0 in
  let db' := fst (createTransfers (fun _ => 5) db ([] ++ t :: [])) in
  createTransfers (fun _ => 6) db' [t]
  = (db', [mkTransfersError 0 CreateTransferError.exists_]).
Proof.
  intros db t db'.
  refine (proj1 (proj2 (createTransfers_retry (fun _ => 5) (fun _ => 6) db [] [] t
                          (mkTransfer 10 1 2 50 0 0 0 0 0 1 1 0 5000000) _ _))).
  - reflexivity.
  - vm_compute. reflexivity.
Defined.

(** X16: a pending transfer that is stored is registered in
    [pending_transfers] with status [pending], the timestamp of the transfer
    and, when it has a timeout, the expiry [timeout] seconds after that
    timestamp; a stored transfer that is not pending gets no row of its
    own. *)
Theorem pending_transfer_is_registered now i st t x :
  let st' := createTransfers_step now i st t in
  lookupTransfer (l_db st) (t_id t) = None ->
  lookupTransfer (l_db st') (t_id t) = Some x ->
  pending_transfers (l_db st') !! t_id t
  = if is_pending t
    then Some (mkPendingTransferRow TransferPendingStatus.pending
                 (if t_timeout t >? 0 then t_timestamp x + t_timeout t * 1000000000 else 0)
                 (t_timestamp x))
    else pending_transfers (l_db st) !! t_id t.
Proof.
  intros st' Hnew Hx.
  destruct (createTransfers_step_stored now i st t x Hnew Hx)
    as (d & c & Hv & _ & _ & _ & Hrow & Hs).
  fold st' in Hs. rewrite Hs. cbn [l_db]. rewrite updateAccountBalances_pending.
  destruct (validateTransfer_ok_two_phase t Hv) as (E1 & E2 & E3).
  destruct (trigger_tests (t_flags t)) as (Hp & Hq & Hvoid).
  assert (Hflags : t_flags x = t_flags t) by (rewrite Hrow; reflexivity).
  assert (Hid : t_id x = t_id t) by (rewrite Hrow; reflexivity).
  assert (Hpid : t_pending_id x = t_pending_id t) by (rewrite Hrow; reflexivity).
  assert (Htimeout : t_timeout x = t_timeout t) by (rewrite Hrow; reflexivity).
  unfold insert_transfer. cbv zeta. cbn [pending_transfers].
  rewrite Hflags, Hid, Hpid, Htimeout, Hp, Hq, Hvoid.
  unfold is_pending in *.
  destruct (truthy (js_and (t_flags t) TransferFlags.pending)) eqn:Ep; cbn [andb] in *.
  - rewrite E1, E2. cbn [andb]. apply lookup_insert_eq.
  - assert (Hne : t_pending_id t <> t_id t).
    { clear - Hv Ep. pose proof (validateTransfer_ok_rules t Hv) as HF. split_rules HF.
      unfold is_pending in *. rewrite Ep in *. cbn [negb andb] in *.
      destruct (is_post_or_void t) eqn:Epv; cbn [negb andb] in *.
      - bools_to_props. assumption.
      - apply negb_false_iff in Hrule19. bools_to_props. congruence. }
    repeat match goal with
           | |- context [if ?b && ?c then _ else _] => destruct (b && c)
           end;
      rewrite ?lookup_alter_ne by exact Hne; reflexivity.
Qed.

Lemma pending_transfer_is_registered_witness :
  let db := mkStore {[ 1 := mkAccount 1 0 0 0 0 0 0 0 0 1 1 0 7;
                       2 := mkAccount 2 0 0 0 0 0 0 0 0 1 1 0 8 ]} ∅ ∅ ∅ in
  let st := mkLoop db (@nil CreateTransfersError) 0 in
  let t := mkTransfer 10 1 2 50 0 0 0 0 30 1 1 TransferFlags.pending 0 in
  pending_transfers (l_db (createTransfers_step 5 0 st t)) !! 10
  = Some (mkPendingTransferRow TransferPendingStatus.pending (5000000 + 30 * 1000000000)
            5000000).
Proof.
  intros db st t.
  refine (pending_transfer_is_registered 5 0 st t
            (mkTransfer 10 1 2 50 0 0 0 0 30 1 1 TransferFlags.pending 5000000) _ _).
  - reflexivity.
  - vm_compute. reflexivity.
Defined.

(** *** Timestamps of the accounts of a batch *)

Lemma next_timestamp_clock now last : now * 1000000 <= next_timestamp now last.
Proof. unfold next_timestamp. cbv zeta. destruct (_ <=? _) eqn:H; bools_to_props; lia. Qed.

Lemma createAccounts_step_fresh_timestamps orig now i st a :
  fresh_account_timestamps orig st ->
  fresh_account_timestamps orig (createAccounts_step now i st a).
Proof.
  intros (Hlast & Hpos & Hinj).
  destruct (createAccounts_step_cases now i st a) as [(e & _ & ->) | (_ & Hnew & ->)].
  - split; [|split]; assumption.
  - pose proof (next_timestamp_gt now (l_lastTimestamp st)) as Hgt.
    unfold fresh_account_timestamps, lookupAccount in *. cbv zeta.
    cbn [l_db l_lastTimestamp accounts].
    split; [lia|]. split.
    + intros id x Ho Hx. destruct (decide (id = a_id a)) as [->|Hne].
      * rewrite lookup_insert_eq in Hx. inversion Hx; subst x. cbn. lia.
      * rewrite lookup_insert_ne in Hx by congruence. specialize (Hpos id x Ho Hx). lia.
    + intros id1 id2 x1 x2 Hne Ho1 Ho2 H1 H2.
      destruct (decide (id1 = a_id a)) as [->|Hne1];
        destruct (decide (id2 = a_id a)) as [->|Hne2]; try congruence.
      * rewrite lookup_insert_eq in H1. rewrite lookup_insert_ne in H2 by congruence.
        inversion H1; subst x1. specialize (Hpos id2 x2 Ho2 H2). cbn. lia.
      * rewrite lookup_insert_eq in H2. rewrite lookup_insert_ne in H1 by congruence.
        inversion H2; subst x2. specialize (Hpos id1 x1 Ho1 H1). cbn. lia.
      * rewrite lookup_insert_ne in H1, H2 by congruence. eauto.
Qed.

Lemma createAccounts_loop_fresh_timestamps orig clock (batch : list Account) :
  forall i st,
    fresh_account_timestamps orig st ->
    fresh_account_timestamps orig (batch_loop createAccounts_step clock i batch st).
Proof.
  induction batch as [|a rest IH]; intros i st H; cbn [batch_loop].
  - exact H.
  - apply IH, createAccounts_step_fresh_timestamps, H.
Qed.

Lemma fresh_account_timestamps_initial db : fresh_account_timestamps db (mkLoop db [] 0).
Proof.
  unfold fresh_account_timestamps. cbn [l_db l_lastTimestamp]. split; [lia|].
  split; intros; congruence.
Qed.

(** X17: the timestamps [createAccounts] assigns within one call are pairwise
    distinct, and the account stored by a pass carries a timestamp that is
    at least the clock reading in nanoseconds and greater than that of every
    account stored by an earlier pass. *)
Theorem createAccounts_timestamps clock db :
  (forall (batch : list Account) id1 id2 x1 x2,
     let db' := fst (createAccounts clock db batch) in
     id1 <> id2 ->
     lookupAccount db id1 = None -> lookupAccount db id2 = None ->
     lookupAccount db' id1 = Some x1 -> lookupAccount db' id2 = Some x2 ->
     a_timestamp x1 <> a_timestamp x2) /\
  (forall (pre : list Account) a x,
     let st := accounts_state_after clock db pre in
     let st' := createAccounts_step (clock (length pre)) (length pre) st a in
     lookupAccount (l_db st) (a_id a) = None ->
     lookupAccount (l_db st') (a_id a) = Some x ->
     clock (length pre) * 1000000 <= a_timestamp x /\
     forall id y,
       lookupAccount db id = None -> lookupAccount (l_db st) id = Some y ->
       a_timestamp y < a_timestamp x).
Proof.
  split.
  - intros batch id1 id2 x1 x2 db'.
    destruct (createAccounts_loop_fresh_timestamps db clock batch 0%nat _
                (fresh_account_timestamps_initial db)) as (_ & _ & Hinj).
    apply Hinj.
  - intros pre a x st st' Hnew Hx.
    destruct (createAccounts_loop_fresh_timestamps db clock pre 0%nat _
                (fresh_account_timestamps_initial db)) as (_ & Hpos & _).
    fold (accounts_state_after clock db pre) in Hpos. fold st in Hpos.
    destruct (createAccounts_step_cases (clock (length pre)) (length pre) st a)
      as [(e & _ & Hs) | (_ & _ & Hs)]; fold st' in Hs; rewrite Hs in Hx.
    + cbn [push l_db] in Hx. congruence.
    + cbv zeta in Hx. cbn [l_db] in Hx. unfold lookupAccount in Hx. cbn [accounts] in Hx.
      rewrite lookup_insert_eq in Hx. inversion Hx; subst x. cbn [a_timestamp set_account_timestamp].
      pose proof (next_timestamp_gt (clock (length pre)) (l_lastTimestamp st)) as Hgt.
      pose proof (next_timestamp_clock (clock (length pre)) (l_lastTimestamp st)) as Hclock.
      split; [exact Hclock|].
      intros id y Ho Hy. specialize (Hpos id y Ho Hy). lia.
Qed.

Lemma createAccounts_timestamps_witness :
  let x1 := mkAccount 8 0 0 0 0 0 0 0 0 1 1 0 5000000 in
  let x2 := mkAccount 9 0 0 0 0 0 0 0 0 1 1 0 5000001 in
  a_timestamp x1 <> a_timestamp x2.
Proof.
  intros x1 x2.
  refine (proj1 (createAccounts_timestamps (fun _ => 5) empty_store)
            [mkAccount 8 0 0 0 0 0 0 0 0 1 1 0 0; mkAccount 9 0 0 0 0 0 0 0 0 1 1 0 0]
            8 9 x1 x2 _ _ _ _ _).
  - lia.
  - reflexivity.
  - reflexivity.
  - vm_compute. reflexivity.
  - vm_compute. reflexivity.
Defined.

(** *** Lookups of several ids *)

Lemma by_id_strict {A : Type} (rows : list (Z * A)) :
  StronglySorted by_id rows -> NoDup rows.*1 ->
  StronglySorted (fun row1 row2 => fst row1 < fst row2) rows.
Proof.
  induction 1 as [|row rows Hsorted IH Hall]; intros Hnodup.
  - constructor.
  - cbn in Hnodup. apply NoDup_cons in Hnodup as [Hnotin Hnodup].
    constructor; [apply IH; exact Hnodup|].
    apply List.Forall_forall. intros row' Hin.
    rewrite List.Forall_forall in Hall. specialize (Hall row' Hin). unfold by_id in Hall.
    assert (fst row <> fst row'); [|lia].
    intros Heq. apply Hnotin. rewrite Heq.
    apply list_elem_of_fmap. exists row'. split; [reflexivity|].
    apply list_elem_of_In. exact Hin.
Qed.

(** The rows the query selects: strictly ascending in the id, and exactly
    the rows of the table whose id is among the requested ones. *)
Lemma select_by_ids_rows {A : Type} (table : gmap Z A) (ids : list Z) :
  exists rows : list (Z * A),
    select_by_ids table ids = snd <$> rows /\
    StronglySorted (fun row1 row2 => fst row1 < fst row2) rows /\
    forall id x, In (id, x) rows <-> In id ids /\ table !! id = Some x.
Proof.
  set (selected := filter (fun row : Z * A => fst row ∈ ids) (map_to_list table)).
  exists (merge_sort by_id selected). split; [reflexivity|]. split.
  - apply by_id_strict.
    + apply StronglySorted_merge_sort.
      * intros x y z. unfold by_id. lia.
      * intros x y. unfold by_id. lia.
    + rewrite merge_sort_Permutation. unfold selected.
      assert (Hsub : sublist (filter (fun row : Z * A => fst row ∈ ids) (map_to_list table)).*1
                       (map_to_list table).*1).
      { apply fmap_sublist, sublist_filter. }
      exact (sublist_NoDup _ _ (NoDup_fst_map_to_list table) Hsub).
  - intros id x. rewrite <- list_elem_of_In, merge_sort_Permutation. unfold selected.
    rewrite list_elem_of_filter, elem_of_map_to_list, list_elem_of_In. reflexivity.
Qed.

Lemma select_by_ids_spec {A : Type} (key : A -> Z) (table : gmap Z A) (ids : list Z) :
  (forall x, In x (select_by_ids table ids) <-> exists id, In id ids /\ table !! id = Some x) /\
  ((forall id x, table !! id = Some x -> key x = id) ->
   StronglySorted (fun x y => key x < key y) (select_by_ids table ids)).
Proof.
  destruct (select_by_ids_rows table ids) as (rows & -> & Hsorted & Hrows). split.
  - intros x. rewrite <- list_elem_of_In, list_elem_of_fmap. split.
    + intros ([id y] & -> & Hin). exists id. apply Hrows. apply list_elem_of_In. exact Hin.
    + intros (id & Hid & Hx). exists (id, x). split; [reflexivity|].
      apply list_elem_of_In, Hrows. auto.
  - intros Hkey.
    assert (Hkeys : forall row, In row rows -> key (snd row) = fst row).
    { intros [id x] Hin. apply Hkey. apply Hrows. exact Hin. }
    clear Hrows. induction Hsorted as [|row rows Hsorted IH Hall]; cbn.
    + constructor.
    + constructor.
      * apply IH. intros r Hr. apply Hkeys. right. exact Hr.
      * apply List.Forall_forall. intros y Hy.
        apply list_elem_of_In, list_elem_of_fmap in Hy. destruct Hy as (r & -> & Hr).
        apply list_elem_of_In in Hr. rewrite List.Forall_forall in Hall.
        specialize (Hall r Hr). rewrite (Hkeys row), (Hkeys r); [exact Hall| |]; cbn; auto.
Qed.

(** X18: [lookupAccounts] and [lookupTransfers] return exactly the stored rows
    whose id is among the requested ones, each once and in ascending order
    of the id, whatever the order and the repetitions of the request; ids
    that are not stored give no entry. *)
Theorem lookup_many_sorted (db : Store) (ids : list Z) :
  (forall a, In a (lookupAccounts db ids) <->
             exists id, In id ids /\ lookupAccount db id = Some a) /\
  ((forall id a, lookupAccount db id = Some a -> a_id a = id) ->
   StronglySorted (fun a b => a_id a < a_id b) (lookupAccounts db ids)) /\
  (forall t, In t (lookupTransfers db ids) <->
             exists id, In id ids /\ lookupTransfer db id = Some t) /\
  ((forall id t, lookupTransfer db id = Some t -> t_id t = id) ->
   StronglySorted (fun a b => t_id a < t_id b) (lookupTransfers db ids)).
Proof.
  unfold lookupAccounts, lookupTransfers, lookupAccount, lookupTransfer.
  destruct ids as [|id ids].
  - repeat split; try constructor; try contradiction.
    all: intros (? & [] & _).
  - destruct (select_by_ids_spec a_id (accounts db) (id :: ids)) as [H1 H2].
    destruct (select_by_ids_spec t_id (transfers db) (id :: ids)) as [H3 H4].
    auto.
Qed.

Lemma lookup_many_sorted_witness :
  let db := mkStore {[ 1 := mkAccount 1 0 0 0 0 0 0 0 0 1 1 0 7;
                       3 := mkAccount 3 0 0 0 0 0 0 0 0 1 1 0 8;
                       5 := mkAccount 5 0 0 0 0 0 0 0 0 1 1 0 9 ]} ∅ ∅ ∅ in
  StronglySorted (fun a b => a_id a < a_id b) (lookupAccounts db [5; 1; 7; 5]).
Proof.
  intros db. apply (proj1 (proj2 (lookup_many_sorted db [5; 1; 7; 5]))).
  intros id a. unfold lookupAccount, db. cbn [accounts].
  rewrite !lookup_insert_Some, lookup_singleton_Some.
  intros [[<- <-] | [_ [[<- <-] | [_ [<- <-]]]]]; reflexivity.
Defined.

(** *** Identifiers as numbers *)

Lemma createId_sum t r : createId t r = (t mod 2 ^ 48) * 2 ^ 80 + r mod 2 ^ 80.
Proof.
  rewrite createId_layout.
  rewrite Z.lor_comm, lor_shiftl_add; [lia|lia|]. apply Z.mod_pos_bound. lia.
Qed.

(** X19: [createId] always returns a 128-bit value and reads only the low 48
    bits of the timestamp and the low 80 bits of the random part; [parseId]
    gives these truncated parts back. *)
Theorem createId_truncates t r :
  0 <= createId t r < 2 ^ 128 /\
  createId t r = createId (t mod 2 ^ 48) (r mod 2 ^ 80) /\
  parseId (createId t r) = (t mod 2 ^ 48, r mod 2 ^ 80).
Proof.
  pose proof (Z.mod_pos_bound t (2 ^ 48) ltac:(lia)) as Ht.
  pose proof (Z.mod_pos_bound r (2 ^ 80) ltac:(lia)) as Hr.
  split; [|split].
  - rewrite createId_sum. lia.
  - rewrite !createId_sum, !Z.mod_mod by lia. reflexivity.
  - rewrite parseId_layout, createId_sum.
    rewrite Z.shiftr_div_pow2 by lia.
    rewrite (Z.add_comm _ (r mod 2 ^ 80)), Z.div_add, Z.mod_add by lia.
    rewrite Z.div_small, Z.add_0_l, !Z.mod_mod by lia. reflexivity.
Qed.

(** X20: [createId] inverts [parseId] on every 128-bit value. *)
Theorem create_parse_roundtrip (x : Z) :
  0 <= x < 2 ^ 128 ->
  createId (fst (parseId x)) (snd (parseId x)) = x.
Proof.
  intros Hx. rewrite parseId_layout. cbn [fst snd].
  rewrite createId_sum, !Z.mod_mod by lia.
  rewrite Z.shiftr_div_pow2 by lia.
  assert (Hq : 0 <= x / 2 ^ 80 < 2 ^ 48).
  { split; [apply Z.div_pos; lia|]. apply Z.div_lt_upper_bound; lia. }
  rewrite (Z.mod_small (x / 2 ^ 80)) by exact Hq.
  pose proof (Z.div_mod x (2 ^ 80) ltac:(lia)). lia.
Qed.

Lemma create_parse_roundtrip_witness :
  createId (fst (parseId (2 ^ 127 + 12345))) (snd (parseId (2 ^ 127 + 12345)))
  = 2 ^ 127 + 12345.
Proof. apply create_parse_roundtrip. lia. Defined.

(** X21: identifiers sort by time: between parts that fit their fields,
    [createId] is ordered by the timestamp first and the random part
    second. *)
Theorem createId_sorts_by_time t1 r1 t2 r2 :
  0 <= t1 < 2 ^ 48 -> 0 <= r1 < 2 ^ 80 -> 0 <= t2 < 2 ^ 48 -> 0 <= r2 < 2 ^ 80 ->
  (createId t1 r1 < createId t2 r2 <-> t1 < t2 \/ (t1 = t2 /\ r1 < r2)).
Proof.
  intros Ht1 Hr1 Ht2 Hr2. rewrite !createId_sum, !Z.mod_small by assumption. lia.
Qed.

Lemma createId_sorts_by_time_witness :
  createId 1700000000000 (2 ^ 80 - 1) < createId 1700000000001 0.
Proof.
  apply (createId_sorts_by_time 1700000000000 (2 ^ 80 - 1) 1700000000001 0); lia.
Defined.

(** X22: an identifier built by [createId] from parts that fit their fields
    passes [isValidId] unless it is all zeros or all ones. *)
Theorem createId_valid t r :
  0 <= t < 2 ^ 48 -> 0 <= r < 2 ^ 80 ->
  isValidId (createId t r)
  = negb ((t =? 0) && (r =? 0)) && negb ((t =? 2 ^ 48 - 1) && (r =? 2 ^ 80 - 1)).
Proof.
  intros Ht Hr. unfold isValidId. rewrite createId_sum, !Z.mod_small by assumption.
  rewrite Z.gtb_ltb.
  destruct (t =? 0) eqn:E1; destruct (r =? 0) eqn:E2;
    destruct (t =? 2 ^ 48 - 1) eqn:E3; destruct (r =? 2 ^ 80 - 1) eqn:E4;
    bools_to_props; cbn [negb andb]; try lia;
    repeat match goal with
           | |- _ && _ = true => apply andb_true_intro; split
           | |- _ && _ = false => apply andb_false_iff
           | |- (_ <? _) = true => apply Z.ltb_lt
           end; try lia.
  all: try (right; apply Z.ltb_ge; lia); try (left; apply Z.ltb_ge; lia).
Qed.

Lemma createId_valid_witness :
  isValidId (createId 1700000000000 7) = true.
Proof. exact (createId_valid 1700000000000 7 ltac:(lia) ltac:(lia)). Defined.

(** X23: on ids that are not negative [isValidId] states the two id rules of
    [validateAccount] and [validateTransfer]: it fails exactly when they
    answer [id_must_not_be_zero] or [id_must_not_be_int_max]. *)
Theorem isValidId_is_the_id_rule :
  (forall a : Account, 0 <= a_id a ->
     (isValidId (a_id a) = false <->
      validateAccount a = CreateAccountError.id_must_not_be_zero \/
      validateAccount a = CreateAccountError.id_must_not_be_int_max)) /\
  (forall t : Transfer, 0 <= t_id t ->
     (isValidId (t_id t) = false <->
      validateTransfer t = CreateTransferError.id_must_not_be_zero \/
      validateTransfer t = CreateTransferError.id_must_not_be_int_max)).
Proof.
  split.
  - intros a Ha. unfold isValidId. rewrite Z.gtb_ltb.
    rewrite validateAccount_rule_order.
    unfold first_violated, account_rule_order. cbn [find fst snd].
    destruct (a_id a =? 0) eqn:E1; [bools_to_props; rewrite E1; cbn; tauto|].
    destruct (a_id a >=? 2 ^ 128 - 1) eqn:E2.
    + rewrite Z.geb_leb in E2. bools_to_props. split; [tauto|]. intros _.
      apply andb_false_iff. right. apply Z.ltb_ge. lia.
    + rewrite Z.geb_leb in E2. bools_to_props. split.
      * intros H. apply andb_false_iff in H. destruct H as [H|H]; bools_to_props; lia.
      * intros [H|H]; exfalso; revert H;
          repeat match goal with
                 | |- context [find _ (_ :: _)] => cbn [find fst snd]
                 | |- context [if ?c then _ else _] => destruct c
                 end; cbn; discriminate.
  - intros t Ht. unfold isValidId. rewrite Z.gtb_ltb.
    rewrite validateTransfer_rule_order.
    unfold first_violated, transfer_rule_order. cbn [find fst snd].
    destruct (t_id t =? 0) eqn:E1; [bools_to_props; rewrite E1; cbn; tauto|].
    destruct (t_id t >=? 2 ^ 128 - 1) eqn:E2.
    + rewrite Z.geb_leb in E2. bools_to_props. split; [tauto|]. intros _.
      apply andb_false_iff. right. apply Z.ltb_ge. lia.
    + rewrite Z.geb_leb in E2. bools_to_props. split.
      * intros H. apply andb_false_iff in H. destruct H as [H|H]; bools_to_props; lia.
      * intros [H|H]; exfalso; revert H;
          repeat match goal with
                 | |- context [find _ (_ :: _)] => cbn [find fst snd]
                 | |- context [if ?c then _ else _] => destruct c
                 end; cbn; discriminate.
Qed.

Lemma isValidId_is_the_id_rule_witness :
  let a := mkAccount (2 ^ 128 - 1) 0 0 0 0 0 0 0 0 1 1 0 0 in
  validateAccount a = CreateAccountError.id_must_not_be_zero \/
  validateAccount a = CreateAccountError.id_must_not_be_int_max.
Proof.
  intros a. apply (proj1 (proj1 isValidId_is_the_id_rule a ltac:(cbn; lia))). reflexivity.
Defined.

(** *** The generator seen through [createId] *)

(** A buffer of 16 bytes is its 80-bit counter followed by 6 bytes. *)
Lemma buffer_counter (buf : list byte) :
  length buf = 16%nat ->
  buf = le_split 10 (getUint 10 buf 0) ++ skipn 10 buf /\
  length (skipn 10 buf) = 6%nat /\ 0 <= getUint 10 buf 0 < 2 ^ 80.
Proof.
  intros Hlen. unfold getUint. rewrite skipn_O.
  assert (Hfirst : length (firstn 10 buf) = 10%nat) by (rewrite length_firstn; lia).
  split; [|split].
  - rewrite <- Hfirst at 1. rewrite split_le_combine. symmetry. apply firstn_skipn.
  - rewrite length_skipn. lia.
  - pose proof (le_combine_bound (firstn 10 buf)) as H. rewrite Hfirst in H. exact H.
Qed.

Lemma getUint_counter R (tail : list byte) :
  0 <= R < 2 ^ 80 -> getUint 10 (le_split 10 R ++ tail) 0 = R.
Proof.
  intros HR. unfold getUint. rewrite skipn_O.
  rewrite firstn_app, length_le_split, Nat.sub_diag, firstn_O, app_nil_r.
  rewrite firstn_all2 by (rewrite length_le_split; lia).
  rewrite le_combine_split. apply Z.mod_small. exact HR.
Qed.

(** X24: a call of [id] returns [createId] of the larger of the clock reading
    and the last timestamp, and of the counter plus one; the counter is the
    stored one when the clock has not advanced and the fresh random value
    otherwise. It throws exactly when that counter is all ones, and then
    leaves the stored counter at zero. *)
Theorem id_returns_createId (st : IdState) (now rnd : Z) :
  length (idArray st) = 16%nat ->
  let ts := Z.max now (idLastTimestamp st) in
  let base := if now <=? idLastTimestamp st then id_counter st else rnd mod 2 ^ 80 in
  idLastTimestamp (fst (id st now rnd)) = ts /\
  length (idArray (fst (id st now rnd))) = 16%nat /\
  if base + 1 <? 2 ^ 80
  then snd (id st now rnd) = Some (createId ts (base + 1)) /\
       id_counter (fst (id st now rnd)) = base + 1
  else snd (id st now rnd) = None /\ id_counter (fst (id st now rnd)) = 0.
Proof.
  intros Hlen. destruct st as [last buf]. cbn [idLastTimestamp idArray] in *.
  destruct (buffer_counter buf Hlen) as (Hbuf & Htail & HR).
  unfold id_counter. cbn [idArray].
  set (R := getUint 10 buf 0) in *. clearbody R.
  set (tail := skipn 10 buf) in *. clearbody tail. subst buf. clear Hlen.
  pose proof (id_step last R tail now rnd Htail HR) as Hstep. cbv zeta in Hstep |- *.
  assert (Hts : (if now <=? last then last else now) = Z.max now last)
    by (destruct (now <=? last) eqn:E; bools_to_props; lia).
  rewrite Hts in Hstep.
  set (base := if now <=? last then R else rnd mod 2 ^ 80) in *.
  assert (Hbase : 0 <= base < 2 ^ 80).
  { subst base. destruct (now <=? last); [exact HR|]. apply Z.mod_pos_bound. lia. }
  rewrite Hstep.
  destruct (base + 1 <? 2 ^ 80) eqn:Hlt; cbn [fst snd idLastTimestamp idArray].
  - apply Z.ltb_lt in Hlt. split; [reflexivity|]. split.
    + rewrite !length_app, !length_le_split. reflexivity.
    + split.
      * rewrite createId_layout, (Z.mod_small (base + 1)) by lia. reflexivity.
      * apply getUint_counter. lia.
  - split; [reflexivity|]. split.
    + rewrite length_app, length_le_split, Htail. reflexivity.
    + split; [reflexivity|]. apply getUint_counter. lia.
Qed.

Lemma id_returns_createId_witness :
  snd (id id_initial 1700000000000 41) = Some (createId 1700000000000 42).
Proof.
  pose proof (id_returns_createId id_initial 1700000000000 41 eq_refl) as H.
  cbv zeta in H. destruct H as (_ & _ & H).
  change (1700000000000 <=? idLastTimestamp id_initial) with false in H.
  change ((41 mod 2 ^ 80 + 1 <? 2 ^ 80)) with true in H.
  cbv iota in H. destruct H as [H _]. exact H.
Defined.

(** X25: as long as no call throws, the identifiers [id] returns are strictly
    increasing, from any state of the generator and whatever the clock and
    the random source do, and all of them lie above the identifier made of
    the stored timestamp and counter. *)
Theorem id_strictly_increasing (st : IdState) (inputs : list (Z * Z)) (ids : list Z) :
  length (idArray st) = 16%nat ->
  0 <= idLastTimestamp st < 2 ^ 48 ->
  Forall (fun input => 0 <= fst input < 2 ^ 48) inputs ->
  id_calls st inputs = map Some ids ->
  StronglySorted Z.lt ids /\
  Forall (fun x => createId (idLastTimestamp st) (id_counter st) < x) ids.
Proof.
  intros Hlen Hlast Hinputs Hcalls. destruct st as [last buf].
  cbn [idLastTimestamp idArray] in *. unfold id_counter. cbn [idArray].
  destruct (buffer_counter buf Hlen) as (Hbuf & Htail & HR).
  rewrite createId_sum, !Z.mod_small by assumption.
  rewrite Hbuf in Hcalls.
  destruct (id_calls_increasing inputs last _ _ ids Htail HR Hlast Hinputs Hcalls)
    as [Habove Hsorted].
  split; assumption.
Qed.

Lemma id_strictly_increasing_witness :
  StronglySorted Z.lt
    [createId 1700000000000 6; createId 1700000000000 7; createId 1700000000001 1].
Proof.
  refine (proj1 (id_strictly_increasing id_initial
            [(1700000000000, 5); (1699999999999, 77); (1700000000001, 0)]
            [createId 1700000000000 6; createId 1700000000000 7; createId 1700000000001 1]
            eq_refl _ _ _)).
  - cbn. lia.
  - repeat constructor; cbn; lia.
  - vm_compute. reflexivity.
Defined.

(** *** The linked flag *)

Lemma lor_1 x : Z.lor x 1 = 2 * (x / 2) + 1.
Proof.
  apply Z.bits_inj'. intros k Hk. rewrite Z.lor_spec.
  destruct (Z.eq_dec k 0) as [->|Hne].
  - rewrite Z.testbit_odd_0. apply orb_true_r.
  - replace k with (Z.succ (k - 1)) by lia.
    rewrite Z.testbit_odd_succ by lia. rewrite Z.div2_bits by lia.
    rewrite (Z.bits_above_log2 1 (Z.succ (k - 1))) by (cbn; lia).
    apply orb_false_r.
Qed.

Lemma ToInt32_same_but_linked f f' :
  same_but_linked f f' -> Z.lor (ToInt32 f) 1 = Z.lor (ToInt32 f') 1.
Proof.
  unfold same_but_linked. change TransferFlags.linked with 1.
  rewrite !lor_1. intros H. assert (Hq : f / 2 = f' / 2) by lia. clear H.
  f_equal. f_equal. unfold ToInt32.
  change (2 ^ 31) with 2147483648. change (2 ^ 32) with 4294967296.
  Z.to_euclidean_division_equations. lia.
Qed.

Lemma js_and_ignores_linked f f' mask :
  same_but_linked f f' -> Z.land (ToInt32 mask) 1 = 0 -> js_and f mask = js_and f' mask.
Proof.
  intros H Hmask. unfold js_and.
  assert (Hx : forall x, Z.land x (ToInt32 mask) = Z.land (Z.lor x 1) (ToInt32 mask)).
  { intros x. rewrite Z.land_lor_distr_l, (Z.land_comm 1), Hmask, Z.lor_0_r. reflexivity. }
  rewrite (Hx (ToInt32 f)), (Hx (ToInt32 f')), (ToInt32_same_but_linked f f' H). reflexivity.
Qed.

Lemma land_ignores_linked f f' mask :
  same_but_linked f f' -> Z.land mask 1 = 0 -> Z.land f mask = Z.land f' mask.
Proof.
  unfold same_but_linked. change TransferFlags.linked with 1. intros H Hmask.
  assert (Hx : forall x, Z.land x mask = Z.land (Z.lor x 1) mask).
  { intros x. rewrite Z.land_lor_distr_l, (Z.land_comm 1), Hmask, Z.lor_0_r. reflexivity. }
  rewrite (Hx f), (Hx f'), H. reflexivity.
Qed.

Ltac ignore_linked f f' H :=
  repeat match goal with
         | |- context [js_and f' ?mask] =>
           rewrite <- (js_and_ignores_linked f f' mask H ltac:(vm_compute; reflexivity))
         | |- context [Z.land f' ?mask] =>
           rewrite <- (land_ignores_linked f f' mask H ltac:(vm_compute; reflexivity))
         end.

Lemma validateTransfer_ignores_linked t f' :
  same_but_linked (t_flags t) f' -> validateTransfer (set_flags f' t) = validateTransfer t.
Proof.
  intros H. unfold validateTransfer.
  cbn [set_flags t_id t_debit_account_id t_credit_account_id t_amount t_pending_id
       t_timeout t_ledger t_code t_flags t_timestamp].
  cbv zeta. ignore_linked (t_flags t) f' H. reflexivity.
Qed.

Ltac transfer_fields :=
  cbn [set_flags set_amount set_transfer_timestamp t_id t_debit_account_id
       t_credit_account_id t_amount t_pending_id t_user_data_128 t_user_data_64
       t_user_data_32 t_timeout t_ledger t_code t_flags t_timestamp].

Lemma validateTransferAccounts_ignores_linked t f' d c p s :
  same_but_linked (t_flags t) f' ->
  validateTransferAccounts (set_flags f' t) d c p s = validateTransferAccounts t d c p s.
Proof.
  intros H. unfold validateTransferAccounts.
  destruct d as [d|]; [|reflexivity]. destruct c as [c|]; [|reflexivity].
  destruct p as [p|], s as [[]|]; cbv beta iota zeta; transfer_fields;
    ignore_linked (t_flags t) f' H; reflexivity.
Qed.

Lemma calculateBalancingAmount_ignores_linked t f' d c :
  same_but_linked (t_flags t) f' ->
  calculateBalancingAmount (set_flags f' t) d c = calculateBalancingAmount t d c.
Proof.
  intros H. unfold calculateBalancingAmount. transfer_fields.
  ignore_linked (t_flags t) f' H. reflexivity.
Qed.

Lemma is_pending_ignores_linked t f' :
  same_but_linked (t_flags t) f' -> is_pending (set_flags f' t) = is_pending t.
Proof.
  intros H. unfold is_pending. transfer_fields. ignore_linked (t_flags t) f' H. reflexivity.
Qed.

Lemma is_balancing_ignores_linked t f' :
  same_but_linked (t_flags t) f' -> is_balancing (set_flags f' t) = is_balancing t.
Proof.
  intros H. unfold is_balancing. transfer_fields. ignore_linked (t_flags t) f' H. reflexivity.
Qed.

Lemma pending_lookup_ignores_linked db t f' :
  same_but_linked (t_flags t) f' -> pending_lookup db (set_flags f' t) = pending_lookup db t.
Proof.
  intros H. unfold pending_lookup, is_post_or_void. transfer_fields.
  ignore_linked (t_flags t) f' H. reflexivity.
Qed.

Lemma debit_update_ignores_linked t f' :
  same_but_linked (t_flags t) f' -> debit_update (set_flags f' t) = debit_update t.
Proof.
  intros H. unfold debit_update. transfer_fields. ignore_linked (t_flags t) f' H. reflexivity.
Qed.

Lemma credit_update_ignores_linked t f' :
  same_but_linked (t_flags t) f' -> credit_update (set_flags f' t) = credit_update t.
Proof.
  intros H. unfold credit_update. transfer_fields. ignore_linked (t_flags t) f' H. reflexivity.
Qed.

Lemma insert_transfer_ignores_linked t f' db :
  same_but_linked (t_flags t) f' ->
  pending_transfers (insert_transfer (set_flags f' t) db)
  = pending_transfers (insert_transfer t db).
Proof.
  intros H. unfold insert_transfer. cbv zeta. cbn [pending_transfers]. transfer_fields.
  ignore_linked (t_flags t) f' H. reflexivity.
Qed.

(** The rows an accepted transfer leaves in [accounts], [pending_transfers]
    and [account_balances] do not depend on its [linked] bit. *)
Lemma applied_ignores_linked row f' db :
  same_but_linked (t_flags row) f' ->
  let s := updateAccountBalances row (insert_transfer row db) in
  let s' := updateAccountBalances (set_flags f' row) (insert_transfer (set_flags f' row) db) in
  accounts s' = accounts s /\
  pending_transfers s' = pending_transfers s /\
  account_balances s' = account_balances s /\
  transfers s' = <[t_id row := set_flags f' row]> (transfers db) /\
  transfers s = <[t_id row := row]> (transfers db).
Proof.
  intros H s s'.
  assert (Ha : accounts s' = accounts s).
  { unfold s, s'. rewrite !updateAccountBalances_accounts, !insert_transfer_accounts.
    rewrite (debit_update_ignores_linked _ _ H), (credit_update_ignores_linked _ _ H).
    reflexivity. }
  split; [exact Ha|]. split.
  { unfold s, s'. rewrite !updateAccountBalances_pending. apply insert_transfer_ignores_linked, H. }
  split.
  { unfold s, s'. rewrite !updateAccountBalances_balances. cbv zeta.
    fold s s'. unfold lookupAccount in *. rewrite Ha, !insert_transfer_accounts.
    reflexivity. }
  split.
  - unfold s'. rewrite updateAccountBalances_transfers, insert_transfer_transfers. reflexivity.
  - unfold s. rewrite updateAccountBalances_transfers, insert_transfer_transfers. reflexivity.
Qed.

Lemma same_but_stored_flags_refl f' id s :
  lookupTransfer (l_db s) id = None -> same_but_stored_flags f' id s s.
Proof.
  intros Hid. repeat split. apply map_eq. intros k.
  destruct (decide (k = id)) as [->|Hk].
  - rewrite lookup_alter_eq. unfold lookupTransfer in Hid. rewrite Hid. reflexivity.
  - rewrite lookup_alter_ne by congruence. reflexivity.
Qed.

Lemma same_but_stored_flags_push f' id e s :
  lookupTransfer (l_db s) id = None -> same_but_stored_flags f' id (push e s) (push e s).
Proof. intros Hid. apply same_but_stored_flags_refl. exact Hid. Qed.

Lemma process_resolved_ignores_linked now i st t d c f' :
  same_but_linked (t_flags t) f' ->
  lookupTransfer (l_db st) (t_id t) = None ->
  same_but_stored_flags f' (t_id t)
    (process_resolved now i st t d c) (process_resolved now i st (set_flags f' t) d c).
Proof.
  intros H Hid. unfold process_resolved.
  rewrite (pending_lookup_ignores_linked _ _ _ H).
  destruct (pending_lookup (l_db st) t) as [p s].
  rewrite (validateTransferAccounts_ignores_linked _ _ _ _ _ _ H).
  rewrite (is_pending_ignores_linked _ _ H).
  change (t_amount (set_flags f' t)) with (t_amount t).
  destruct (negb (transfer_ok (validateTransferAccounts t (Some d) (Some c) p (or_undefined s)))).
  { apply same_but_stored_flags_push, Hid. }
  destruct (wouldOverflowAccount d _ 0); [apply same_but_stored_flags_push, Hid|].
  destruct (wouldOverflowAccount c 0 _); [apply same_but_stored_flags_push, Hid|].
  cbv zeta. set (ts := next_timestamp now (l_lastTimestamp st)).
  set (row := set_transfer_timestamp ts t).
  change (set_transfer_timestamp ts (set_flags f' t)) with (set_flags f' row).
  destruct (applied_ignores_linked row f' (l_db st) H) as (Ha & Hp & Hb & Ht' & Ht).
  unfold same_but_stored_flags. cbn [l_db l_errors l_lastTimestamp].
  repeat split; try assumption.
  rewrite Ht', Ht. change (t_id row) with (t_id t). apply map_eq. intros k.
  destruct (decide (k = t_id t)) as [->|Hk].
  - rewrite lookup_alter_eq, !lookup_insert_eq. reflexivity.
  - rewrite lookup_alter_ne, !lookup_insert_ne by congruence. reflexivity.
Qed.

(** Setting or clearing the [linked] bit of a transfer whose id is not
    stored changes nothing in what its pass through the loop does, except
    the flags written into its own row. *)
Lemma createTransfers_step_ignores_linked now i st t f' :
  same_but_linked (t_flags t) f' ->
  lookupTransfer (l_db st) (t_id t) = None ->
  same_but_stored_flags f' (t_id t)
    (createTransfers_step now i st t) (createTransfers_step now i st (set_flags f' t)).
Proof.
  intros H Hid.
  assert (Hid' : lookupTransfer (l_db st) (t_id (set_flags f' t)) = None) by exact Hid.
  pose proof (validateTransfer_ignores_linked t f' H) as Hv.
  destruct (transfer_ok (validateTransfer t)) eqn:Hok;
    [apply transfer_ok_true in Hok
    |assert (Hbad : validateTransfer t <> CreateTransferError.ok)
       by (intros Heq; apply transfer_ok_true in Heq; congruence)].
  2:{ rewrite (createTransfers_step_invalid now i st t Hbad).
      rewrite (createTransfers_step_invalid now i st (set_flags f' t)) by congruence.
      rewrite Hv. apply same_but_stored_flags_push, Hid. }
  assert (Hok' : validateTransfer (set_flags f' t) = CreateTransferError.ok) by congruence.
  destruct (lookupAccount (l_db st) (t_debit_account_id t)) as [d|] eqn:Ed.
  2:{ rewrite (createTransfers_step_missing_account now i st t Hok Hid (or_introl Ed)).
      rewrite (createTransfers_step_missing_account now i st (set_flags f' t) Hok' Hid'
                 (or_introl Ed)).
      transfer_fields. apply same_but_stored_flags_push, Hid. }
  destruct (lookupAccount (l_db st) (t_credit_account_id t)) as [c|] eqn:Ec.
  2:{ rewrite (createTransfers_step_missing_account now i st t Hok Hid (or_intror Ec)).
      rewrite (createTransfers_step_missing_account now i st (set_flags f' t) Hok' Hid'
                 (or_intror Ec)).
      transfer_fields. apply same_but_stored_flags_push, Hid. }
  pose proof (calculateBalancingAmount_ignores_linked t f' d c H) as Hc.
  destruct (Z.eq_dec (calculateBalancingAmount t d c) 0) as [Hz|Hnz].
  - destruct (is_balancing t) eqn:Eb.
    + rewrite (createTransfers_step_balancing_zero now i st t d c Hok Hid Ed Ec Eb Hz).
      rewrite (createTransfers_step_balancing_zero now i st (set_flags f' t) d c Hok' Hid' Ed Ec).
      * apply same_but_stored_flags_refl, Hid.
      * rewrite (is_balancing_ignores_linked _ _ H). exact Eb.
      * congruence.
    + pose proof (calculateBalancingAmount_not_balancing t d c Eb) as Hn.
      rewrite (createTransfers_step_resolved now i st t d c Hok Hid Ed Ec Hn).
      rewrite (createTransfers_step_resolved now i st (set_flags f' t) d c Hok' Hid' Ed Ec).
      * apply process_resolved_ignores_linked; assumption.
      * rewrite Hc. exact Hn.
  - rewrite (createTransfers_step_balancing now i st t d c Hok Hid Ed Ec Hnz).
    rewrite (createTransfers_step_balancing now i st (set_flags f' t) d c Hok' Hid' Ed Ec)
      by congruence.
    rewrite Hc.
    apply (process_resolved_ignores_linked now i st
             (set_amount (calculateBalancingAmount t d c) t) d c f' H Hid).
Qed.

Lemma same_but_linked_set f : same_but_linked f (Z.lor f TransferFlags.linked).
Proof. unfold same_but_linked. rewrite <- Z.lor_assoc, Z.lor_diag. reflexivity. Qed.

Lemma same_but_linked_clear f : same_but_linked f (Z.ldiff f TransferFlags.linked).
Proof.
  unfold same_but_linked. apply Z.bits_inj'. intros k Hk.
  rewrite !Z.lor_spec, Z.ldiff_spec.
  destruct (Z.testbit f k), (Z.testbit TransferFlags.linked k); reflexivity.
Qed.

Lemma createTransfers_step_passed now i st t d c :
  passes_own_checks st t d c ->
  createTransfers_step now i st t
  = let row := accepted_row now st t d c in
    mkLoop (updateAccountBalances row (insert_transfer row (l_db st)))
           (l_errors st) (t_timestamp row).
Proof.
  intros (Hok & Hid & Hd & Hc & Hnz & Hva & Hod & Hoc).
  rewrite (createTransfers_step_balancing now i st t d c Hok Hid Hd Hc Hnz).
  destruct (pending_lookup (l_db st) t) as [p s] eqn:Hp. cbn [fst snd] in Hva.
  apply (process_resolved_accepted now i st _ d c p s); assumption.
Qed.

(** A transfer that passes its checks is stored and its amounts are added
    to the rows of its two accounts. *)
Lemma createTransfers_step_applied now i st t d c :
  passes_own_checks st t d c ->
  let row := accepted_row now st t d c in
  let st' := createTransfers_step now i st t in
  l_errors st' = l_errors st /\
  lookupTransfer (l_db st') (t_id t) = Some row /\
  lookupAccount (l_db st') (t_debit_account_id t) = Some (debit_update row d) /\
  lookupAccount (l_db st') (t_credit_account_id t) = Some (credit_update row c).
Proof.
  intros Hp row st'. pose proof (createTransfers_step_passed now i st t d c Hp) as Hst.
  cbv zeta in Hst. fold row in Hst. fold st' in Hst.
  destruct Hp as (Hok & Hid & Hd & Hc & _).
  pose proof (validateTransfer_ok_distinct t Hok) as Hne.
  rewrite Hst. cbn [l_db l_errors]. split; [reflexivity|]. split; [|split].
  - unfold lookupTransfer. rewrite updateAccountBalances_transfers, insert_transfer_transfers.
    apply lookup_insert_eq.
  - apply (applied_debit_account row (l_db st) d); assumption.
  - pose proof (applied_credit_account row (l_db st) c Hc) as H.
    change (t_debit_account_id row) with (t_debit_account_id t) in H.
    change (t_credit_account_id row) with (t_credit_account_id t) in H.
    destruct (decide (t_debit_account_id t = t_credit_account_id t)); [contradiction|].
    exact H.
Qed.

(** A pass that adds an entry to the list of results leaves the store as
    it was, and the entry carries a result of the checks of its transfer. *)
Lemma createTransfers_step_reported now i st t e :
  l_errors (createTransfers_step now i st t) = l_errors st ++ [mkTransfersError i e] ->
  rejection st t e /\ createTransfers_step now i st t = push (mkTransfersError i e) st.
Proof.
  intros H.
  destruct (createTransfers_step_cases now i st t)
    as [(e0 & _ & Hr & Hst) | [(_ & Hst) | (d & c & Hall)]].
  - rewrite Hst in H. unfold push in H. cbn [l_errors] in H.
    apply app_inv_head in H. inversion H; subst e0. split; [exact Hr|exact Hst].
  - rewrite Hst in H. exfalso. apply (f_equal (@length _)) in H.
    rewrite length_app in H. cbn in H. lia.
  - destruct Hall as (_ & _ & _ & _ & _ & _ & _ & _ & Hst).
    rewrite Hst in H. cbn [l_errors] in H. exfalso. apply (f_equal (@length _)) in H.
    rewrite length_app in H. cbn in H. lia.
Qed.

Lemma createTransfers_entry_at clock db (pre post : list Transfer) t e :
  let st := transfers_state_after clock db pre in
  In (mkTransfersError (length pre) e) (snd (createTransfers clock db (pre ++ t :: post))) ->
  rejection st t e /\
  createTransfers_step (clock (length pre)) (length pre) st t
  = push (mkTransfersError (length pre) e) st.
Proof.
  intros st Hin. apply createTransfers_step_reported.
  pose proof (batch_loop_entries_at te_index
                (fun e => te_result e <> CreateTransferError.ok)
                createTransfers_step clock createTransfers_step_result
                pre post t (mkLoop db [] 0) eq_refl
                (mkTransfersError (length pre) e) eq_refl) as Hiff.
  cbv zeta in Hiff. apply Hiff. exact Hin.
Qed.

(** When every element after the first [length pre + 1] of a batch is
    reported, the store at the end is the store as the element at
    [length pre] left it. *)
Lemma later_rejections_keep_store clock db (pre : list Transfer) t :
  forall post1 post2,
    (forall j, (length pre < j < length (pre ++ t :: post1 ++ post2))%nat ->
       exists e, In (mkTransfersError j e)
                    (snd (createTransfers clock db (pre ++ t :: post1 ++ post2)))) ->
    l_db (transfers_state_after clock db (pre ++ t :: post1))
    = l_db (createTransfers_step (clock (length pre)) (length pre)
              (transfers_state_after clock db pre) t).
Proof.
  induction post1 as [|x q IH] using rev_ind; intros post2 Hall.
  - unfold transfers_state_after. rewrite batch_loop_split. reflexivity.
  - rewrite <- app_assoc in Hall. cbn [app] in Hall.
    specialize (IH (x :: post2) Hall).
    destruct (Hall (length (pre ++ t :: q))) as (e & Hin).
    { rewrite !length_app. cbn [length]. rewrite !length_app. cbn [length]. lia. }
    replace (pre ++ t :: q ++ x :: post2) with ((pre ++ t :: q) ++ x :: post2) in Hin
      by (rewrite <- app_assoc; reflexivity).
    apply createTransfers_entry_at in Hin. destruct Hin as (_ & Hst).
    replace (pre ++ t :: q ++ [x]) with ((pre ++ t :: q) ++ [x])
      by (rewrite <- app_assoc; reflexivity).
    unfold transfers_state_after at 1. rewrite batch_loop_split. cbn [batch_loop].
    fold (transfers_state_after clock db (pre ++ t :: q)).
    rewrite Hst. cbn [push l_db]. exact IH.
Qed.


